(** * Extended-reduction MST engine (extreduce_extmst.c): a shallow embedding

    The C file keeps, for the extension tree of the extended Steiner-tree
    reductions, a per-vertex bottleneck array, a reversible set of
    equality-forbidden edges, two layered special-distance (SD) stores and two
    depots of SD minimum spanning trees, and decides from them whether an
    extension can be ruled out.

    Conventions of the embedding.
    - [int] is [Z]; arrays are lists read and written at a [Z] index
      ([zget], [zset]); a read outside the array yields a default and a write
      outside the array changes nothing (the C code asserts the bounds).
    - [SCIP_Real] is an exact rational [Q]: sums, differences and
      comparisons are those of the rationals, without rounding.
    - Loops that follow parent pointers or adjacency chains take fuel (the
      length of the array they follow) and return [None] when it runs out;
      the theorems show that a well-formed tree never exhausts it.
    - Fatal precondition violations (an empty depot, a missing slot) are
      [None] as well.
    - The embedding is that of the release build: [assert]s and the blocks
      under [#ifndef NDEBUG] are not executed. *)

From Stdlib Require Import ZArith QArith Qabs Lqa Lia List Bool Sorting.Sorted Permutation.
From stdpp Require Import base option list relations.

Open Scope Z_scope.

(** ** Arrays indexed by C integers *)

Definition zget {A} (d : A) (l : list A) (i : Z) : A :=
  if i <? 0 then d else nth (Z.to_nat i) l d.

Definition zset {A} (l : list A) (i : Z) (x : A) : list A :=
  if i <? 0 then l else <[Z.to_nat i := x]> l.

(** ** Exact comparisons of [SCIP_Real] values *)

Definition Qltb (a b : Q) : bool := negb (Qle_bool b a).

(** The [MAX] macro. *)
Definition QMAX (a b : Q) : Q := if Qle_bool b a then a else b.

(** ** The graph (the fields of GRAPH that the file reads) *)

(** Modelled from the spec: the adjacency storage [DCSR] of graph.h, head
    adjacency by compressed sparse rows with one [start, end) range per
    vertex. *)
Record DCSR := {
  dcsr_range : list (Z * Z);
  dcsr_head : list Z;
  dcsr_cost : list Q
}.

Record GRAPH := {
  knots : Z;
  edges : Z;
  term : list Z;
  prize : option (list Q);      (* NULL unless the problem has prizes *)
  cost : list Q;
  tail : list Z;
  head : list Z;
  outbeg : list Z;
  oeat : list Z;
  dcsr_storage : DCSR;
  stp_pc : bool                 (* the problem type is prize-collecting *)
}.

(** Modelled from the spec: [EAT_LAST], the end marker of the adjacency
    chains of graph.h. *)
Definition EAT_LAST : Z := -1.

(** Modelled from the spec: [Is_term] of graph.h, "a terminal vertex". *)
Definition Is_term (t : Z) : bool := 0 <=? t.

(** Modelled from the spec: [graph_pc_isPc] of graph.h; the file asserts that
    it agrees with [graph->prize != NULL]. *)
Definition graph_pc_isPc (g : GRAPH) : bool := stp_pc g.

Definition graph_prize (g : GRAPH) (v : Z) : Q :=
  match prize g with
  | Some p => zget 0%Q p v
  | None => 0%Q
  end.

(** ** Compressed sparse row MSTs, depots and distance stores *)

Record CSR := {
  nnodes : Z;
  nedges_max : Z;               (* directed edge entries: two per MST edge *)
  csr_start : list Z;
  csr_head : list Z;
  csr_cost : list Q
}.

(** Modelled from the spec: the CSR depot of graph.h (4.B), a stack of CSRs
    whose top may still be empty (unmarked); the top is the list head. *)
Record CSRDEPO := {
  depo_csrs : list CSR;
  depo_topIsEmpty : bool
}.

(** Modelled from the spec: a slot of the multi-level distance store (4.A):
    a base vertex with its target ids and distances. *)
Record MLSLOT := {
  slot_base : Z;
  slot_ids : list Z;
  slot_dists : list Q
}.

Record MLLEVEL := {
  level_maxslots : Z;
  level_ntargets : Z;
  level_slots : list MLSLOT;    (* the filled slots, oldest first *)
  level_closed : bool
}.

(** Modelled from the spec: the multi-level distance store (4.A): a stack of
    levels (top is the list head) and the slot being filled, if any. *)
Record MLDISTS := {
  ml_levels : list MLLEVEL;
  ml_emptyslot : option MLSLOT
}.

(** ** Reduction data, prize-collecting data and the extension data *)

Record REDDATA := {
  msts_comp : CSRDEPO;
  msts_levelbase : CSRDEPO;
  sds_horizontal : MLDISTS;
  sds_vertical : MLDISTS
}.

Record PCDATA := {
  pcSdToNode : option (list Q);  (* NULL unless prize-collecting *)
  pcSdCands : list Z;
  nPcSdCands : Z;
  tree_innerPrize : Q
}.

Record EXTDATA := {
  extstack_data : list Z;
  extstack_start : list Z;
  extstack_state : list Z;
  extstack_ncomponents : Z;
  tree_leaves : list Z;
  tree_innerNodes : list Z;
  tree_parentNode : list Z;
  tree_parentEdgeCost : list Q;
  tree_bottleneckDistNode : list Q;
  tree_deg : list Z;
  tree_root : Z;
  tree_starcenter : Z;
  tree_nleaves : Z;
  tree_ninnerNodes : Z;
  tree_depth : Z;
  tree_cost : Q;
  sdeq_edgesIsForbidden : list bool;
  sdeq_hasForbiddenEdges : bool;
  sdeq_resetStack : list Z;
  reddata : REDDATA;
  pcdata : PCDATA
}.

Definition set_bottleneckDistNode (b : list Q) (ed : EXTDATA) : EXTDATA :=
  {| extstack_data := extstack_data ed; extstack_start := extstack_start ed;
     extstack_state := extstack_state ed;
     extstack_ncomponents := extstack_ncomponents ed;
     tree_leaves := tree_leaves ed; tree_innerNodes := tree_innerNodes ed;
     tree_parentNode := tree_parentNode ed;
     tree_parentEdgeCost := tree_parentEdgeCost ed;
     tree_bottleneckDistNode := b;
     tree_deg := tree_deg ed; tree_root := tree_root ed;
     tree_starcenter := tree_starcenter ed; tree_nleaves := tree_nleaves ed;
     tree_ninnerNodes := tree_ninnerNodes ed; tree_depth := tree_depth ed;
     tree_cost := tree_cost ed;
     sdeq_edgesIsForbidden := sdeq_edgesIsForbidden ed;
     sdeq_hasForbiddenEdges := sdeq_hasForbiddenEdges ed;
     sdeq_resetStack := sdeq_resetStack ed;
     reddata := reddata ed; pcdata := pcdata ed |}.

Definition set_sdeq (f : list bool) (h : bool) (s : list Z) (ed : EXTDATA) : EXTDATA :=
  {| extstack_data := extstack_data ed; extstack_start := extstack_start ed;
     extstack_state := extstack_state ed;
     extstack_ncomponents := extstack_ncomponents ed;
     tree_leaves := tree_leaves ed; tree_innerNodes := tree_innerNodes ed;
     tree_parentNode := tree_parentNode ed;
     tree_parentEdgeCost := tree_parentEdgeCost ed;
     tree_bottleneckDistNode := tree_bottleneckDistNode ed;
     tree_deg := tree_deg ed; tree_root := tree_root ed;
     tree_starcenter := tree_starcenter ed; tree_nleaves := tree_nleaves ed;
     tree_ninnerNodes := tree_ninnerNodes ed; tree_depth := tree_depth ed;
     tree_cost := tree_cost ed;
     sdeq_edgesIsForbidden := f;
     sdeq_hasForbiddenEdges := h;
     sdeq_resetStack := s;
     reddata := reddata ed; pcdata := pcdata ed |}.

Definition set_reddata (r : REDDATA) (ed : EXTDATA) : EXTDATA :=
  {| extstack_data := extstack_data ed; extstack_start := extstack_start ed;
     extstack_state := extstack_state ed;
     extstack_ncomponents := extstack_ncomponents ed;
     tree_leaves := tree_leaves ed; tree_innerNodes := tree_innerNodes ed;
     tree_parentNode := tree_parentNode ed;
     tree_parentEdgeCost := tree_parentEdgeCost ed;
     tree_bottleneckDistNode := tree_bottleneckDistNode ed;
     tree_deg := tree_deg ed; tree_root := tree_root ed;
     tree_starcenter := tree_starcenter ed; tree_nleaves := tree_nleaves ed;
     tree_ninnerNodes := tree_ninnerNodes ed; tree_depth := tree_depth ed;
     tree_cost := tree_cost ed;
     sdeq_edgesIsForbidden := sdeq_edgesIsForbidden ed;
     sdeq_hasForbiddenEdges := sdeq_hasForbiddenEdges ed;
     sdeq_resetStack := sdeq_resetStack ed;
     reddata := r; pcdata := pcdata ed |}.

Definition set_pcdata (p : PCDATA) (ed : EXTDATA) : EXTDATA :=
  {| extstack_data := extstack_data ed; extstack_start := extstack_start ed;
     extstack_state := extstack_state ed;
     extstack_ncomponents := extstack_ncomponents ed;
     tree_leaves := tree_leaves ed; tree_innerNodes := tree_innerNodes ed;
     tree_parentNode := tree_parentNode ed;
     tree_parentEdgeCost := tree_parentEdgeCost ed;
     tree_bottleneckDistNode := tree_bottleneckDistNode ed;
     tree_deg := tree_deg ed; tree_root := tree_root ed;
     tree_starcenter := tree_starcenter ed; tree_nleaves := tree_nleaves ed;
     tree_ninnerNodes := tree_ninnerNodes ed; tree_depth := tree_depth ed;
     tree_cost := tree_cost ed;
     sdeq_edgesIsForbidden := sdeq_edgesIsForbidden ed;
     sdeq_hasForbiddenEdges := sdeq_hasForbiddenEdges ed;
     sdeq_resetStack := sdeq_resetStack ed;
     reddata := reddata ed; pcdata := p |}.

(** ** The bottleneck tracker *)

(** One step of the walk towards the root: the local accumulator after the
    tree edge above [childNode].  Through a vertex of tree degree two the
    parent edge cost is added (and, prize-collecting, the prize of a terminal
    is subtracted); any other vertex restarts the accumulator. *)
Definition bottleneckLocalStep (g : GRAPH) (ed : EXTDATA) (isPc : bool)
    (bottleneck_local : Q) (childNode : Z) : Q :=
  if zget 0 (tree_deg ed) childNode =? 2 then
    let l1 := (bottleneck_local + zget 0%Q (tree_parentEdgeCost ed) childNode)%Q in
    if isPc && Is_term (zget (-1) (term g) childNode)
    then (l1 - graph_prize g childNode)%Q
    else l1
  else zget 0%Q (tree_parentEdgeCost ed) childNode.

(** [if( bottleneck < bottleneck_local ) bottleneck = bottleneck_local;] *)
Definition bottleneckRunMax (bottleneck bottleneck_local : Q) : Q :=
  if Qltb bottleneck bottleneck_local then bottleneck_local else bottleneck.

(** The [while( currentNode != -1 )] loop of [bottleneckMarkRootPath]. *)
Fixpoint bottleneckMarkRootPath_loop (fuel : nat) (g : GRAPH) (ed : EXTDATA)
    (isPc : bool) (childNode currentNode : Z) (bottleneck bottleneck_local : Q)
    (bdn : list Q) : option (list Q) :=
  if currentNode =? -1 then Some bdn
  else match fuel with
       | O => None
       | S fuel' =>
           let bottleneck_local' :=
             bottleneckLocalStep g ed isPc bottleneck_local childNode in
           let bottleneck' := bottleneckRunMax bottleneck bottleneck_local' in
           bottleneckMarkRootPath_loop fuel' g ed isPc currentNode
             (zget (-1) (tree_parentNode ed) currentNode)
             bottleneck' bottleneck_local'
             (zset bdn currentNode bottleneck')
       end.

(** marks bottleneck array on path to tree root *)
Definition bottleneckMarkRootPath (g : GRAPH) (vertex : Z) (ed : EXTDATA)
    : option EXTDATA :=
  let bdn := tree_bottleneckDistNode ed in
  if vertex =? tree_root ed then
    Some (set_bottleneckDistNode (zset bdn vertex 0%Q) ed)
  else
    bdn' ← bottleneckMarkRootPath_loop (length (tree_parentNode ed)) g ed
              (graph_pc_isPc g) vertex (zget (-1) (tree_parentNode ed) vertex)
              0%Q 0%Q bdn;
    Some (set_bottleneckDistNode bdn' ed).

(** The [for] loop of [bottleneckUnmarkRootPath]. *)
Fixpoint bottleneckUnmarkRootPath_loop (fuel : nat) (ed : EXTDATA)
    (currentNode : Z) (bdn : list Q) : option (list Q) :=
  if currentNode =? -1 then Some bdn
  else match fuel with
       | O => None
       | S fuel' =>
           bottleneckUnmarkRootPath_loop fuel' ed
             (zget (-1) (tree_parentNode ed) currentNode)
             (zset bdn currentNode (-1)%Q)
       end.

(** unmarks bottleneck array on path to tree root *)
Definition bottleneckUnmarkRootPath (g : GRAPH) (vertex : Z) (ed : EXTDATA)
    : option EXTDATA :=
  let bdn := tree_bottleneckDistNode ed in
  let bdn0 := if vertex =? tree_root ed then zset bdn vertex (-1)%Q else bdn in
  bdn' ← bottleneckUnmarkRootPath_loop (length (tree_parentNode ed)) ed
            (zget (-1) (tree_parentNode ed) vertex) bdn0;
  Some (set_bottleneckDistNode bdn' ed).

(** The [for] loop of [bottleneckGetDist]: up from [vertex_unmarked] until a
    vertex with a marked bottleneck; returns that vertex and the running
    maximum.  The loop condition reads [bottleneckDist_node[currentNode]];
    above an unmarked root [currentNode] is -1, where the array has no
    entry, so the walk has no result there: the function requires that the
    root path of some vertex is marked. *)
Fixpoint bottleneckGetDist_loop (fuel : nat) (g : GRAPH) (ed : EXTDATA)
    (isPc : bool) (currentNode : Z) (bottleneck bottleneck_local : Q)
    : option (Z * Q) :=
  if (currentNode <? 0)
     || (Z.of_nat (length (tree_bottleneckDistNode ed)) <=? currentNode)
  then None
  else if Qltb (zget 0%Q (tree_bottleneckDistNode ed) currentNode) (-(1#2)) then
    match fuel with
    | O => None
    | S fuel' =>
        let bottleneck_local' :=
          bottleneckLocalStep g ed isPc bottleneck_local currentNode in
        let bottleneck' := bottleneckRunMax bottleneck bottleneck_local' in
        bottleneckGetDist_loop fuel' g ed isPc
          (zget (-1) (tree_parentNode ed) currentNode)
          bottleneck' bottleneck_local'
    end
  else Some (currentNode, bottleneck).

(** computes the tree bottleneck between vertices in the current tree, for
    which the root path of [vertex_pathmarked] has been marked already *)
Definition bottleneckGetDist (g : GRAPH) (ed : EXTDATA) (vertex_unmarked : Z)
    : option Q :=
  let bdn := tree_bottleneckDistNode ed in
  if vertex_unmarked =? tree_root ed then
    Some (QMAX 0 (zget 0%Q bdn vertex_unmarked))
  else
    '(currentNode, bottleneck) ←
        bottleneckGetDist_loop (length (tree_parentNode ed)) g ed
          (graph_pc_isPc g) vertex_unmarked 0%Q 0%Q;
    Some (QMAX bottleneck (zget 0%Q bdn currentNode)).

(** ** The CSR depot (graph_csrdepo) *)

(** Modelled from the spec: the depot operations of 4.B, which the file
    calls but does not define.  A tree on [k] nodes has [2(k-1)] directed
    edge entries. *)
Definition graph_csrdepo_getNcsrs (d : CSRDEPO) : Z :=
  Z.of_nat (length (depo_csrs d)).

Definition graph_csrdepo_isEmpty (d : CSRDEPO) : bool :=
  match depo_csrs d with [] => true | _ => false end.

Definition graph_csrdepo_getTopCSR (d : CSRDEPO) : option CSR :=
  match depo_csrs d with [] => None | c :: _ => Some c end.

Definition graph_csrdepo_addEmptyTop (d : CSRDEPO) (nnodes_ nedges_ : Z)
    : CSRDEPO :=
  {| depo_csrs :=
       {| nnodes := nnodes_; nedges_max := nedges_;
          csr_start := []; csr_head := []; csr_cost := [] |} :: depo_csrs d;
     depo_topIsEmpty := true |}.

Definition graph_csrdepo_addEmptyTopTree (d : CSRDEPO) (nnodes_ : Z) : CSRDEPO :=
  graph_csrdepo_addEmptyTop d nnodes_ (2 * (nnodes_ - 1)).

Definition graph_csrdepo_getEmptyTop (d : CSRDEPO) : option CSR :=
  if depo_topIsEmpty d then graph_csrdepo_getTopCSR d else None.

Definition graph_csrdepo_emptyTopSetMarked (d : CSRDEPO) : CSRDEPO :=
  {| depo_csrs := depo_csrs d; depo_topIsEmpty := false |}.

Definition graph_csrdepo_removeTop (d : CSRDEPO) : option CSRDEPO :=
  match depo_csrs d with
  | [] => None
  | _ :: rest => Some {| depo_csrs := rest; depo_topIsEmpty := false |}
  end.

(** The CSR handed out by [graph_csrdepo_getEmptyTop] shares its arrays with
    the depot: what the MST kernel writes through it is written to the top
    entry of the depot, whose own node and edge counts stay as allocated. *)
Definition csrdepo_writeTop (d : CSRDEPO) (c : CSR) : CSRDEPO :=
  match depo_csrs d with
  | [] => d
  | t :: rest =>
      {| depo_csrs :=
           {| nnodes := nnodes t; nedges_max := nedges_max t;
              csr_start := csr_start c; csr_head := csr_head c;
              csr_cost := csr_cost c |} :: rest;
         depo_topIsEmpty := depo_topIsEmpty d |}
  end.

(** Modelled from the spec: [graph_csr_copy] makes the second CSR a copy of
    the first. *)
Definition graph_csr_copy (csr_in csr_out : CSR) : CSR := csr_in.

(** ** The multi-level distance store (extreduce_mldists) *)

(** Modelled from the spec: the unset distance of a slot position that has
    not been written (extreduce.h). *)
Definition STP_MLDISTS_DIST_UNSET : Q := (-1)%Q.

(** Writing position [j] of the memory of the slot being filled; positions
    not written so far hold the unset distance. *)
Definition slot_write (l : list Q) (j : Z) (x : Q) : list Q :=
  if j <? 0 then l
  else if j <? Z.of_nat (length l) then <[Z.to_nat j := x]> l
  else l ++ replicate (Z.to_nat j - length l) STP_MLDISTS_DIST_UNSET ++ [x].

Definition ids_write (l : list Z) (j : Z) (x : Z) : list Z :=
  if j <? 0 then l
  else if j <? Z.of_nat (length l) then <[Z.to_nat j := x]> l
  else l ++ replicate (Z.to_nat j - length l) (-1) ++ [x].

(** Modelled from the spec: the store operations of 4.A, which the file
    calls but does not define. *)
Definition extreduce_mldistsNlevels (m : MLDISTS) : Z :=
  Z.of_nat (length (ml_levels m)).

Definition extreduce_mldistsTopLevel (m : MLDISTS) : Z :=
  extreduce_mldistsNlevels m - 1.

Definition extreduce_mldistsLevelAddTop (nslots nslottargets : Z) (m : MLDISTS)
    : MLDISTS :=
  {| ml_levels :=
       {| level_maxslots := nslots; level_ntargets := nslottargets;
          level_slots := []; level_closed := false |} :: ml_levels m;
     ml_emptyslot :=
       Some {| slot_base := -1; slot_ids := []; slot_dists := [] |} |}.

Definition extreduce_mldistsEmptySlotExists (m : MLDISTS) : bool :=
  match ml_emptyslot m with Some _ => true | None => false end.

Definition extreduce_mldistsEmptySlotSetBase (v : Z) (m : MLDISTS)
    : option MLDISTS :=
  s ← ml_emptyslot m;
  Some {| ml_levels := ml_levels m;
          ml_emptyslot :=
            Some {| slot_base := v; slot_ids := slot_ids s;
                    slot_dists := slot_dists s |} |}.

Definition extreduce_mldistsEmptySlotTargetDists (m : MLDISTS)
    : option (list Q) :=
  s ← ml_emptyslot m; Some (slot_dists s).

Definition extreduce_mldistsEmptySlotTargetDistsDirty (m : MLDISTS)
    : option (list Q) :=
  s ← ml_emptyslot m; Some (slot_dists s).

Definition extreduce_mldistsEmptySlotTargetIds (m : MLDISTS)
    : option (list Z) :=
  s ← ml_emptyslot m; Some (slot_ids s).

(** The views handed out by the two accessors above are writable: this
    stores what was written through them. *)
Definition mldists_emptySlotStore (ids : list Z) (dists : list Q) (m : MLDISTS)
    : option MLDISTS :=
  s ← ml_emptyslot m;
  Some {| ml_levels := ml_levels m;
          ml_emptyslot :=
            Some {| slot_base := slot_base s; slot_ids := ids;
                    slot_dists := dists |} |}.

(** The fresh slot that follows a sealed or discarded one, as long as the
    top level has room. *)
Definition mldists_nextEmptySlot (l : MLLEVEL) : option MLSLOT :=
  if level_closed l then None
  else if Z.of_nat (length (level_slots l)) <? level_maxslots l
  then Some {| slot_base := -1; slot_ids := []; slot_dists := [] |}
  else None.

Definition extreduce_mldistsEmptySlotSetFilled (m : MLDISTS) : option MLDISTS :=
  s ← ml_emptyslot m;
  match ml_levels m with
  | [] => None
  | l :: rest =>
      let n := Z.to_nat (level_ntargets l) in
      let l' := {| level_maxslots := level_maxslots l;
                   level_ntargets := level_ntargets l;
                   level_slots :=
                     level_slots l ++
                       [{| slot_base := slot_base s;
                           slot_ids := take n (slot_ids s);
                           slot_dists := take n (slot_dists s) |}];
                   level_closed := level_closed l |} in
      Some {| ml_levels := l' :: rest;
              ml_emptyslot := mldists_nextEmptySlot l' |}
  end.

Definition extreduce_mldistsEmptySlotReset (m : MLDISTS) : option MLDISTS :=
  _ ← ml_emptyslot m;
  Some {| ml_levels := ml_levels m;
          ml_emptyslot :=
            Some {| slot_base := -1; slot_ids := []; slot_dists := [] |} |}.

Definition extreduce_mldistsLevelCloseTop (m : MLDISTS) : MLDISTS :=
  match ml_levels m with
  | [] => m
  | l :: rest =>
      {| ml_levels :=
           {| level_maxslots := level_maxslots l;
              level_ntargets := level_ntargets l;
              level_slots := level_slots l; level_closed := true |} :: rest;
         ml_emptyslot := None |}
  end.

Definition extreduce_mldistsLevelRemoveTop (m : MLDISTS) : option MLDISTS :=
  match ml_levels m with
  | [] => None
  | _ :: rest => Some {| ml_levels := rest; ml_emptyslot := None |}
  end.

Definition mldists_findSlot (slots : list MLSLOT) (base : Z) : option MLSLOT :=
  List.find (fun s => slot_base s =? base) slots.

Fixpoint mldists_findTarget (ids : list Z) (dists : list Q) (target : Z)
    : option Q :=
  match ids, dists with
  | i :: ids', d :: dists' =>
      if i =? target then Some d else mldists_findTarget ids' dists' target
  | _, _ => None
  end.

(** The level with number [level], counted from the bottom of the stack. *)
Definition mldists_level (m : MLDISTS) (level : Z) : option MLLEVEL :=
  if level <? 0 then None
  else rev (ml_levels m) !! Z.to_nat level.

Definition extreduce_mldistsTargetDists (m : MLDISTS) (level base : Z)
    : option (list Q) :=
  l ← mldists_level m level;
  s ← mldists_findSlot (level_slots l) base;
  Some (slot_dists s).

Definition extreduce_mldistsTargetDist (m : MLDISTS) (level base target : Z)
    : option Q :=
  l ← mldists_level m level;
  s ← mldists_findSlot (level_slots l) base;
  mldists_findTarget (slot_ids s) (slot_dists s) target.

Definition extreduce_mldistsTopTargetDists (m : MLDISTS) (base : Z)
    : option (list Q) :=
  extreduce_mldistsTargetDists m (extreduce_mldistsTopLevel m) base.

Definition extreduce_mldistsTopTargetDist (m : MLDISTS) (base target : Z)
    : option Q :=
  extreduce_mldistsTargetDist m (extreduce_mldistsTopLevel m) base target.

Definition extreduce_mldistsLevelNTopTargets (m : MLDISTS) : Z :=
  match ml_levels m with
  | [] => 0
  | l :: _ => level_ntargets l
  end.

Definition set_msts_comp (d : CSRDEPO) (r : REDDATA) : REDDATA :=
  {| msts_comp := d; msts_levelbase := msts_levelbase r;
     sds_horizontal := sds_horizontal r; sds_vertical := sds_vertical r |}.

Definition set_msts_levelbase (d : CSRDEPO) (r : REDDATA) : REDDATA :=
  {| msts_comp := msts_comp r; msts_levelbase := d;
     sds_horizontal := sds_horizontal r; sds_vertical := sds_vertical r |}.

Definition set_sds_horizontal (m : MLDISTS) (r : REDDATA) : REDDATA :=
  {| msts_comp := msts_comp r; msts_levelbase := msts_levelbase r;
     sds_horizontal := m; sds_vertical := sds_vertical r |}.

Definition set_sds_vertical (m : MLDISTS) (r : REDDATA) : REDDATA :=
  {| msts_comp := msts_comp r; msts_levelbase := msts_levelbase r;
     sds_horizontal := sds_horizontal r; sds_vertical := m |}.

(** Modelled from the spec: [SCIPsortIntInt] sorts the keys into
    non-decreasing order and permutes the data array along with them. *)
Fixpoint sortIntInt_insert (k d : Z) (l : list (Z * Z)) : list (Z * Z) :=
  match l with
  | [] => [(k, d)]
  | (k', d') :: t =>
      if k <=? k' then (k, d) :: l else (k', d') :: sortIntInt_insert k d t
  end.

Definition SCIPsortIntInt (l : list (Z * Z)) : list (Z * Z) :=
  foldr (fun kd acc => sortIntInt_insert (fst kd) (snd kd) acc) [] l.

(** ** The MST extension component *)

Record MSTXCOMP := {
  mst_parent : CSR;             (* parent MST (for which to use vertical SDs) *)
  mst_new : CSR;                (* new MST (out) *)
  comp_nodes : list Z;          (* nodes of component *)
  comp_vert : Z;                (* current vertex *)
  comp_extnode : Z;             (* component node from which we extended; or -1 *)
  comp_level : Z;               (* level of component *)
  comp_size : Z;                (* size of component *)
  isExtended : bool             (* mst_new already extended? *)
}.

(** maximum visits for PC specific SD computation *)
Definition EXT_PC_SDMAXVISITS : Z := 20.

(** ** What the file takes from headers that are not part of it *)

(** The tolerance comparisons and the sentinel of portab.h, the distance-data
    oracles, the stack inspectors of extreduce.h and the dynamic MST kernel
    (the reduce_dcmst functions) are used by the file but defined elsewhere; the embedding
    is parametric in them. *)
Class Externals := {
  (* portab.h *)
  FARAWAY : Q;
  LT : Q -> Q -> bool;
  LE : Q -> Q -> bool;
  EQ : Q -> Q -> bool;
  (* distance data *)
  extreduce_distDataGetSdDouble : GRAPH -> Z -> Z -> Q;
  extreduce_distDataGetSdDoubleForbiddenEq :
    GRAPH -> Q -> Z -> Z -> Z -> EXTDATA -> Q;
  extreduce_distDataGetSdDoubleForbidden : GRAPH -> Z -> Z -> EXTDATA -> Q;
  (* extension stack and initial component *)
  EXT_STATE_MARKED : Z;
  extStackGetPosition : EXTDATA -> Z;
  extStackGetOutEdgesStart : EXTDATA -> Z -> Z;
  extStackGetOutEdgesEnd : EXTDATA -> Z -> Z;
  extStackGetTopOutEdgesStart : EXTDATA -> Z -> Z;
  extStackGetTopOutEdgesEnd : EXTDATA -> Z -> Z;
  extLeafFindPos : EXTDATA -> Z -> Z;
  extIsAtInitialComp : EXTDATA -> bool;
  extIsAtInitialStar : EXTDATA -> bool;
  extIsAtInitialGenStar : EXTDATA -> bool;
  extInitialCompIsStar : EXTDATA -> bool;
  extInitialCompIsEdge : EXTDATA -> bool;
  extreduce_spg3LeafTreeRuleOut : GRAPH -> Q -> EXTDATA -> bool;
  (* dynamic MST kernel *)
  reduce_dcmstGet1NodeMst : CSR -> CSR;
  reduce_dcmstAddNode : CSR -> list Q -> CSR -> CSR;
  reduce_dcmstAddNodeInplace : list Q -> CSR -> CSR;
  reduce_dcmstGetWeight : CSR -> Q;
  reduce_dcmstGetExtWeight : CSR -> list Q -> Q
}.

(** The tolerance comparisons form one order: "at most" is "less or equal",
    and "less" excludes "equal". *)
Class ToleranceOrder `{Externals} : Prop := {
  LE_LT_EQ : forall a b, LE a b = LT a b || EQ a b;
  LT_not_EQ : forall a b, LT a b = true -> EQ a b = false;
  LT_irrefl : forall a, LT a a = false
}.

(** Modelled from the spec: [UNKNOWN] of graph.h. *)
Definition UNKNOWN : Z := -1.

(** Modelled from the spec: the maximum degree [STP_EXT_MAXGRAD] of an
    extension (extreduce.h). *)
Definition STP_EXT_MAXGRAD : Z := 9.

Section Engine.
Context `{Externals}.

(** ** Special distances *)

(** is given SD non-trivial? *)
Definition sdIsNonTrivial (specialDist : Q) : bool :=
  Qle_bool (-(1#2)) specialDist.

(** returns special distance computed only for PC and for current leaf *)
Definition extGetSdPcUpdate (pcSdToNode_ : list Q) (vertex2 : Z) (sd : Q) : Q :=
  let sdpc := zget (-1)%Q pcSdToNode_ vertex2 in
  if Qltb (-(1#2)) sdpc && (Qltb sdpc sd || Qltb sd (-(1#2)))
  then sdpc else sd.

(** Returns special distance.  Checks normal distance from vertex2 to
    vertex1 if no opposite distance is known. *)
Definition extGetSdDouble (g : GRAPH) (vertex1 vertex2 : Z) (ed : EXTDATA) : Q :=
  let sd := extreduce_distDataGetSdDouble g vertex1 vertex2 in
  match pcSdToNode (pcdata ed) with
  | Some p => extGetSdPcUpdate p vertex2 sd
  | None => sd
  end.

(** Returns special distance ([EXT_DOUBLESD_ALWAYS] is defined). *)
Definition extGetSd (g : GRAPH) (vertex1 vertex2 : Z) (ed : EXTDATA) : Q :=
  extGetSdDouble g vertex1 vertex2 ed.

(** ** Equality-forbidden edges *)

(** markes single bottleneck edge used for equality rule-out *)
Definition bottleneckMarkEqualityEdge (g : GRAPH) (edge : Z) (ed : EXTDATA)
    : EXTDATA :=
  let edges_isEqForbidden := sdeq_edgesIsForbidden ed in
  if negb (zget false edges_isEqForbidden (edge ÷ 2)) then
    set_sdeq (zset edges_isEqForbidden (edge ÷ 2) true) true
             (sdeq_resetStack ed ++ [edge ÷ 2]) ed
  else ed.

(** The inner [for] loop of [bottleneckMarkEqualityPath]: the first edge of
    the adjacency chain from [e] whose head is [currentNode];
    [Some None] when the chain ends without one. *)
Fixpoint bottleneckMarkEqualityPath_find (fuel : nat) (g : GRAPH)
    (currentNode e : Z) : option (option Z) :=
  if e =? EAT_LAST then Some None
  else match fuel with
       | O => None
       | S fuel' =>
           if zget (-1) (head g) e =? currentNode then Some (Some e)
           else bottleneckMarkEqualityPath_find fuel' g currentNode
                  (zget EAT_LAST (oeat g) e)
       end.

(** The outer [for] loop of [bottleneckMarkEqualityPath]. *)
Fixpoint bottleneckMarkEqualityPath_loop (fuel : nat) (g : GRAPH)
    (currentNode path_end : Z) (ed : EXTDATA) : option EXTDATA :=
  if currentNode =? path_end then Some ed
  else match fuel with
       | O => None
       | S fuel' =>
           let parent := zget (-1) (tree_parentNode ed) currentNode in
           found ← bottleneckMarkEqualityPath_find (length (oeat g)) g
                      currentNode (zget EAT_LAST (outbeg g) parent);
           let ed' :=
             match found with
             | Some e =>
                 let edges_isEqForbidden := sdeq_edgesIsForbidden ed in
                 if negb (zget false edges_isEqForbidden (e ÷ 2)) then
                   set_sdeq (zset edges_isEqForbidden (e ÷ 2) true) true
                            (sdeq_resetStack ed ++ [e ÷ 2]) ed
                 else ed
             | None => ed
             end in
           bottleneckMarkEqualityPath_loop fuel' g parent path_end ed'
       end.

(** helper *)
Definition bottleneckMarkEqualityPath (g : GRAPH) (path_start path_end : Z)
    (ed : EXTDATA) : option EXTDATA :=
  bottleneckMarkEqualityPath_loop (length (tree_parentNode ed)) g
    path_start path_end ed.

(** Step 1 of [bottleneckMarkEqualityEdges]: down from [vertex_unmarked] to
    the lowest common ancestor.  [inl ed'] when the equality path was found
    and marked, [inr ancestor] otherwise. *)
Fixpoint bottleneckMarkEqualityEdges_up (fuel : nat) (g : GRAPH) (isPc : bool)
    (dist_eq : Q) (currentNode bottleneck_start : Z) (bottleneck_local : Q)
    (ed : EXTDATA) : option (EXTDATA + Z) :=
  if Qltb (zget 0%Q (tree_bottleneckDistNode ed) currentNode) (-(1#2)) then
    match fuel with
    | O => None
    | S fuel' =>
        let bottleneck_start' :=
          if zget 0 (tree_deg ed) currentNode =? 2 then bottleneck_start
          else currentNode in
        let bottleneck_local' :=
          bottleneckLocalStep g ed isPc bottleneck_local currentNode in
        if EQ bottleneck_local' dist_eq then
          ed' ← bottleneckMarkEqualityPath g bottleneck_start'
                   (zget (-1) (tree_parentNode ed) currentNode) ed;
          Some (inl ed')
        else
          bottleneckMarkEqualityEdges_up fuel' g isPc dist_eq
            (zget (-1) (tree_parentNode ed) currentNode)
            bottleneck_start' bottleneck_local' ed
    end
  else Some (inr currentNode).

(** Step 2 of [bottleneckMarkEqualityEdges]: down from [vertex_pathmarked]
    to the ancestor.  Reaching the ancestor without an equality ("should
    never arrive here") leaves the state as it is. *)
Fixpoint bottleneckMarkEqualityEdges_down (fuel : nat) (g : GRAPH) (isPc : bool)
    (dist_eq : Q) (vertex_pathmarked ancestor currentNode bottleneck_start : Z)
    (bottleneck_local : Q) (ed : EXTDATA) : option EXTDATA :=
  if currentNode =? ancestor then Some ed
  else match fuel with
       | O => None
       | S fuel' =>
           let bottleneck_start' :=
             if zget 0 (tree_deg ed) currentNode =? 2 then bottleneck_start
             else currentNode in
           let bottleneck_local' :=
             bottleneckLocalStep g ed isPc bottleneck_local currentNode in
           if EQ bottleneck_local' dist_eq then
             let bottleneck_start'' :=
               if bottleneck_start' =? UNKNOWN then vertex_pathmarked
               else bottleneck_start' in
             bottleneckMarkEqualityPath g bottleneck_start''
               (zget (-1) (tree_parentNode ed) currentNode) ed
           else
             bottleneckMarkEqualityEdges_down fuel' g isPc dist_eq
               vertex_pathmarked ancestor
               (zget (-1) (tree_parentNode ed) currentNode)
               bottleneck_start' bottleneck_local' ed
       end.

(** markes bottleneck edges used for equality rule-out *)
Definition bottleneckMarkEqualityEdges (g : GRAPH) (dist_eq : Q)
    (vertex_pathmarked vertex_unmarked : Z) (ed : EXTDATA) : option EXTDATA :=
  let isPc := graph_pc_isPc g in
  let fuel := length (tree_parentNode ed) in
  r ← (if vertex_unmarked =? tree_root ed then Some (inr vertex_unmarked)
       else bottleneckMarkEqualityEdges_up fuel g isPc dist_eq
              vertex_unmarked UNKNOWN 0%Q ed);
  match r with
  | inl ed' => Some ed'
  | inr ancestor =>
      bottleneckMarkEqualityEdges_down fuel g isPc dist_eq vertex_pathmarked
        ancestor vertex_pathmarked UNKNOWN 0%Q ed
  end.

(** ** Dominance tests *)

(** helper to check the case of quality *)
Definition bottleneckIsEqualityDominated (g : GRAPH) (dist_eq : Q)
    (edge_forbidden vertex1 vertex2 : Z) (ed : EXTDATA) : bool :=
  let sd_eq := extreduce_distDataGetSdDoubleForbiddenEq g dist_eq
                 edge_forbidden vertex1 vertex2 ed in
  if Qltb sd_eq (-(1#2)) then false
  else if LE sd_eq dist_eq then true
  else false.

(** Does a special distance approximation dominate the tree bottleneck
    distance between vertex_pathmarked and vertex_unmarked in the current
    tree.  NOTE: makes additional checks in case of equality *)
Definition bottleneckIsDominated (g : GRAPH)
    (vertex_pathmarked vertex_unmarked : Z) (specialDist : Q)
    (edge_forbidden : Z) (ed : EXTDATA) : option (EXTDATA * bool) :=
  let hasSpecialDist := sdIsNonTrivial specialDist in
  if negb hasSpecialDist || (vertex_pathmarked =? vertex_unmarked) then
    Some (ed, false)
  else
    bottleneckDist ← bottleneckGetDist g ed vertex_unmarked;
    if LT specialDist bottleneckDist then Some (ed, true)
    else if LE specialDist bottleneckDist then
      if bottleneckIsEqualityDominated g specialDist edge_forbidden
           vertex_pathmarked vertex_unmarked ed
      then
        ed' ← bottleneckMarkEqualityEdges g specialDist vertex_pathmarked
                 vertex_unmarked ed;
        Some (ed', true)
      else Some (ed, false)
    else Some (ed, false).

(** Does a special distance approximation dominate the tree bottleneck
    distance of extension edge (i.e. its edge cost) or bottleneck distance
    between vertex_pathmarked and vertex_unmarked in the current tree.
    NOTE: makes additional checks in case of equality *)
Definition bottleneckWithExtedgeIsDominated (g : GRAPH) (extedge : Z)
    (vertex_pathmarked vertex_unmarked : Z) (specialDist : Q) (ed : EXTDATA)
    : option (EXTDATA * bool) :=
  let hasSpecialDist := sdIsNonTrivial specialDist in
  let vertex1 := zget (-1) (head g) extedge in
  (* the test against the bottleneck distance, after the extension edge *)
  let bottleneckTest :=
    if vertex_pathmarked =? vertex_unmarked then Some (ed, false)
    else
      bottleneckDist ← bottleneckGetDist g ed vertex_unmarked;
      if LT specialDist bottleneckDist then Some (ed, true)
      else if LE specialDist bottleneckDist then
        if bottleneckIsEqualityDominated g specialDist extedge vertex1
             vertex_unmarked ed
        then
          ed' ← bottleneckMarkEqualityEdges g specialDist vertex_pathmarked
                   vertex_unmarked ed;
          Some (ed', true)
        else Some (ed, false)
      else Some (ed, false) in
  if negb hasSpecialDist then Some (ed, false)
  else if LT specialDist (zget 0%Q (cost g) extedge) then Some (ed, true)
  else if LE specialDist (zget 0%Q (cost g) extedge) then
    if bottleneckIsEqualityDominated g specialDist extedge vertex1
         vertex_unmarked ed
    then Some (bottleneckMarkEqualityEdge g extedge ed, true)
    else bottleneckTest
  else bottleneckTest.

(** Does a special distance approximation dominate the tree bottleneck
    distance between vertex_pathmarked and vertex_unmarked in the current
    tree?  NOTE: makes additional checks in case of equality *)
Definition bottleneckToSiblingIsDominated (g : GRAPH)
    (extedge edge2sibling : Z) (specialDist : Q) (ed : EXTDATA)
    : EXTDATA * bool :=
  let hasSpecialDist := LT specialDist FARAWAY in
  if negb hasSpecialDist then (ed, false)
  else
    let edgecost := cost g in
    let vertex1 := zget (-1) (head g) edge2sibling in
    let vertex2 := zget (-1) (head g) extedge in
    if LT specialDist (zget 0%Q edgecost edge2sibling) then (ed, true)
    else if LT specialDist (zget 0%Q edgecost extedge) then (ed, true)
    else if LE specialDist (zget 0%Q edgecost edge2sibling)
            && bottleneckIsEqualityDominated g specialDist edge2sibling
                 vertex1 vertex2 ed
    then (bottleneckMarkEqualityEdge g edge2sibling ed, true)
    else if LE specialDist (zget 0%Q edgecost extedge)
            && bottleneckIsEqualityDominated g specialDist extedge
                 vertex1 vertex2 ed
    then (bottleneckMarkEqualityEdge g extedge ed, true)
    else (ed, false).

(** ** Extension stack helpers *)

Fixpoint extStackGetLastMarked_loop (fuel : nat) (ed : EXTDATA) (stackpos : Z)
    : option Z :=
  if stackpos <? 0 then None
  else if zget 0 (extstack_state ed) stackpos =? EXT_STATE_MARKED
  then Some stackpos
  else match fuel with
       | O => None
       | S fuel' => extStackGetLastMarked_loop fuel' ed (stackpos - 1)
       end.

(** returns position of last marked component *)
Definition extStackGetLastMarked (ed : EXTDATA) : option Z :=
  extStackGetLastMarked_loop (Z.to_nat (extStackGetPosition ed))
    ed (extStackGetPosition ed).

(** returns size of top component on the stack *)
Definition extStackGetTopSize (ed : EXTDATA) : Z :=
  let stackpos := extStackGetPosition ed in
  zget 0 (extstack_start ed) (stackpos + 1) - zget 0 (extstack_start ed) stackpos.

(** returns number of ancestor leaves (i.e. number of leaves below current
    level) *)
Definition extGetNancestorLeaves (ed : EXTDATA) : Z :=
  if extIsAtInitialComp ed then 1
  else tree_nleaves ed - extStackGetTopSize ed.

(** ** Building MSTs *)

Definition set_mst_new (c : CSR) (ext : bool) (x : MSTXCOMP) : MSTXCOMP :=
  {| mst_parent := mst_parent x; mst_new := c; comp_nodes := comp_nodes x;
     comp_vert := comp_vert x; comp_extnode := comp_extnode x;
     comp_level := comp_level x; comp_size := comp_size x;
     isExtended := ext |}.

Definition set_comp_vert (v : Z) (x : MSTXCOMP) : MSTXCOMP :=
  {| mst_parent := mst_parent x; mst_new := mst_new x;
     comp_nodes := comp_nodes x; comp_vert := v;
     comp_extnode := comp_extnode x; comp_level := comp_level x;
     comp_size := comp_size x; isExtended := isExtended x |}.

Definition set_comp_nodes (n : list Z) (size : Z) (x : MSTXCOMP) : MSTXCOMP :=
  {| mst_parent := mst_parent x; mst_new := mst_new x;
     comp_nodes := n; comp_vert := comp_vert x;
     comp_extnode := comp_extnode x; comp_level := comp_level x;
     comp_size := size; isExtended := isExtended x |}.

(** Repeatedly extends MST 'new', starting from MST 'parent' (in
    'mstextcomp').  In first call 'new' is extended from 'parent',
    afterwards from itself *)
Definition mstExtend (adjcosts : list Q) (x : MSTXCOMP) : MSTXCOMP :=
  if negb (isExtended x) then
    let mst_new1 :=
      {| nnodes := nnodes (mst_parent x) + 1;
         nedges_max := nedges_max (mst_parent x) + 2;
         csr_start := csr_start (mst_new x); csr_head := csr_head (mst_new x);
         csr_cost := csr_cost (mst_new x) |} in
    set_mst_new (reduce_dcmstAddNode (mst_parent x) adjcosts mst_new1) true x
  else
    set_mst_new (reduce_dcmstAddNodeInplace adjcosts (mst_new x)) true x.

(** The loop of [baseMstGetAdjcosts] over the component nodes: the costs to
    the left siblings of [comp_vert], closed by FARAWAY for the vertex
    itself. *)
Fixpoint baseMstGetAdjcosts_loop (sdsh : MLDISTS) (x : MSTXCOMP)
    (nodes : list Z) (adjcosts : list Q) : option (list Q) :=
  match nodes with
  | [] => Some adjcosts
  | sibling :: nodes' =>
      if sibling =? comp_vert x then Some (adjcosts ++ [FARAWAY])
      else if sibling =? comp_extnode x then
        baseMstGetAdjcosts_loop sdsh x nodes' adjcosts
      else
        d ← extreduce_mldistsTargetDist sdsh (comp_level x) (comp_vert x) sibling;
        baseMstGetAdjcosts_loop sdsh x nodes' (adjcosts ++ [d])
  end.

(** fills MST adjacency costs for new vertex in.  The result is the part of
    the adjacency buffer that the call defines. *)
Definition baseMstGetAdjcosts (r : REDDATA) (x : MSTXCOMP) : option (list Q) :=
  let nnodes_parent := nnodes (mst_parent x) in
  adjcosts_ancestors ←
    extreduce_mldistsTargetDists (sds_vertical r) (comp_level x) (comp_vert x);
  baseMstGetAdjcosts_loop (sds_horizontal r) x
    (take (Z.to_nat (comp_size x)) (comp_nodes x))
    (take (Z.to_nat nnodes_parent) adjcosts_ancestors).

(** Gets nodes of parent component ordered according to their position in
    the tree leaves array. *)
Definition baseMstGetOrderedParentNodes (g : GRAPH) (ed : EXTDATA)
    : option (Z * list Z) :=
  stackpos_parent ← extStackGetLastMarked ed;
  let parentedges_start := extStackGetOutEdgesStart ed stackpos_parent in
  let parentedges_end := extStackGetOutEdgesEnd ed stackpos_parent in
  let nodes :=
    map (fun i => zget (-1) (head g) (zget (-1) (extstack_data ed) i))
        (seqZ parentedges_start (parentedges_end - parentedges_start)) in
  let leavespos := map (extLeafFindPos ed) nodes in
  let sorted := SCIPsortIntInt (zip leavespos nodes) in
  Some (Z.of_nat (length nodes), map snd sorted).

(** The loop of [baseMstBuildNew] over the ordered parent nodes. *)
Fixpoint baseMstBuildNew_loop (r : REDDATA) (extnode : Z) (nodes : list Z)
    (x : MSTXCOMP) : option MSTXCOMP :=
  match nodes with
  | [] => Some x
  | parentcomp_vert :: nodes' =>
      if negb (parentcomp_vert =? extnode) then
        let x1 := set_comp_vert parentcomp_vert x in
        adjcosts ← baseMstGetAdjcosts r x1;
        baseMstBuildNew_loop r extnode nodes' (mstExtend adjcosts x1)
      else baseMstBuildNew_loop r extnode nodes' x
  end.

(** extends parent base MST to obtain current one *)
Definition baseMstBuildNew (g : GRAPH) (r : REDDATA) (ed : EXTDATA)
    (x : MSTXCOMP) : option MSTXCOMP :=
  let extnode := comp_extnode x in
  '(parentcomp_size, parentcomp_nodes) ← baseMstGetOrderedParentNodes g ed;
  let x1 := set_comp_nodes parentcomp_nodes parentcomp_size x in
  x2 ← baseMstBuildNew_loop r extnode
          (take (Z.to_nat parentcomp_size) parentcomp_nodes) x1;
  if negb (isExtended x2)
  then Some (set_mst_new (graph_csr_copy (mst_parent x2) (mst_new x2)) false x2)
  else Some x2.

(** builds base MST: [baseMstInitMsts], [baseMstInitExtComp],
    [baseMstBuildNew] and [baseMstFinalizeNew] *)
Definition mstLevelBuildBaseMst (g : GRAPH) (extnode : Z) (ed : EXTDATA)
    : option EXTDATA :=
  let r := reddata ed in
  (* baseMstInitMsts *)
  let nnodes_new := tree_nleaves ed - 1 in
  mst_parent_ ← graph_csrdepo_getTopCSR (msts_levelbase r);
  let depo1 := graph_csrdepo_addEmptyTopTree (msts_levelbase r) nnodes_new in
  mst_new_ ← graph_csrdepo_getEmptyTop depo1;
  (* baseMstInitExtComp *)
  let x := {| mst_parent := mst_parent_; mst_new := mst_new_;
              comp_nodes := []; comp_vert := -1; comp_extnode := extnode;
              comp_level := extreduce_mldistsTopLevel (sds_vertical r) - 1;
              comp_size := -1; isExtended := false |} in
  x' ← baseMstBuildNew g r ed x;
  (* baseMstFinalizeNew *)
  let depo2 := graph_csrdepo_emptyTopSetMarked (csrdepo_writeTop depo1 (mst_new x')) in
  Some (set_reddata (set_msts_levelbase depo2 r) ed).

(** helper; adds single node MST *)
Definition add1NodeMst (msts : CSRDEPO) : option CSRDEPO :=
  let d1 := graph_csrdepo_addEmptyTop msts 1 0 in
  mst1 ← graph_csrdepo_getEmptyTop d1;
  Some (graph_csrdepo_emptyTopSetMarked
          (csrdepo_writeTop d1 (reduce_dcmstGet1NodeMst mst1))).

(** Builds base MST if the previous level is the root.  I.e., just a 1-node
    MST. *)
Definition mstLevelBuildBaseMstRoot (r : REDDATA) : option REDDATA :=
  d ← add1NodeMst (msts_levelbase r);
  Some (set_msts_levelbase d r).

(** Closes top MST level for further additions.  Will initialize the
    'mst_levelbase' MST. *)
Definition extreduce_mstLevelClose (g : GRAPH) (extnode : Z) (ed : EXTDATA)
    : option EXTDATA :=
  if extIsAtInitialComp ed then
    r ← mstLevelBuildBaseMstRoot (reddata ed);
    Some (set_reddata r ed)
  else mstLevelBuildBaseMst g extnode ed.

(** helper; adds MSTs *)
Definition mstAddRootLevelMsts (ed : EXTDATA) : option EXTDATA :=
  let r := reddata ed in
  c ← add1NodeMst (msts_comp r);
  l ← add1NodeMst (msts_levelbase r);
  Some (set_reddata (set_msts_levelbase l (set_msts_comp c r)) ed).

Definition mstAddRootLevelSDs_one (root : Z) (m : MLDISTS) : option MLDISTS :=
  m1 ← extreduce_mldistsEmptySlotSetBase root (extreduce_mldistsLevelAddTop 1 0 m);
  m2 ← extreduce_mldistsEmptySlotSetFilled m1;
  Some (extreduce_mldistsLevelCloseTop m2).

(** helper; adds SDs *)
Definition mstAddRootLevelSDs (root : Z) (ed : EXTDATA) : option EXTDATA :=
  let r := reddata ed in
  v ← mstAddRootLevelSDs_one root (sds_vertical r);
  h ← mstAddRootLevelSDs_one root (sds_horizontal r);
  Some (set_reddata (set_sds_horizontal h (set_sds_vertical v r)) ed).

(** adds the initial level corresponding to the root of the extension tree *)
Definition extreduce_mstAddRootLevel (root : Z) (ed : EXTDATA) : option EXTDATA :=
  ed1 ← mstAddRootLevelMsts ed;
  mstAddRootLevelSDs root ed1.

(** Removes current component (subset of the top level) from MST storages *)
Definition extreduce_mstCompRemove (g : GRAPH) (ed : EXTDATA) : option EXTDATA :=
  let r := reddata ed in
  let msts_comp_level := graph_csrdepo_getNcsrs (msts_comp r) - 1 in
  if tree_depth ed <? msts_comp_level then
    d ← graph_csrdepo_removeTop (msts_comp r);
    Some (set_reddata (set_msts_comp d r) ed)
  else Some ed.

(** Adds a full new level at the top.  NOTE: for now only the horizontal
    distances are initialized *)
Definition extreduce_mstLevelInit (r : REDDATA) (ed : EXTDATA) : REDDATA :=
  if extIsAtInitialComp ed then
    set_sds_vertical
      (extreduce_mldistsLevelAddTop STP_EXT_MAXGRAD (tree_nleaves ed)
         (sds_vertical r)) r
  else
    set_sds_vertical
      (extreduce_mldistsLevelAddTop STP_EXT_MAXGRAD (tree_nleaves ed - 1)
         (sds_vertical r)) r.

(** closes vertical part of top MST level for further additions *)
Definition extreduce_mstLevelVerticalClose (r : REDDATA) : REDDATA :=
  set_sds_vertical (extreduce_mldistsLevelCloseTop (sds_vertical r)) r.

(** Removes top vertical MST level. *)
Definition extreduce_mstLevelVerticalRemove (r : REDDATA) : option REDDATA :=
  v ← extreduce_mldistsLevelRemoveTop (sds_vertical r);
  Some (set_sds_vertical v r).

(** Removes top MST level (both vertical and horizontal).
    NOTE: SDs from level vertices to all leafs will be discarded! *)
Definition extreduce_mstLevelRemove (r : REDDATA) : option REDDATA :=
  let horizontal_nlevels := extreduce_mldistsNlevels (sds_horizontal r) in
  let vertical_nlevels := extreduce_mldistsNlevels (sds_vertical r) in
  r1 ← (if horizontal_nlevels =? vertical_nlevels then
          h ← extreduce_mldistsLevelRemoveTop (sds_horizontal r);
          l ← graph_csrdepo_removeTop (msts_levelbase r);
          Some (set_msts_levelbase l (set_sds_horizontal h r))
        else Some r);
  v ← extreduce_mldistsLevelRemoveTop (sds_vertical r1);
  Some (set_sds_vertical v r1).

(** ** The prize-collecting mark cache *)

Definition set_pcSd (p : list Q) (c : list Z) (n : Z) (ed : EXTDATA) : EXTDATA :=
  set_pcdata {| pcSdToNode := Some p; pcSdCands := c; nPcSdCands := n;
                tree_innerPrize := tree_innerPrize (pcdata ed) |} ed.

(** marks single PcSd array entry *)
Definition pcSdMarkSingle (entry : Z) (value : Q)
    (pc : list Q * list Z * Z) : list Q * list Z * Z :=
  let '(pcSdToNode_, pcSdCands_, nPcSdCands_) := pc in
  if Qltb (zget (-1)%Q pcSdToNode_ entry) (-(1#2)) then
    (zset pcSdToNode_ entry value, zset pcSdCands_ nPcSdCands_ entry,
     nPcSdCands_ + 1)
  else if Qltb value (zget (-1)%Q pcSdToNode_ entry) then
    (zset pcSdToNode_ entry value, pcSdCands_, nPcSdCands_)
  else pc.

(** The inner loop of [pcSdToNodeMark], over the neighbours of a non-tree
    neighbour [head_]. *)
Fixpoint pcSdToNodeMark_inner (g : GRAPH) (ed : EXTDATA) (startvertex head_ : Z)
    (edgecost : Q) (is2 : list Z) (count2 : Z) (pc : list Q * list Z * Z)
    : (list Q * list Z * Z) * Z :=
  match is2 with
  | [] => (pc, count2)
  | i2 :: is2' =>
      let head2 := zget (-1) (dcsr_head (dcsr_storage g)) i2 in
      let pc' :=
        if (0 <? zget 0 (tree_deg ed) head2) && negb (head2 =? startvertex) then
          let edgecost2 := zget 0%Q (dcsr_cost (dcsr_storage g)) i2 in
          let maxedgecost := QMAX edgecost edgecost2 in
          let dist2 :=
            QMAX maxedgecost (edgecost + edgecost2 - graph_prize g head_)%Q in
          pcSdMarkSingle head2 dist2 pc
        else pc in
      if EXT_PC_SDMAXVISITS <? count2 then (pc', count2 + 1)
      else pcSdToNodeMark_inner g ed startvertex head_ edgecost is2'
             (count2 + 1) pc'
  end.

(** The outer loop of [pcSdToNodeMark], over the neighbours of the start
    vertex. *)
Fixpoint pcSdToNodeMark_outer (g : GRAPH) (ed : EXTDATA) (startvertex : Z)
    (is1 : list Z) (count1 count2 : Z) (pc : list Q * list Z * Z)
    : list Q * list Z * Z :=
  match is1 with
  | [] => pc
  | i :: is1' =>
      let edgecost := zget 0%Q (dcsr_cost (dcsr_storage g)) i in
      let head_ := zget (-1) (dcsr_head (dcsr_storage g)) i in
      let '(pc', count2') :=
        if zget 0 (tree_deg ed) head_ =? 0 then
          let '(start2, end2) :=
            zget (0, 0) (dcsr_range (dcsr_storage g)) head_ in
          pcSdToNodeMark_inner g ed startvertex head_ edgecost
            (seqZ start2 (end2 - start2)) count2 pc
        else (pcSdMarkSingle head_ edgecost pc, count2) in
      if EXT_PC_SDMAXVISITS <? count1 then pc'
      else pcSdToNodeMark_outer g ed startvertex is1' (count1 + 1) count2' pc'
  end.

(** marks PcSd array *)
Definition pcSdToNodeMark (g : GRAPH) (startvertex : Z) (ed : EXTDATA)
    : EXTDATA :=
  match pcSdToNode (pcdata ed) with
  | None => ed
  | Some p =>
      let '(start_, end_) :=
        zget (0, 0) (dcsr_range (dcsr_storage g)) startvertex in
      let '(p', c', n') :=
        pcSdToNodeMark_outer g ed startvertex (seqZ start_ (end_ - start_))
          0 0 (p, pcSdCands (pcdata ed), 0) in
      set_pcSd p' c' n' ed
  end.

(** unmarks PcSd array *)
Definition pcSdToNodeUnmark (g : GRAPH) (startvertex : Z) (ed : EXTDATA)
    : EXTDATA :=
  match pcSdToNode (pcdata ed) with
  | None => ed
  | Some p =>
      let n := nPcSdCands (pcdata ed) in
      let p' :=
        foldl (fun q i => zset q (zget (-1) (pcSdCands (pcdata ed)) i) (-1)%Q)
              p (seqZ 0 n) in
      set_pcSd p' (pcSdCands (pcdata ed)) n ed
  end.

(** ** Stage 1: the component MST and its bottleneck tests *)

(** The loop of [mstCompLeafGetSDsToSiblings] over the edges of the top
    component; [sds] collects the entries written so far. *)
Fixpoint mstCompLeafGetSDsToSiblings_loop (g : GRAPH) (edge2top topleaf : Z)
    (idxs : list Z) (hitTopLeaf : bool) (sds : list Q) (ed : EXTDATA)
    : option (EXTDATA * list Q * bool) :=
  match idxs with
  | [] => Some (ed, sds, false)
  | i :: idxs' =>
      let edge2sibling := zget (-1) (extstack_data ed) i in
      let sibling := zget (-1) (head g) edge2sibling in
      if sibling =? topleaf then
        mstCompLeafGetSDsToSiblings_loop g edge2top topleaf idxs' true
          (sds ++ [FARAWAY]) ed
      else
        sd ← extreduce_mldistsTopTargetDist (sds_horizontal (reddata ed))
                topleaf sibling;
        let sds' := sds ++ [sd] in
        if negb (zget (-1) (tail g) edge2top =? zget (-1) (tail g) edge2sibling)
        then
          '(ed', dominated) ←
             bottleneckIsDominated g topleaf sibling sd edge2sibling ed;
          if dominated : bool then Some (ed', sds', true)
          else mstCompLeafGetSDsToSiblings_loop g edge2top topleaf idxs'
                 hitTopLeaf sds' ed'
        else if negb hitTopLeaf then
          mstCompLeafGetSDsToSiblings_loop g edge2top topleaf idxs'
            hitTopLeaf sds' ed
        else
          let '(ed', dominated) :=
            bottleneckToSiblingIsDominated g edge2top edge2sibling sd ed in
          if dominated : bool then Some (ed', sds', true)
          else mstCompLeafGetSDsToSiblings_loop g edge2top topleaf idxs'
                 hitTopLeaf sds' ed'
  end.

(** Gets SDs from leaf of top tree component to siblings for MST
    calculation.  Returns early (with leafRuledOut == TRUE) if extension via
    'edge2leaf' can be ruled out already.
    NOTE: Only restricted bottleneck tests are performed! *)
Definition mstCompLeafGetSDsToSiblings (g : GRAPH) (edge2top : Z) (ed : EXTDATA)
    : option (EXTDATA * list Q * bool) :=
  let stackpos := extStackGetPosition ed in
  let topedges_start := extStackGetTopOutEdgesStart ed stackpos in
  let topedges_end := extStackGetTopOutEdgesEnd ed stackpos in
  let topleaf := zget (-1) (head g) edge2top in
  let isAtInitialGenStar := extIsAtInitialGenStar ed in
  ed1 ← (if isAtInitialGenStar then bottleneckMarkRootPath g topleaf ed
         else Some ed);
  '(ed2, sds, leafRuledOut) ←
     mstCompLeafGetSDsToSiblings_loop g edge2top topleaf
       (seqZ topedges_start (topedges_end - topedges_start)) false [] ed1;
  ed3 ← (if isAtInitialGenStar then bottleneckUnmarkRootPath g topleaf ed2
         else Some ed2);
  Some (ed3, sds, leafRuledOut).

(** The loop of [mstCompLeafGetSDsToAncestors] over the ancestor leaves. *)
Fixpoint mstCompLeafGetSDsToAncestors_loop (g : GRAPH) (edge2leaf topleaf : Z)
    (adjedgecosts : list Q) (js : list Z) (ed : EXTDATA)
    : option (EXTDATA * bool) :=
  match js with
  | [] => Some (ed, false)
  | j :: js' =>
      let leaf := zget (-1) (tree_leaves ed) j in
      let sd := zget 0%Q adjedgecosts j in
      let specialDist := if EQ sd FARAWAY then (-1)%Q else sd in
      '(ed', dominated) ←
         bottleneckIsDominated g topleaf leaf specialDist edge2leaf ed;
      if dominated : bool then Some (ed', true)
      else mstCompLeafGetSDsToAncestors_loop g edge2leaf topleaf adjedgecosts
             js' ed'
  end.

(** Gets SDs from leaf of top tree component to ancestors for MST
    calculation.  Returns early (with leafRuledOut == TRUE) if extension via
    'edge2leaf' can be ruled out already.
    NOTE: Only restricted bottleneck tests are performed, UNLESS the leaf has
    no siblings! *)
Definition mstCompLeafGetSDsToAncestors (g : GRAPH) (edge2leaf : Z)
    (nleaves_ancestors : Z) (ed : EXTDATA) : option (EXTDATA * list Q * bool) :=
  let topleaf := zget (-1) (head g) edge2leaf in
  adjedgecosts ←
    extreduce_mldistsTopTargetDists (sds_vertical (reddata ed)) topleaf;
  let hasSiblings := 1 <? extStackGetTopSize ed in
  let sds := take (Z.to_nat nleaves_ancestors) adjedgecosts in
  if negb hasSiblings || extIsAtInitialGenStar ed then
    ed1 ← bottleneckMarkRootPath g topleaf ed;
    '(ed2, leafRuledOut) ←
       mstCompLeafGetSDsToAncestors_loop g edge2leaf topleaf adjedgecosts
         (seqZ 0 nleaves_ancestors) ed1;
    ed3 ← bottleneckUnmarkRootPath g topleaf ed2;
    Some (ed3, sds, leafRuledOut)
  else Some (ed, sds, false).

(** Gets SDs from leaf (head of 'edge2leaf') to all other leaves of the
    tree: first the ancestors, then the siblings. *)
Definition mstCompLeafGetSDs (g : GRAPH) (edge2leaf : Z) (ed : EXTDATA)
    : option (EXTDATA * list Q * bool) :=
  let nleaves_ancestors := extGetNancestorLeaves ed in
  '(ed1, sds_siblings, leafRuledOut) ← mstCompLeafGetSDsToSiblings g edge2leaf ed;
  if leafRuledOut : bool then Some (ed1, sds_siblings, true)
  else
    '(ed2, sds_ancestors, leafRuledOut2) ←
       mstCompLeafGetSDsToAncestors g edge2leaf nleaves_ancestors ed1;
    Some (ed2, sds_ancestors ++ sds_siblings, leafRuledOut2).

(** Adds leaf from top component of current tree to MST. *)
Definition mstCompAddLeaf (g : GRAPH) (edge2leaf : Z) (x : MSTXCOMP)
    (ed : EXTDATA) : option (EXTDATA * MSTXCOMP * bool) :=
  '(ed1, adjcosts, leafRuledOut) ← mstCompLeafGetSDs g edge2leaf ed;
  if leafRuledOut : bool then Some (ed1, x, true)
  else Some (ed1, mstExtend adjcosts x, false).

(** The loop of [mstCompBuildMst] over the edges of the top component. *)
Fixpoint mstCompBuildMst_loop (g : GRAPH) (idxs : list Z) (x : MSTXCOMP)
    (ed : EXTDATA) : option (EXTDATA * MSTXCOMP * bool) :=
  match idxs with
  | [] => Some (ed, x, false)
  | i :: idxs' =>
      let edge2leaf := zget (-1) (extstack_data ed) i in
      '(ed1, x1, ruledOut) ← mstCompAddLeaf g edge2leaf x ed;
      if ruledOut : bool then Some (ed1, x1, true)
      else mstCompBuildMst_loop g idxs' x1 ed1
  end.

(** builds (top) component MST: [compMstInitMsts], [compMstInitExtComp],
    the loop and [compMstFinalizeNew] *)
Definition mstCompBuildMst (g : GRAPH) (ed : EXTDATA) : option (EXTDATA * bool) :=
  let stackpos := extStackGetPosition ed in
  let topedges_start := extStackGetTopOutEdgesStart ed stackpos in
  let topedges_end := extStackGetTopOutEdgesEnd ed stackpos in
  let r := reddata ed in
  (* compMstInitMsts *)
  mst_base ← graph_csrdepo_getTopCSR (msts_levelbase r);
  let depo1 := graph_csrdepo_addEmptyTopTree (msts_comp r) (tree_nleaves ed) in
  mst_new_ ← graph_csrdepo_getEmptyTop depo1;
  let ed0 := set_reddata (set_msts_comp depo1 r) ed in
  (* compMstInitExtComp *)
  let x := {| mst_parent := mst_base; mst_new := mst_new_; comp_nodes := [];
              comp_vert := -1; comp_extnode := -1;
              comp_level := tree_depth ed;
              comp_size := extStackGetTopSize ed; isExtended := false |} in
  '(ed1, x1, ruledOut) ←
     mstCompBuildMst_loop g (seqZ topedges_start (topedges_end - topedges_start))
       x ed0;
  (* compMstFinalizeNew *)
  let r1 := reddata ed1 in
  let depo2 := csrdepo_writeTop (msts_comp r1) (mst_new x1) in
  if ruledOut : bool then
    d ← graph_csrdepo_removeTop depo2;
    Some (set_reddata (set_msts_comp d r1) ed1, true)
  else
    Some (set_reddata (set_msts_comp (graph_csrdepo_emptyTopSetMarked depo2) r1)
            ed1, false).

(** ** Stage 2: the MST objective *)

(** can current 3-leaf tree be rule-out in case of equality? *)
Definition mstEqComp3RuleOut (g : GRAPH) (tree_cost_ : Q) (ed : EXTDATA) : bool :=
  let leaves := tree_leaves ed in
  if extInitialCompIsStar ed || negb (sdeq_hasForbiddenEdges ed) then true
  else
    let sds0 := extreduce_distDataGetSdDoubleForbidden g
                  (zget (-1) leaves 0) (zget (-1) leaves 1) ed in
    let sds1 := extreduce_distDataGetSdDoubleForbidden g
                  (zget (-1) leaves 0) (zget (-1) leaves 2) ed in
    if LE (sds0 + sds1)%Q tree_cost_ then true
    else
      let sds2 := extreduce_distDataGetSdDoubleForbidden g
                    (zget (-1) leaves 1) (zget (-1) leaves 2) ed in
      if LE (sds0 + sds2)%Q tree_cost_ || LE (sds1 + sds2)%Q tree_cost_
      then true
      else false.

(** The tree cost that the MST weight is compared with: the inner prizes are
    taken off in the prize-collecting variant. *)
Definition mstTreeCost (g : GRAPH) (ed : EXTDATA) : Q :=
  match prize g with
  | Some _ => (tree_cost ed - tree_innerPrize (pcdata ed))%Q
  | None => tree_cost ed
  end.

(** is a rule-out by using the top component possible? *)
Definition mstCompRuleOut (g : GRAPH) (ed : EXTDATA) : option bool :=
  let tree_cost_ := mstTreeCost g ed in
  topmst ← graph_csrdepo_getTopCSR (msts_comp (reddata ed));
  let mstweight := reduce_dcmstGetWeight topmst in
  let ruledOut0 :=
    if 2 <? nedges_max topmst then LE mstweight tree_cost_
    else LT mstweight tree_cost_ in
  let ruledOut1 :=
    if ruledOut0 then
      if (tree_nleaves ed =? 3) && EQ mstweight tree_cost_
         && negb (mstEqComp3RuleOut g tree_cost_ ed)
      then false else ruledOut0
    else ruledOut0 in
  let ruledOut2 :=
    if negb ruledOut1 then
      if (tree_nleaves ed =? 3) && extInitialCompIsEdge ed && false
      then extreduce_spg3LeafTreeRuleOut g tree_cost_ ed
      else ruledOut1
    else ruledOut1 in
  Some ruledOut2.

(** Can current tree be peripherally ruled out by using MST based
    arguments? *)
Definition extreduce_mstRuleOutPeriph (g : GRAPH) (ed : EXTDATA)
    : option (EXTDATA * bool) :=
  '(ed1, ruledOut) ← mstCompBuildMst g ed;
  if ruledOut : bool then Some (ed1, true)
  else
    r ← mstCompRuleOut g ed1;
    Some (ed1, r).

(** ** Adding a neighbour leaf to the top level *)

(** Writes position [j] of the distances of the vertical slot being
    filled. *)
Definition vertical_slot_write (j : Z) (x : Q) (ed : EXTDATA) : option EXTDATA :=
  let m := sds_vertical (reddata ed) in
  dists ← extreduce_mldistsEmptySlotTargetDists m;
  ids ← extreduce_mldistsEmptySlotTargetIds m;
  m' ← mldists_emptySlotStore ids (slot_write dists j x) m;
  Some (set_reddata (set_sds_vertical m' (reddata ed)) ed).

(** The loop of [mstLevelLeafSetVerticalSDs] over the tree leaves. *)
Fixpoint mstLevelLeafSetVerticalSDs_loop (g : GRAPH)
    (edge2neighbor neighbor neighbor_base : Z) (js : list Z) (ed : EXTDATA)
    : option (EXTDATA * bool) :=
  match js with
  | [] => Some (ed, false)
  | j :: js' =>
      let leaf := zget (-1) (tree_leaves ed) j in
      let specialDist := extGetSd g neighbor leaf ed in
      ed1 ← vertical_slot_write j
               (if Qle_bool (-(1#2)) specialDist then specialDist else FARAWAY)
               ed;
      '(ed2, dominated) ←
         bottleneckWithExtedgeIsDominated g edge2neighbor neighbor_base leaf
           specialDist ed1;
      if dominated : bool then Some (ed2, true)
      else mstLevelLeafSetVerticalSDs_loop g edge2neighbor neighbor
             neighbor_base js' ed2
  end.

(** computes SDs from head of extension edge to all leaves of the tree *)
Definition mstLevelLeafSetVerticalSDs (g : GRAPH) (edge2neighbor : Z)
    (ed : EXTDATA) : option (EXTDATA * bool) :=
  let neighbor := zget (-1) (head g) edge2neighbor in
  let neighbor_base := zget (-1) (tail g) edge2neighbor in
  mstLevelLeafSetVerticalSDs_loop g edge2neighbor neighbor neighbor_base
    (seqZ 0 (tree_nleaves ed)) ed.

(** adjusts vertical SDs by removing the neighbor base entry *)
Definition mstLevelLeafAdjustVerticalSDs (neighbor_base : Z) (ed : EXTDATA)
    : option EXTDATA :=
  let nleaves := tree_nleaves ed in
  if extIsAtInitialComp ed then Some ed
  else
    let m := sds_vertical (reddata ed) in
    dists ← extreduce_mldistsEmptySlotTargetDistsDirty m;
    ids ← extreduce_mldistsEmptySlotTargetIds m;
    let leaves_pos := extLeafFindPos ed neighbor_base in
    let dists' :=
      foldl (fun d i => slot_write d (i - 1) (zget STP_MLDISTS_DIST_UNSET d i))
            dists (seqZ (leaves_pos + 1) (nleaves - (leaves_pos + 1))) in
    m' ← mldists_emptySlotStore ids dists' m;
    Some (set_reddata (set_sds_vertical m' (reddata ed)) ed).

(** initialization for adding a leaf to a level *)
Definition mstLevelLeafInit (g : GRAPH) (neighbor_base neighbor : Z)
    (ed : EXTDATA) : option EXTDATA :=
  let isPc := match pcSdToNode (pcdata ed) with Some _ => true | None => false end in
  m ← extreduce_mldistsEmptySlotSetBase neighbor (sds_vertical (reddata ed));
  let ed1 := set_reddata (set_sds_vertical m (reddata ed)) ed in
  ed2 ← bottleneckMarkRootPath g neighbor_base ed1;
  if isPc then Some (pcSdToNodeMark g neighbor ed2) else Some ed2.

(** finalization for adding a neighbor leaf to a level *)
Definition mstLevelLeafExit (g : GRAPH) (neighbor_base neighbor : Z)
    (ruledOut : bool) (ed : EXTDATA) : option EXTDATA :=
  let isPc := graph_pc_isPc g in
  ed1 ← (if ruledOut then
           m ← extreduce_mldistsEmptySlotReset (sds_vertical (reddata ed));
           Some (set_reddata (set_sds_vertical m (reddata ed)) ed)
         else
           ed' ← mstLevelLeafAdjustVerticalSDs neighbor_base ed;
           m ← extreduce_mldistsEmptySlotSetFilled (sds_vertical (reddata ed'));
           Some (set_reddata (set_sds_vertical m (reddata ed')) ed'));
  ed2 ← bottleneckUnmarkRootPath g neighbor_base ed1;
  if isPc then Some (pcSdToNodeUnmark g neighbor ed2) else Some ed2.

(** checks whether the MST extended at the given neighbor allows to rule-out
    any extension along this neighbor *)
Definition mstLevelLeafTryExtMst (g : GRAPH) (extneighbor : Z) (ed : EXTDATA)
    : option bool :=
  let r := reddata ed in
  adjcosts ← extreduce_mldistsEmptySlotTargetDistsDirty (sds_vertical r);
  let tree_cost_ := mstTreeCost g ed in
  topmst ← graph_csrdepo_getTopCSR (msts_comp r);
  let extweight := reduce_dcmstGetExtWeight topmst adjcosts in
  if LT extweight tree_cost_ then Some true else Some false.

(** The loop of [bottleneckCheckNonLeaves_pc] over the marked candidates. *)
Fixpoint bottleneckCheckNonLeaves_pc_loop (g : GRAPH)
    (edge2neighbor neighbor neighbor_base : Z) (cs : list Z) (ed : EXTDATA)
    : option (EXTDATA * bool) :=
  match cs with
  | [] => Some (ed, false)
  | c :: cs' =>
      let cand := zget (-1) (pcSdCands (pcdata ed)) c in
      if zget 0 (tree_deg ed) cand <=? 1 then
        bottleneckCheckNonLeaves_pc_loop g edge2neighbor neighbor neighbor_base
          cs' ed
      else
        let specialDist := extGetSd g neighbor cand ed in
        '(ed', dominated) ←
           bottleneckWithExtedgeIsDominated g edge2neighbor neighbor_base cand
             specialDist ed;
        if dominated : bool then Some (ed', true)
        else bottleneckCheckNonLeaves_pc_loop g edge2neighbor neighbor
               neighbor_base cs' ed'
  end.

(** checks tree bottleneck distances to non-leaves of the tree that were
    marked before *)
Definition bottleneckCheckNonLeaves_pc (g : GRAPH) (edge2neighbor : Z)
    (ed : EXTDATA) : option (EXTDATA * bool) :=
  bottleneckCheckNonLeaves_pc_loop g edge2neighbor
    (zget (-1) (head g) edge2neighbor) (zget (-1) (tail g) edge2neighbor)
    (seqZ 0 (nPcSdCands (pcdata ed))) ed.

(** The loop of [bottleneckCheckNonLeaves] over the inner nodes. *)
Fixpoint bottleneckCheckNonLeaves_loop (g : GRAPH)
    (edge2neighbor neighbor neighbor_base : Z) (idxs : list Z) (ed : EXTDATA)
    : option (EXTDATA * bool) :=
  match idxs with
  | [] => Some (ed, false)
  | i :: idxs' =>
      let node := zget (-1) (tree_innerNodes ed) i in
      let specialDist := extGetSd g neighbor node ed in
      '(ed', dominated) ←
         bottleneckWithExtedgeIsDominated g edge2neighbor neighbor_base node
           specialDist ed;
      if dominated : bool then Some (ed', true)
      else bottleneckCheckNonLeaves_loop g edge2neighbor neighbor
             neighbor_base idxs' ed'
  end.

(** checks tree bottleneck distances to non-leaves of the tree *)
Definition bottleneckCheckNonLeaves (g : GRAPH) (edge2neighbor : Z)
    (ed : EXTDATA) : option (EXTDATA * bool) :=
  bottleneckCheckNonLeaves_loop g edge2neighbor
    (zget (-1) (head g) edge2neighbor) (zget (-1) (tail g) edge2neighbor)
    (seqZ 0 (tree_ninnerNodes ed)) ed.

(** Adds neighbor of tree for MST calculation.  Basically, SDs to all leafs
    are computed and stored in 'reddata->sds_vertical'.  Neighbor is given by
    head of edge 'edge2neighbor'.  Returns early (with leafRuledOut == TRUE,
    and without adding the neighbor) if extension via this edge can be ruled
    out already by using a bottleneck argument or MST. *)
Definition extreduce_mstLevelVerticalAddLeaf (g : GRAPH) (edge2neighbor : Z)
    (ed : EXTDATA) : option (EXTDATA * bool) :=
  let neighbor := zget (-1) (head g) edge2neighbor in
  let neighbor_base := zget (-1) (tail g) edge2neighbor in
  let isPc := graph_pc_isPc g in
  ed1 ← mstLevelLeafInit g neighbor_base neighbor ed;
  (* compute and store SDs to all leaves; also check for bottleneck rule-out *)
  '(ed2, ruled2) ← mstLevelLeafSetVerticalSDs g edge2neighbor ed1;
  (* if not yet ruled out, check whether extending the SD MST helps *)
  ruled3 ← (if ruled2 : bool then Some true
            else mstLevelLeafTryExtMst g neighbor ed2);
  (* if not yet ruled out and in PC mode, try the vertices marked before *)
  '(ed4, ruled4) ← (if isPc && negb ruled3
                    then bottleneckCheckNonLeaves_pc g edge2neighbor ed2
                    else Some (ed2, ruled3));
  (* if not yet ruled out, try bottleneck distances to non-leaves *)
  '(ed5, ruled5) ← (if negb ruled4
                    then bottleneckCheckNonLeaves g edge2neighbor ed4
                    else Some (ed4, ruled4));
  ed6 ← mstLevelLeafExit g neighbor_base neighbor ruled5 ed5;
  Some (ed6, ruled5).

(** similar to above, but only for initial component! *)
Definition extreduce_mstLevelVerticalAddLeafInitial (g : GRAPH)
    (edge2neighbor : Z) (ed : EXTDATA) : option (EXTDATA * bool) :=
  let neighbor_base := zget (-1) (tail g) edge2neighbor in
  let neighbor := zget (-1) (head g) edge2neighbor in
  ed1 ← mstLevelLeafInit g neighbor_base neighbor ed;
  '(ed2, ruled2) ← mstLevelLeafSetVerticalSDs g edge2neighbor ed1;
  ed3 ← mstLevelLeafExit g neighbor_base neighbor ruled2 ed2;
  Some (ed3, ruled2).

(** ** Horizontal SDs *)

Definition horizontal_slot_write (j : Z) (id : Z) (x : Q) (ed : EXTDATA)
    : option EXTDATA :=
  let m := sds_horizontal (reddata ed) in
  dists ← extreduce_mldistsEmptySlotTargetDists m;
  ids ← extreduce_mldistsEmptySlotTargetIds m;
  m' ← mldists_emptySlotStore (ids_write ids j id) (slot_write dists j x) m;
  Some (set_reddata (set_sds_horizontal m' (reddata ed)) ed).

(** for left siblings: use SDs that have already been computed *)
Fixpoint extreduce_mstLevelHorizontalAdd_left (g : GRAPH) (extedges : list Z)
    (ext_head : Z) (js : list Z) (ed : EXTDATA) : option EXTDATA :=
  match js with
  | [] => Some ed
  | j :: js' =>
      let sibling_left := zget (-1) (head g) (zget (-1) extedges j) in
      specialDist ←
        extreduce_mldistsTopTargetDist (sds_horizontal (reddata ed))
          sibling_left ext_head;
      ed1 ← horizontal_slot_write j sibling_left specialDist ed;
      extreduce_mstLevelHorizontalAdd_left g extedges ext_head js' ed1
  end.

(** for right siblings: compute new SDs *)
Fixpoint extreduce_mstLevelHorizontalAdd_right (g : GRAPH) (extedges : list Z)
    (ext_head : Z) (js : list Z) (ed : EXTDATA) : option EXTDATA :=
  match js with
  | [] => Some ed
  | j :: js' =>
      let sibling_right := zget (-1) (head g) (zget (-1) extedges j) in
      let specialDist := extGetSdDouble g ext_head sibling_right ed in
      ed1 ← horizontal_slot_write (j - 1) sibling_right
               (if Qle_bool (-(1#2)) specialDist then specialDist else FARAWAY)
               ed;
      extreduce_mstLevelHorizontalAdd_right g extedges ext_head js' ed1
  end.

(** The loop of [extreduce_mstLevelHorizontalAdd] over the extension
    edges. *)
Fixpoint extreduce_mstLevelHorizontalAdd_loop (g : GRAPH) (nextedges : Z)
    (extedges : list Z) (isPc : bool) (idxs : list Z) (ed : EXTDATA)
    : option EXTDATA :=
  match idxs with
  | [] => Some ed
  | i :: idxs' =>
      let ext_edge := zget (-1) extedges i in
      let ext_head := zget (-1) (head g) ext_edge in
      m ← extreduce_mldistsEmptySlotSetBase ext_head
             (sds_horizontal (reddata ed));
      let ed1 := set_reddata (set_sds_horizontal m (reddata ed)) ed in
      let ed2 := if isPc then pcSdToNodeMark g ext_head ed1 else ed1 in
      ed3 ← extreduce_mstLevelHorizontalAdd_left g extedges ext_head
               (seqZ 0 i) ed2;
      ed4 ← extreduce_mstLevelHorizontalAdd_right g extedges ext_head
               (seqZ (i + 1) (nextedges - (i + 1))) ed3;
      let ed5 := if isPc then pcSdToNodeUnmark g ext_head ed4 else ed4 in
      m' ← extreduce_mldistsEmptySlotSetFilled (sds_horizontal (reddata ed5));
      extreduce_mstLevelHorizontalAdd_loop g nextedges extedges isPc idxs'
        (set_reddata (set_sds_horizontal m' (reddata ed5)) ed5)
  end.

(** Compute and store horizontal SDs *)
Definition extreduce_mstLevelHorizontalAdd (g : GRAPH) (nextedges : Z)
    (extedges : list Z) (ed : EXTDATA) : option EXTDATA :=
  let isPc := match pcSdToNode (pcdata ed) with Some _ => true | None => false end in
  let m := extreduce_mldistsLevelAddTop nextedges (nextedges - 1)
             (sds_horizontal (reddata ed)) in
  extreduce_mstLevelHorizontalAdd_loop g nextedges extedges isPc
    (seqZ 0 nextedges) (set_reddata (set_sds_horizontal m (reddata ed)) ed).

End Engine.

(** * Specification-level notions *)

(** ** Well-formed trees *)

(** [root_path pn v anc]: following the parent pointers [pn] from [v] visits
    the proper ancestors [anc], lowest first, and ends in a vertex without
    parent. *)
Inductive root_path (pn : list Z) : Z -> list Z -> Prop :=
| root_path_root v :
    0 <= v < Z.of_nat (length pn) -> zget (-1) pn v = -1 ->
    root_path pn v []
| root_path_step v p l :
    zget (-1) pn v = p -> p <> -1 -> root_path pn p l ->
    root_path pn v (p :: l).

(** Every entry of the bottleneck array is unset, except possibly at the
    vertices of [S]. *)
Definition unmarked_outside (S : list Z) (bdn : list Q) : Prop :=
  forall i x, bdn !! i = Some x -> x = (-1)%Q \/ In (Z.of_nat i) S.

(** ** The bottleneck of the spec (4.D) *)

(** Stated after the spec's words: edge costs accumulate through a chain
    vertex (tree degree two), where the prize-collecting variant subtracts the
    prize of a terminal; a vertex of any other degree restarts the accumulator
    at the cost of its parent edge. *)
Definition chain_accumulate (g : GRAPH) (ed : EXTDATA) (acc : Q) (c : Z) : Q :=
  let edgecost := zget 0%Q (tree_parentEdgeCost ed) c in
  if zget 0 (tree_deg ed) c =? 2 then
    if graph_pc_isPc g && Is_term (zget (-1) (term g) c)
    then (acc + edgecost - graph_prize g c)%Q
    else (acc + edgecost)%Q
  else edgecost.

(** The accumulators after each vertex of a chain, lowest vertex first. *)
Fixpoint chain_accumulators (g : GRAPH) (ed : EXTDATA) (acc : Q) (cs : list Z)
    : list Q :=
  match cs with
  | [] => []
  | c :: cs' =>
      let a := chain_accumulate g ed acc c in
      a :: chain_accumulators g ed a cs'
  end.

(** [m] is the maximum of [0] and the accumulators [accs]. *)
Definition is_running_max (m : Q) (accs : list Q) : Prop :=
  (0 <= m)%Q /\ Forall (fun a => (a <= m)%Q) accs /\ (m = 0%Q \/ In m accs).

(** The running maxima that the marking loop writes, one per vertex of the
    chain. *)
Fixpoint bottleneck_marks (g : GRAPH) (ed : EXTDATA) (isPc : bool) (b bl : Q)
    (cs : list Z) : list Q :=
  match cs with
  | [] => []
  | c :: cs' =>
      let bl' := bottleneckLocalStep g ed isPc bl c in
      let b' := bottleneckRunMax b bl' in
      b' :: bottleneck_marks g ed isPc b' bl' cs'
  end.

(** ** The prize-collecting path of scenario 6 *)

(** Path 0 - 1 - 2 rooted at 0; vertex 1 is a non-leaf terminal of prize 0.4,
    both edges cost 1. *)
Definition pc_path_graph : GRAPH :=
  {| knots := 3; edges := 4;
     term := [0; 0; 0];
     prize := Some [0%Q; 0.4%Q; 0%Q];
     cost := [1%Q; 1%Q; 1%Q; 1%Q];
     tail := [0; 1; 1; 2];
     head := [1; 0; 2; 1];
     outbeg := [0; 1; 3];
     oeat := [-1; 2; -1; -1];
     dcsr_storage := {| dcsr_range := [(0, 1); (1, 3); (3, 4)];
                        dcsr_head := [1; 0; 2; 1];
                        dcsr_cost := [1%Q; 1%Q; 1%Q; 1%Q] |};
     stp_pc := true |}.

Definition empty_depo : CSRDEPO := {| depo_csrs := []; depo_topIsEmpty := false |}.
Definition empty_mldists : MLDISTS := {| ml_levels := []; ml_emptyslot := None |}.
Definition empty_reddata : REDDATA :=
  {| msts_comp := empty_depo; msts_levelbase := empty_depo;
     sds_horizontal := empty_mldists; sds_vertical := empty_mldists |}.

Definition pc_path_tree : EXTDATA :=
  {| extstack_data := [0; 2]; extstack_start := [0; 1; 2];
     extstack_state := [2; 1]; extstack_ncomponents := 2;
     tree_leaves := [0; 2]; tree_innerNodes := [1];
     tree_parentNode := [-1; 0; 1];
     tree_parentEdgeCost := [(-1)%Q; 1%Q; 1%Q];
     tree_bottleneckDistNode := [(-1)%Q; (-1)%Q; (-1)%Q];
     tree_deg := [1; 2; 1];
     tree_root := 0; tree_starcenter := -1;
     tree_nleaves := 2; tree_ninnerNodes := 1; tree_depth := 2;
     tree_cost := 2%Q;
     sdeq_edgesIsForbidden := [false; false];
     sdeq_hasForbiddenEdges := false;
     sdeq_resetStack := [];
     reddata := empty_reddata;
     pcdata := {| pcSdToNode := Some [(-1)%Q; (-1)%Q; (-1)%Q];
                  pcSdCands := [0; 0; 0]; nPcSdCands := 0;
                  tree_innerPrize := 0.4%Q |} |}.

(** ** The equality-forbidden edge set *)

Definition sdeq_flag (ed : EXTDATA) (id : Z) : bool :=
  zget false (sdeq_edgesIsForbidden ed) id.

(** No id is twice on the reset stack and every id on it is flagged. *)
Definition sdeq_inv (ed : EXTDATA) : Prop :=
  List.NoDup (sdeq_resetStack ed)
  /\ forall id, In id (sdeq_resetStack ed) -> sdeq_flag ed id = true.

(** Every edge of the adjacency chains has its undirected id within the
    flag array. *)
Definition sdeq_edges_in_range (g : GRAPH) (ed : EXTDATA) : Prop :=
  List.Forall
    (fun e => e = EAT_LAST
              \/ 0 <= e ÷ 2 < Z.of_nat (length (sdeq_edgesIsForbidden ed)))
    (outbeg g ++ oeat g).

(** [ed'] comes from [ed] by pushing the ids [new], each at the moment its
    flag flips from false to true; no other flag changes. *)
Definition sdeq_pushes (ed ed' : EXTDATA) (new : list Z) : Prop :=
  sdeq_resetStack ed' = sdeq_resetStack ed ++ new
  /\ length (sdeq_edgesIsForbidden ed') = length (sdeq_edgesIsForbidden ed)
  /\ (forall id, In id new -> sdeq_flag ed id = false /\ sdeq_flag ed' id = true)
  /\ (forall id, ~ In id new -> sdeq_flag ed' id = sdeq_flag ed id)
  /\ (new <> [] -> sdeq_hasForbiddenEdges ed' = true)
  /\ (new = [] -> ed' = ed).

(** The states reached from [ed0] by marking single edges (within the flag
    array) and paths. *)
Inductive sdeq_marked (g : GRAPH) (ed0 : EXTDATA) : EXTDATA -> Prop :=
| sdeq_marked_start : sdeq_marked g ed0 ed0
| sdeq_marked_edge ed edge :
    sdeq_marked g ed0 ed ->
    0 <= edge ÷ 2 < Z.of_nat (length (sdeq_edgesIsForbidden ed)) ->
    sdeq_marked g ed0 (bottleneckMarkEqualityEdge g edge ed)
| sdeq_marked_path ed ed' path_start path_end :
    sdeq_marked g ed0 ed ->
    bottleneckMarkEqualityPath g path_start path_end ed = Some ed' ->
    sdeq_marked g ed0 ed'.

(** ** The Stage 2 rule of the spec (4.G) *)

Section SpecRules.
Context `{Externals}.

(** The number of edges of an MST: its CSR holds two directed entries per
    edge. *)
Definition csr_nedges (M : CSR) : Z := nedges_max M ÷ 2.

(** Stated after the spec's words, for a weight [w] and a cost [c]: rule out
    if [w < c], or the MST has more than two edges and [w <= c], or
    [n_leaves = 3] and [w = c] and the 3-leaf equality sub-check holds. *)
Definition stage2_rule (g : GRAPH) (ed : EXTDATA) (M : CSR) (w c : Q) : bool :=
  LT w c
  || ((2 <? csr_nedges M) && LE w c)
  || ((tree_nleaves ed =? 3) && EQ w c && mstEqComp3RuleOut g c ed).

(** The weight and the cost as the claim states them: the inner prizes taken
    off the MST weight, the tree cost as it is. *)
Definition stage2_weight_stated (g : GRAPH) (ed : EXTDATA) (M : CSR) : Q :=
  match prize g with
  | Some _ => (reduce_dcmstGetWeight M - tree_innerPrize (pcdata ed))%Q
  | None => reduce_dcmstGetWeight M
  end.

(** ** The levelbase MST of the spec (4.F, step 5) *)






(** ** Stored special distances *)

(** What the level-building code stores for a computed special distance: the
    distance itself when it is known, FARAWAY when it is unknown. *)
Definition sd_stored (specialDist : Q) : Q :=
  if Qle_bool (-(1#2)) specialDist then specialDist else FARAWAY.

(** A special distance as the oracle answers it and as an entry of the
    prize-collecting mark array holds it: -1 when it is unknown, a distance
    in [0, FARAWAY) otherwise. *)
Definition sd_value_ok (d : Q) : Prop :=
  (d == -1 \/ (0 <= d /\ d < FARAWAY))%Q.

(** What the engine takes for granted of its input: FARAWAY is positive, the
    oracle answers -1 or a distance in [0, FARAWAY), an edge cost is not
    negative and two of them stay below FARAWAY, and no prize is negative. *)
Definition sd_contract (g : GRAPH) : Prop :=
  (0 < FARAWAY)%Q
  /\ (forall vertex1 vertex2,
        sd_value_ok (extreduce_distDataGetSdDouble g vertex1 vertex2))
  /\ Forall (fun c => 0 <= c /\ c + c < FARAWAY)%Q (dcsr_cost (dcsr_storage g))
  /\ (forall v, 0 <= graph_prize g v)%Q.

(** Every entry of the prize-collecting mark array, if there is one, is -1
    or a distance in [0, FARAWAY). *)
Definition pc_marks_ok (ed : EXTDATA) : Prop :=
  match pcSdToNode (pcdata ed) with
  | Some p => Forall sd_value_ok p
  | None => True
  end.

(** A stored distance is FARAWAY or lies in [0, FARAWAY). *)
Definition stored_ok (d : Q) : Prop :=
  d = FARAWAY \/ (0 <= d /\ d < FARAWAY)%Q.

Definition mldists_ok (m : MLDISTS) : Prop :=
  Forall (fun l => Forall (fun s => Forall stored_ok (slot_dists s))
                     (level_slots l))
         (ml_levels m).

(** The slot being filled, if any, is fresh. *)
Definition emptyslot_fresh (m : MLDISTS) : Prop :=
  forall s, ml_emptyslot m = Some s -> slot_dists s = [].

(** The invariant of the two distance stores and of the mark array at the
    quiescent points. *)
Definition stores_ok (ed : EXTDATA) : Prop :=
  mldists_ok (sds_vertical (reddata ed))
  /\ mldists_ok (sds_horizontal (reddata ed))
  /\ emptyslot_fresh (sds_vertical (reddata ed))
  /\ pc_marks_ok ed.

(** The claim C8 as stated: a stored distance is -1 or lies in
    [0, FARAWAY). *)
Definition stored_as_stated (d : Q) : Prop :=
  d = (-1)%Q \/ (0 <= d /\ d < FARAWAY)%Q.

(** One public operation of the engine that touches the stores. *)
Inductive engine_step (g : GRAPH) : EXTDATA -> EXTDATA -> Prop :=
| step_addRootLevel root ed ed' :
    extreduce_mstAddRootLevel root ed = Some ed' -> engine_step g ed ed'
| step_levelInit ed :
    engine_step g ed (set_reddata (extreduce_mstLevelInit (reddata ed) ed) ed)
| step_verticalAddLeaf edge ed ed' ruledOut :
    extreduce_mstLevelVerticalAddLeaf g edge ed = Some (ed', ruledOut) ->
    engine_step g ed ed'
| step_verticalAddLeafInitial edge ed ed' ruledOut :
    extreduce_mstLevelVerticalAddLeafInitial g edge ed = Some (ed', ruledOut) ->
    engine_step g ed ed'
| step_verticalClose ed :
    engine_step g ed
      (set_reddata (extreduce_mstLevelVerticalClose (reddata ed)) ed)
| step_verticalRemove ed r :
    extreduce_mstLevelVerticalRemove (reddata ed) = Some r ->
    engine_step g ed (set_reddata r ed)
| step_horizontalAdd nextedges extedges ed ed' :
    extreduce_mstLevelHorizontalAdd g nextedges extedges ed = Some ed' ->
    engine_step g ed ed'
| step_levelClose extnode ed ed' :
    extreduce_mstLevelClose g extnode ed = Some ed' -> engine_step g ed ed'
| step_levelRemove ed r :
    extreduce_mstLevelRemove (reddata ed) = Some r ->
    engine_step g ed (set_reddata r ed)
| step_compRemove ed ed' :
    extreduce_mstCompRemove g ed = Some ed' -> engine_step g ed ed'
| step_ruleOutPeriph ed ed' ruledOut :
    extreduce_mstRuleOutPeriph g ed = Some (ed', ruledOut) ->
    engine_step g ed ed'
| step_treeUpdate ed ed' :
    (* the outer driver changes the tree, not the stores, and leaves the
       entries of the mark array at -1 or at a distance *)
    reddata ed' = reddata ed -> pc_marks_ok ed' -> engine_step g ed ed'.

(** ** Notions used by the proofs *)



(** [ed'] has the distance stores and the number of leaves of [ed]. *)
Definition frame (ed ed' : EXTDATA) : Prop :=
  sds_vertical (reddata ed') = sds_vertical (reddata ed)
  /\ sds_horizontal (reddata ed') = sds_horizontal (reddata ed)
  /\ tree_nleaves ed' = tree_nleaves ed.

(** The state of a store while a slot is being filled: the sealed levels
    hold stored distances only, and so do the [n] positions written so
    far. *)
Definition filling_ok (m : MLDISTS) (n : nat) : Prop :=
  mldists_ok m
  /\ exists s, ml_emptyslot m = Some s
               /\ length (slot_dists s) = n
               /\ Forall stored_ok (slot_dists s).

(** What the dominance tests require of the special distance they are
    given, by their assertions: the tests against ancestor leaves and inner
    nodes pass it to [sdIsNonTrivial], which asserts
    [specialDist >= 0 || EQ(specialDist, -1.0)] and
    [LT(specialDist, FARAWAY)] (unknown is -1 there); the sibling test
    asserts [specialDist >= 0.0] (unknown is FARAWAY there). *)
Definition sdIsNonTrivial_requires (specialDist : Q) : Prop :=
  ((0 <= specialDist)%Q \/ EQ specialDist (-1) = true)
  /\ LT specialDist FARAWAY = true.

Definition bottleneckToSiblingIsDominated_requires (specialDist : Q) : Prop :=
  (0 <= specialDist)%Q.

(** The special distance that Stage 1 tests against the ancestor leaf at
    position [j]: the stored vertical distance, FARAWAY read as unknown. *)
Definition ancestor_sd (adjedgecosts : list Q) (j : Z) : Q :=
  let sd := zget 0%Q adjedgecosts j in
  if EQ sd FARAWAY then (-1)%Q else sd.

End SpecRules.

(** ** An instance of the externals, for the examples *)

(** Comparisons with tolerance [10^-6] and the sentinel [10^15]; the
    distance oracles are given by tables; the stack inspectors read the
    extension stack the way extreduce.h does for an initial component that is
    a single edge; the MST kernel links a new node by its cheapest adjacency
    cost and weighs an MST by half the sum of its directed entries. *)
Definition example_eps : Q := 1 # 1000000.

Definition Qminlist (l : list Q) : Q :=
  match l with
  | [] => 0%Q
  | x :: l' => foldl (fun m y => if Qltb y m then y else m) x l'
  end.

Definition Qsumlist (l : list Q) : Q := foldl Qplus 0%Q l.

Fixpoint leaf_position (leaves : list Z) (leaf : Z) (pos : Z) : Z :=
  match leaves with
  | [] => -1
  | l :: leaves' => if l =? leaf then pos else leaf_position leaves' leaf (pos + 1)
  end.

Definition example_addNode (adjcosts : list Q) (c : CSR) : CSR :=
  let m := Qminlist (take (Z.to_nat (nnodes c)) adjcosts) in
  {| nnodes := nnodes c + 1; nedges_max := nedges_max c + 2;
     csr_start := csr_start c; csr_head := csr_head c;
     csr_cost := csr_cost c ++ [m; m] |}.

Definition example_externals (sd sd_forbidden : Z -> Z -> Q) : Externals :=
  {| FARAWAY := 1000000000000000%Q;
     LT := fun a b => Qltb (a - b) (- example_eps);
     LE := fun a b => Qle_bool (a - b) example_eps;
     EQ := fun a b => Qle_bool (Qabs (a - b)) example_eps;
     extreduce_distDataGetSdDouble := fun _ v1 v2 => sd v1 v2;
     extreduce_distDataGetSdDoubleForbiddenEq :=
       fun _ _ _ v1 v2 _ => sd_forbidden v1 v2;
     extreduce_distDataGetSdDoubleForbidden :=
       fun _ v1 v2 _ => sd_forbidden v1 v2;
     EXT_STATE_MARKED := 2;
     extStackGetPosition := fun ed => extstack_ncomponents ed - 1;
     extStackGetOutEdgesStart := fun ed pos => zget 0 (extstack_start ed) pos;
     extStackGetOutEdgesEnd := fun ed pos => zget 0 (extstack_start ed) (pos + 1);
     extStackGetTopOutEdgesStart := fun ed pos => zget 0 (extstack_start ed) pos;
     extStackGetTopOutEdgesEnd :=
       fun ed pos => zget 0 (extstack_start ed) (pos + 1);
     extLeafFindPos := fun ed leaf => leaf_position (tree_leaves ed) leaf 0;
     extIsAtInitialComp := fun ed => extstack_ncomponents ed - 1 =? 0;
     extIsAtInitialStar := fun _ => false;
     extIsAtInitialGenStar := fun _ => false;
     extInitialCompIsStar := fun _ => false;
     extInitialCompIsEdge := fun _ => true;
     extreduce_spg3LeafTreeRuleOut := fun _ _ _ => false;
     reduce_dcmstGet1NodeMst :=
       fun c => {| nnodes := 1; nedges_max := 0; csr_start := [0; 0];
                   csr_head := []; csr_cost := [] |};
     reduce_dcmstAddNode :=
       fun parent adjcosts _ => example_addNode adjcosts parent;
     reduce_dcmstAddNodeInplace := example_addNode;
     reduce_dcmstGetWeight := fun c => (Qsumlist (csr_cost c) / 2)%Q;
     reduce_dcmstGetExtWeight :=
       fun c adjcosts =>
         (Qsumlist (csr_cost c) / 2
          + Qminlist (take (Z.to_nat (nnodes c)) adjcosts))%Q |}.

(** The path of scenario 6 with its component MST over the leaves 0 and 2,
    whose special distance is the tree bottleneck 1.6. *)
Definition pc_path_tree_mst : EXTDATA :=
  set_reddata
    {| msts_comp :=
         {| depo_csrs :=
              [ {| nnodes := 2; nedges_max := 2; csr_start := [0; 1; 2];
                   csr_head := [1; 0]; csr_cost := [1.6%Q; 1.6%Q] |};
                {| nnodes := 1; nedges_max := 0; csr_start := [0; 0];
                   csr_head := []; csr_cost := [] |} ];
            depo_topIsEmpty := false |};
       msts_levelbase := empty_depo;
       sds_horizontal := empty_mldists; sds_vertical := empty_mldists |}
    pc_path_tree.

Definition no_sd (_ _ : Z) : Q := (-1)%Q.

(** ** A level whose horizontal part has not been added *)

Definition one_level : MLLEVEL :=
  {| level_maxslots := 1; level_ntargets := 0;
     level_slots := [ {| slot_base := 0; slot_ids := []; slot_dists := [] |} ];
     level_closed := true |}.

Definition one_node_csr : CSR :=
  {| nnodes := 1; nedges_max := 0; csr_start := [0; 0]; csr_head := [];
     csr_cost := [] |}.

(** The stores after the root level and a [level_init]: the vertical store
    is one level ahead of the horizontal store and of the levelbase depot. *)
Definition reddata_vertical_ahead : REDDATA :=
  {| msts_comp := {| depo_csrs := [one_node_csr]; depo_topIsEmpty := false |};
     msts_levelbase :=
       {| depo_csrs := [one_node_csr]; depo_topIsEmpty := false |};
     sds_horizontal := {| ml_levels := [one_level]; ml_emptyslot := None |};
     sds_vertical :=
       {| ml_levels :=
            [ {| level_maxslots := STP_EXT_MAXGRAD; level_ntargets := 1;
                 level_slots := []; level_closed := false |};
              one_level ];
          ml_emptyslot :=
            Some {| slot_base := -1; slot_ids := []; slot_dists := [] |} |} |}.

(** ** A star whose top component has two leaves *)

(** Vertex 1 is joined to 0, 2 and 3 by edges of cost 1; the tree is rooted
    at 0 and its top component are the two leaves 2 and 3 below vertex 1.
    The special distance from 2 to the ancestor leaf 0 is 0.5. *)
Definition star_graph : GRAPH :=
  {| knots := 4; edges := 6;
     term := [-1; -1; -1; -1];
     prize := None;
     cost := [1%Q; 1%Q; 1%Q; 1%Q; 1%Q; 1%Q];
     tail := [0; 1; 1; 2; 1; 3];
     head := [1; 0; 2; 1; 3; 1];
     outbeg := [0; 1; 3; 5];
     oeat := [-1; 2; 4; -1; -1; -1];
     dcsr_storage := {| dcsr_range := [(0, 1); (1, 4); (4, 5); (5, 6)];
                        dcsr_head := [1; 0; 2; 3; 1; 1];
                        dcsr_cost := [1%Q; 1%Q; 1%Q; 1%Q; 1%Q; 1%Q] |};
     stp_pc := false |}.

Definition star_sd (u v : Z) : Q :=
  if (u =? 2) && (v =? 0) then 0.5%Q else 2%Q.

Definition star_tree : EXTDATA :=
  {| extstack_data := [0; 2; 4]; extstack_start := [0; 1; 3];
     extstack_state := [2; 2]; extstack_ncomponents := 2;
     tree_leaves := [0; 2; 3]; tree_innerNodes := [1];
     tree_parentNode := [-1; 0; 1; 1];
     tree_parentEdgeCost := [(-1)%Q; 1%Q; 1%Q; 1%Q];
     tree_bottleneckDistNode := [(-1)%Q; (-1)%Q; (-1)%Q; (-1)%Q];
     tree_deg := [1; 3; 1; 1];
     tree_root := 0; tree_starcenter := -1;
     tree_nleaves := 3; tree_ninnerNodes := 1; tree_depth := 2;
     tree_cost := 3%Q;
     sdeq_edgesIsForbidden := [false; false; false];
     sdeq_hasForbiddenEdges := false;
     sdeq_resetStack := [];
     reddata :=
       {| msts_comp := empty_depo; msts_levelbase := empty_depo;
          sds_horizontal := empty_mldists;
          sds_vertical :=
            {| ml_levels :=
                 [ {| level_maxslots := STP_EXT_MAXGRAD; level_ntargets := 1;
                      level_slots :=
                        [ {| slot_base := 2; slot_ids := [];
                             slot_dists := [0.5%Q] |};
                          {| slot_base := 3; slot_ids := [];
                             slot_dists := [2%Q] |} ];
                      level_closed := true |};
                   {| level_maxslots := STP_EXT_MAXGRAD; level_ntargets := 1;
                      level_slots :=
                        [ {| slot_base := 1; slot_ids := [];
                             slot_dists := [1%Q] |} ];
                      level_closed := true |};
                   one_level ];
               ml_emptyslot := None |} |};
     pcdata := {| pcSdToNode := None; pcSdCands := []; nPcSdCands := 0;
                  tree_innerPrize := 0%Q |} |}.

(** The star when the level that extends the leaf 2 (to a neighbour 4) is
    about to be closed: the vertical store holds the new level on top of
    those of the star, the horizontal store and the levelbase depot hold one
    entry per level. *)
Definition star_tree_closing : EXTDATA :=
  set_reddata
    {| msts_comp := empty_depo;
       msts_levelbase :=
         {| depo_csrs := [one_node_csr; one_node_csr; one_node_csr];
            depo_topIsEmpty := false |};
       sds_horizontal :=
         {| ml_levels :=
              [ {| level_maxslots := 1; level_ntargets := 0;
                   level_slots :=
                     [ {| slot_base := 4; slot_ids := []; slot_dists := [] |} ];
                   level_closed := true |};
                {| level_maxslots := 2; level_ntargets := 1;
                   level_slots :=
                     [ {| slot_base := 2; slot_ids := [3];
                          slot_dists := [2%Q] |};
                       {| slot_base := 3; slot_ids := []; slot_dists := [] |} ];
                   level_closed := true |};
                {| level_maxslots := 1; level_ntargets := 0;
                   level_slots :=
                     [ {| slot_base := 1; slot_ids := []; slot_dists := [] |} ];
                   level_closed := true |};
                one_level ];
            ml_emptyslot := None |};
       sds_vertical :=
         {| ml_levels :=
              [ {| level_maxslots := STP_EXT_MAXGRAD; level_ntargets := 2;
                   level_slots :=
                     [ {| slot_base := 4; slot_ids := [];
                          slot_dists := [2%Q; 2%Q] |} ];
                   level_closed := true |} ]
              ++ ml_levels (sds_vertical (reddata star_tree));
            ml_emptyslot := None |} |}
    star_tree.

Definition star_externals : Externals := example_externals star_sd no_sd.

(** ** A triangle *)

(** Vertices 0, 1, 2 with the edges 0-1 and 1-2 of cost 1 and 0-2 of cost
    1.5; the special distances are the edge costs. *)
Definition triangle_graph : GRAPH :=
  {| knots := 3; edges := 6;
     term := [-1; -1; -1];
     prize := None;
     cost := [1%Q; 1%Q; 1%Q; 1%Q; 1.5%Q; 1.5%Q];
     tail := [0; 1; 1; 2; 0; 2];
     head := [1; 0; 2; 1; 2; 0];
     outbeg := [0; 1; 3];
     oeat := [4; 2; -1; 5; -1; -1];
     dcsr_storage := {| dcsr_range := [(0, 2); (2, 4); (4, 6)];
                        dcsr_head := [1; 2; 0; 2; 1; 0];
                        dcsr_cost := [1%Q; 1.5%Q; 1%Q; 1%Q; 1%Q; 1.5%Q] |};
     stp_pc := false |}.

Definition triangle_sd (u v : Z) : Q :=
  if u + v =? 2 then 1.5%Q else 1%Q.

(** The tree that is the root 0 alone, with empty stores. *)
Definition triangle_root : EXTDATA :=
  {| extstack_data := [0]; extstack_start := [0; 1];
     extstack_state := [0]; extstack_ncomponents := 1;
     tree_leaves := [0]; tree_innerNodes := [];
     tree_parentNode := [-1; -1; -1];
     tree_parentEdgeCost := [(-1)%Q; (-1)%Q; (-1)%Q];
     tree_bottleneckDistNode := [(-1)%Q; (-1)%Q; (-1)%Q];
     tree_deg := [1; 0; 0];
     tree_root := 0; tree_starcenter := -1;
     tree_nleaves := 1; tree_ninnerNodes := 0; tree_depth := 0;
     tree_cost := 0%Q;
     sdeq_edgesIsForbidden := [false; false; false];
     sdeq_hasForbiddenEdges := false;
     sdeq_resetStack := [];
     reddata := empty_reddata;
     pcdata := {| pcSdToNode := None; pcSdCands := []; nPcSdCands := 0;
                  tree_innerPrize := 0%Q |} |}.

(** The tree 0 - 1 rooted at 0, after the [level_init] for the extension of
    the leaf 1: the vertical store has an open level on top, the component
    MST spans the leaves 0 and 1. *)
Definition triangle_tree : EXTDATA :=
  {| extstack_data := [0; 2]; extstack_start := [0; 1; 2];
     extstack_state := [2; 0]; extstack_ncomponents := 2;
     tree_leaves := [0; 1]; tree_innerNodes := [];
     tree_parentNode := [-1; 0; -1];
     tree_parentEdgeCost := [(-1)%Q; 1%Q; (-1)%Q];
     tree_bottleneckDistNode := [(-1)%Q; (-1)%Q; (-1)%Q];
     tree_deg := [1; 1; 0];
     tree_root := 0; tree_starcenter := -1;
     tree_nleaves := 2; tree_ninnerNodes := 0; tree_depth := 1;
     tree_cost := 1%Q;
     sdeq_edgesIsForbidden := [false; false; false];
     sdeq_hasForbiddenEdges := false;
     sdeq_resetStack := [];
     reddata :=
       {| msts_comp :=
            {| depo_csrs :=
                 [ {| nnodes := 2; nedges_max := 2; csr_start := [0; 1; 2];
                      csr_head := [1; 0]; csr_cost := [1%Q; 1%Q] |};
                   one_node_csr ];
               depo_topIsEmpty := false |};
          msts_levelbase :=
            {| depo_csrs := [one_node_csr; one_node_csr];
               depo_topIsEmpty := false |};
          sds_horizontal :=
            {| ml_levels :=
                 [ {| level_maxslots := 1; level_ntargets := 0;
                      level_slots :=
                        [ {| slot_base := 1; slot_ids := [];
                             slot_dists := [] |} ];
                      level_closed := true |};
                   one_level ];
               ml_emptyslot := None |};
          sds_vertical :=
            {| ml_levels :=
                 [ {| level_maxslots := STP_EXT_MAXGRAD; level_ntargets := 1;
                      level_slots := []; level_closed := false |};
                   {| level_maxslots := STP_EXT_MAXGRAD; level_ntargets := 1;
                      level_slots :=
                        [ {| slot_base := 1; slot_ids := [];
                             slot_dists := [1%Q] |} ];
                      level_closed := true |};
                   one_level ];
               ml_emptyslot :=
                 Some {| slot_base := -1; slot_ids := [];
                         slot_dists := [] |} |} |};
     pcdata := {| pcSdToNode := None; pcSdCands := []; nPcSdCands := 0;
                  tree_innerPrize := 0%Q |} |}.

Definition triangle_externals : Externals := example_externals triangle_sd no_sd.

(** The instance in which every special distance is unknown. *)
Definition unknown_externals : Externals := example_externals no_sd no_sd.

(** ** Notions used by the further properties *)

Definition sdeq_only (ed ed' : EXTDATA) : Prop :=
  exists f h s, ed' = set_sdeq f h s ed.

(** The prize-collecting marks [pc] over a mark array of [N] entries, with
    [L] the candidates recorded so far: the recorded candidates are the
    first entries of the candidate list, each is recorded once and carries a
    mark, and every other entry of the mark array is unmarked. *)
Definition pcSd_marked (N : nat) (pc : list Q * list Z * Z) (L : list Z)
    : Prop :=
  let '(p, c, n) := pc in
  length p = N /\ (N <= length c)%nat /\ n = Z.of_nat (length L)
  /\ take (length L) c = L
  /\ List.NoDup L
  /\ List.Forall (fun x => 0 <= x < Z.of_nat N) L
  /\ (forall x, In x L -> (-(1#2) <= zget (-1)%Q p x)%Q)
  /\ (forall i, ~ In i L -> zget (-1)%Q p i = (-1)%Q).

(** The extension stack and the tree, without the bottleneck marks. *)
Definition tree_part (ed : EXTDATA) :=
  (extstack_data ed, extstack_start ed, extstack_state ed,
   extstack_ncomponents ed, tree_leaves ed, tree_innerNodes ed,
   tree_parentNode ed, tree_parentEdgeCost ed, tree_deg ed, tree_root ed,
   tree_starcenter ed, tree_nleaves ed, tree_ninnerNodes ed, tree_depth ed,
   tree_cost ed).

(** [ed'] differs from [ed] at most in the equality-forbidden edge set and
    in the ids and distances of the vertical slot being filled. *)
Definition slot_only (ed ed' : EXTDATA) : Prop :=
  exists f h s sl,
    slot_base <$> sl = slot_base <$> ml_emptyslot (sds_vertical (reddata ed))
    /\ ed' = set_sdeq f h s
               (set_reddata
                  (set_sds_vertical
                     {| ml_levels := ml_levels (sds_vertical (reddata ed));
                        ml_emptyslot := sl |} (reddata ed)) ed).

(** The slot that [extreduce_mldistsEmptySlotSetFilled] seals: the first
    [n] ids and distances of the slot being filled. *)
Definition sealed_slot (n : Z) (s : MLSLOT) : MLSLOT :=
  {| slot_base := slot_base s; slot_ids := take (Z.to_nat n) (slot_ids s);
     slot_dists := take (Z.to_nat n) (slot_dists s) |}.

(** A level with one more filled slot. *)
Definition level_add_slot (l : MLLEVEL) (s : MLSLOT) : MLLEVEL :=
  {| level_maxslots := level_maxslots l; level_ntargets := level_ntargets l;
     level_slots := level_slots l ++ [s]; level_closed := level_closed l |}.

Definition fresh_slot : MLSLOT :=
  {| slot_base := -1; slot_ids := []; slot_dists := [] |}.

(** [ed'] differs from [ed] at most in the bottleneck marks and in the
    equality-forbidden edge set. *)
Definition marks_only (ed ed' : EXTDATA) : Prop :=
  exists b f h s, ed' = set_bottleneckDistNode b (set_sdeq f h s ed).

(** The star with the stores as they are when its top component, the leaves
    2 and 3, is checked: the levelbase MST of the level spans the ancestor
    leaf 0, the component depot holds the MSTs of the components below. *)
Definition star_tree_periph : EXTDATA :=
  set_reddata
    {| msts_comp :=
         {| depo_csrs :=
              [ {| nnodes := 2; nedges_max := 2; csr_start := [0; 1; 2];
                   csr_head := [1; 0]; csr_cost := [1%Q; 1%Q] |};
                one_node_csr ];
            depo_topIsEmpty := false |};
       msts_levelbase :=
         {| depo_csrs := [one_node_csr; one_node_csr; one_node_csr];
            depo_topIsEmpty := false |};
       sds_horizontal :=
         {| ml_levels :=
              [ {| level_maxslots := 2; level_ntargets := 1;
                   level_slots :=
                     [ {| slot_base := 2; slot_ids := [3];
                          slot_dists := [2%Q] |};
                       {| slot_base := 3; slot_ids := [2];
                          slot_dists := [2%Q] |} ];
                   level_closed := true |};
                {| level_maxslots := 1; level_ntargets := 0;
                   level_slots :=
                     [ {| slot_base := 1; slot_ids := []; slot_dists := [] |} ];
                   level_closed := true |};
                one_level ];
            ml_emptyslot := None |};
       sds_vertical := sds_vertical (reddata star_tree) |}
    star_tree.

(** [ed'] has the tree, the vertical store, the MST depots and the levels
    of the horizontal store of [ed], and the horizontal slot being filled
    has kept its base. *)
Definition hslot_only (ed ed' : EXTDATA) : Prop :=
  tree_part ed' = tree_part ed
  /\ sds_vertical (reddata ed') = sds_vertical (reddata ed)
  /\ msts_comp (reddata ed') = msts_comp (reddata ed)
  /\ msts_levelbase (reddata ed') = msts_levelbase (reddata ed)
  /\ ml_levels (sds_horizontal (reddata ed'))
     = ml_levels (sds_horizontal (reddata ed))
  /\ slot_base <$> ml_emptyslot (sds_horizontal (reddata ed'))
     = slot_base <$> ml_emptyslot (sds_horizontal (reddata ed)).

(** A level with more filled slots. *)
Definition level_add_slots (l : MLLEVEL) (ss : list MLSLOT) : MLLEVEL :=
  {| level_maxslots := level_maxslots l; level_ntargets := level_ntargets l;
     level_slots := level_slots l ++ ss; level_closed := level_closed l |}.

(** One call of [extreduce_mstLevelVerticalAddLeaf] or of
    [extreduce_mstLevelVerticalAddLeafInitial], whatever its verdict. *)
Inductive add_leaf_step `{Externals} (g : GRAPH) : EXTDATA -> EXTDATA -> Prop :=
| add_leaf_step_leaf e ed ed' ruledOut :
    extreduce_mstLevelVerticalAddLeaf g e ed = Some (ed', ruledOut) ->
    add_leaf_step g ed ed'
| add_leaf_step_initial e ed ed' ruledOut :
    extreduce_mstLevelVerticalAddLeafInitial g e ed = Some (ed', ruledOut) ->
    add_leaf_step g ed ed'.

(** The four stacks of the reduction data: the levels of the two SD stores
    and the MSTs of the two depots. *)
Definition reddata_stacks (r : REDDATA)
    : list MLLEVEL * list MLLEVEL * list CSR * list CSR :=
  (ml_levels (sds_vertical r), ml_levels (sds_horizontal r),
   depo_csrs (msts_levelbase r), depo_csrs (msts_comp r)).

(** [ed'] differs from [ed] in the top level of the vertical store at
    most, as far as the four stacks go. *)
Definition vtop_only (ed ed' : EXTDATA) : Prop :=
  tree_part ed' = tree_part ed
  /\ sds_horizontal (reddata ed') = sds_horizontal (reddata ed)
  /\ msts_comp (reddata ed') = msts_comp (reddata ed)
  /\ msts_levelbase (reddata ed') = msts_levelbase (reddata ed)
  /\ List.tl (ml_levels (sds_vertical (reddata ed')))
     = List.tl (ml_levels (sds_vertical (reddata ed)))
  /\ length (ml_levels (sds_vertical (reddata ed')))
     = length (ml_levels (sds_vertical (reddata ed))).

(** The tree 0 - 1 rooted at 0 before the [level_init] for the extension of
    the leaf 1: [triangle_tree] without the open level of the vertical
    store. *)
Definition triangle_tree_before : EXTDATA :=
  set_reddata
    (set_sds_vertical
       {| ml_levels := List.tl (ml_levels (sds_vertical (reddata triangle_tree)));
          ml_emptyslot := None |}
       (reddata triangle_tree))
    triangle_tree.

(** ** A path of four vertices *)

(** Path 0 - 1 - 2 - 3; the edges 0-1 and 1-2 cost 1, the edge 2-3 costs
    [c].  In the prize-collecting variant vertex 1 is a terminal of prize
    0.4. *)
Definition line_graph (pc : bool) (c : Q) : GRAPH :=
  {| knots := 4; edges := 6;
     term := if pc then [0; 0; 0; 0] else [-1; -1; -1; -1];
     prize := if pc then Some [0%Q; 0.4%Q; 0%Q; 0%Q] else None;
     cost := [1%Q; 1%Q; 1%Q; 1%Q; c; c];
     tail := [0; 1; 1; 2; 2; 3];
     head := [1; 0; 2; 1; 3; 2];
     outbeg := [0; 1; 3; 5];
     oeat := [-1; 2; -1; 4; -1; -1];
     dcsr_storage := {| dcsr_range := [(0, 1); (1, 3); (3, 5); (5, 6)];
                        dcsr_head := [1; 0; 2; 1; 3; 2];
                        dcsr_cost := [1%Q; 1%Q; 1%Q; 1%Q; c; c] |};
     stp_pc := pc |}.

(** A tree in the path, with empty stores: the extension stack, the leaves
    and inner nodes, the parents with the costs of the parent edges, the
    degrees, the depth, the cost and the prize of the inner nodes. *)
Definition line_tree (pc : bool) (stack_data stack_start stack_state : list Z)
    (leaves inner parent : list Z) (parentEdgeCost : list Q) (deg : list Z)
    (depth : Z) (cost_ innerPrize : Q) : EXTDATA :=
  {| extstack_data := stack_data; extstack_start := stack_start;
     extstack_state := stack_state;
     extstack_ncomponents := Z.of_nat (length stack_state);
     tree_leaves := leaves; tree_innerNodes := inner;
     tree_parentNode := parent;
     tree_parentEdgeCost := parentEdgeCost;
     tree_bottleneckDistNode := [(-1)%Q; (-1)%Q; (-1)%Q; (-1)%Q];
     tree_deg := deg;
     tree_root := 0; tree_starcenter := -1;
     tree_nleaves := Z.of_nat (length leaves);
     tree_ninnerNodes := Z.of_nat (length inner); tree_depth := depth;
     tree_cost := cost_;
     sdeq_edgesIsForbidden := [false; false; false];
     sdeq_hasForbiddenEdges := false;
     sdeq_resetStack := [];
     reddata := empty_reddata;
     pcdata :=
       {| pcSdToNode :=
            if pc then Some [(-1)%Q; (-1)%Q; (-1)%Q; (-1)%Q] else None;
          pcSdCands := [0; 0; 0; 0]; nPcSdCands := 0;
          tree_innerPrize := innerPrize |} |}.

(** The root 0 alone, with the initial component (the edge 0 -> 1) on the
    stack. *)
Definition line_root (pc : bool) : EXTDATA :=
  line_tree pc [0] [0; 1] [1] [0] [] [-1; -1; -1; -1]
    [(-1)%Q; (-1)%Q; (-1)%Q; (-1)%Q] [1; 0; 0; 0] 0 0 0.

(** The tree 0 - 1: extended by the initial component, and with the edge
    1 -> 2 on the stack as the next component. *)
Definition line_tree1 (pc : bool) : EXTDATA :=
  line_tree pc [0] [0; 1] [1] [0; 1] [] [-1; 0; -1; -1]
    [(-1)%Q; 1%Q; (-1)%Q; (-1)%Q] [1; 1; 0; 0] 1 1 0.

Definition line_tree1_next (pc : bool) : EXTDATA :=
  line_tree pc [0; 2] [0; 1; 2] [2; 0] [0; 1] [] [-1; 0; -1; -1]
    [(-1)%Q; 1%Q; (-1)%Q; (-1)%Q] [1; 1; 0; 0] 1 1 0.

(** The tree 0 - 1 - 2: extended by the component of the edge 1 -> 2, and
    with the edge 2 -> 3 on the stack as the next component. *)
Definition line_tree2 (pc : bool) : EXTDATA :=
  line_tree pc [0; 2] [0; 1; 2] [2; 1] [0; 2] [1] [-1; 0; 1; -1]
    [(-1)%Q; 1%Q; 1%Q; (-1)%Q] [1; 2; 1; 0] 2 2 (if pc then 0.4 else 0).

Definition line_tree2_next (pc : bool) : EXTDATA :=
  line_tree pc [0; 2; 4] [0; 1; 2; 3] [2; 2; 0] [0; 2] [1] [-1; 0; 1; -1]
    [(-1)%Q; 1%Q; 1%Q; (-1)%Q] [1; 2; 1; 0] 2 2 (if pc then 0.4 else 0).

(** The special distances that the oracle knows: those of the three edges
    and one more, [d] between the vertices [u] and [v]. *)
Definition line_sd (c : Q) (u v : Z) (d : Q) (x y : Z) : Q :=
  if ((x =? u) && (y =? v)) || ((x =? v) && (y =? u)) then d
  else if (x + y =? 5) && ((x =? 2) || (x =? 3)) then c
  else if (x - y =? 1) || (y - x =? 1) then 1%Q
  else (-1)%Q.

(** The calls that build one level for the single edge [e] out of the leaf
    [extnode]: [level_init], the leaf of the edge, closing the vertical
    part, the horizontal part, [level_close]. *)
Definition line_level `{Externals} (g : GRAPH) (e extnode : Z) (ed : EXTDATA)
    : option EXTDATA :=
  let ed1 := set_reddata (extreduce_mstLevelInit (reddata ed) ed) ed in
  '(ed2, ruledOut) ←
     (if extIsAtInitialComp ed
      then extreduce_mstLevelVerticalAddLeafInitial g e ed1
      else extreduce_mstLevelVerticalAddLeaf g e ed1);
  if ruledOut : bool then None
  else
    let ed3 := set_reddata (extreduce_mstLevelVerticalClose (reddata ed2)) ed2 in
    ed4 ← extreduce_mstLevelHorizontalAdd g 1 [e] ed3;
    extreduce_mstLevelClose g extnode ed4.

(** The tree [tree'], extended by the driver, takes over the stores of
    [ed]; the peripheral rule-out builds its component MST. *)
Definition line_extend `{Externals} (g : GRAPH) (tree' : EXTDATA) (ed : EXTDATA)
    : option EXTDATA :=
  '(ed', ruledOut) ← extreduce_mstRuleOutPeriph g (set_reddata (reddata ed) tree');
  if ruledOut : bool then None else Some ed'.

(** The run of the engine from the root to the tree 0 - 1 - 2 with the level
    for the extension of the leaf 2 opened. *)
Definition line_run `{Externals} (pc : bool) (g : GRAPH) : option EXTDATA :=
  ed0 ← extreduce_mstAddRootLevel 0 (line_root pc);
  ed1 ← line_level g 0 0 ed0;
  ed2 ← line_extend g (line_tree1 pc) ed1;
  ed3 ← line_level g 2 1 (set_reddata (reddata ed2) (line_tree1_next pc));
  ed4 ← line_extend g (line_tree2 pc) ed3;
  let ed5 := set_reddata (reddata ed4) (line_tree2_next pc) in
  Some (set_reddata (extreduce_mstLevelInit (reddata ed5) ed5) ed5).

(** The path with unit costs and one more edge, 1 - 3 of cost 0.5 (the
    edges 6 and 7). *)
Definition chord_graph : GRAPH :=
  {| knots := 4; edges := 8;
     term := [-1; -1; -1; -1];
     prize := None;
     cost := [1%Q; 1%Q; 1%Q; 1%Q; 1%Q; 1%Q; 0.5%Q; 0.5%Q];
     tail := [0; 1; 1; 2; 2; 3; 1; 3];
     head := [1; 0; 2; 1; 3; 2; 3; 1];
     outbeg := [0; 1; 3; 5];
     oeat := [-1; 2; 6; 4; -1; 7; -1; -1];
     dcsr_storage := {| dcsr_range := [(0, 1); (1, 4); (4, 6); (6, 8)];
                        dcsr_head := [1; 0; 2; 3; 1; 3; 2; 1];
                        dcsr_cost := [1%Q; 1%Q; 1%Q; 0.5%Q; 1%Q; 1%Q; 1%Q;
                                      0.5%Q] |};
     stp_pc := false |}.

(** A tree of the path, for the graph with the fourth edge: the set of
    equality-forbidden edges has one entry more. *)
Definition chord_tree (ed : EXTDATA) : EXTDATA :=
  set_sdeq [false; false; false; false] false [] ed.

(** The run of [line_run] in the graph with the edge 1 - 3: from the root
    to the tree 0 - 1 - 2 with the level for the extension of the leaf 2
    opened. *)
Definition chord_run `{Externals} : option EXTDATA :=
  ed0 ← extreduce_mstAddRootLevel 0 (chord_tree (line_root false));
  ed1 ← line_level chord_graph 0 0 ed0;
  ed2 ← line_extend chord_graph (chord_tree (line_tree1 false)) ed1;
  ed3 ← line_level chord_graph 2 1
           (set_reddata (reddata ed2) (chord_tree (line_tree1_next false)));
  ed4 ← line_extend chord_graph (chord_tree (line_tree2 false)) ed3;
  let ed5 := set_reddata (reddata ed4) (chord_tree (line_tree2_next false)) in
  Some (set_reddata (extreduce_mstLevelInit (reddata ed5) ed5) ed5).

(** The tests of [extreduce_mstLevelVerticalAddLeaf] that follow a trial
    extension that did not rule out: in the prize-collecting variant the
    tests against the tree vertices marked before, and, if these do not
    rule out, the tests against the inner nodes of the tree. *)
Definition mstLevelVerticalAddLeaf_nonLeafTests `{Externals} (g : GRAPH)
    (edge2neighbor : Z) (ed : EXTDATA) : option (EXTDATA * bool) :=
  '(ed4, ruled4) ← (if graph_pc_isPc g
                    then bottleneckCheckNonLeaves_pc g edge2neighbor ed
                    else Some (ed, false));
  if ruled4 : bool then Some (ed4, true)
  else bottleneckCheckNonLeaves g edge2neighbor ed4.

(** ** A leaf hung below a former leaf *)




(** ** The star and the path, as the engine reaches them *)







(** * Properties *)

(** ** Arrays *)

Lemma zset_length {A} (l : list A) i x : length (zset l i x) = length l.
Proof. unfold zset. destruct (i <? 0); [done | apply length_insert]. Qed.

Lemma zset_lookup {A} (l : list A) a x i y :
  zset l a x !! i = Some y ->
  (y = x /\ Z.of_nat i = a) \/ (Z.of_nat i <> a /\ l !! i = Some y).
Proof.
  unfold zset. destruct (Z.ltb_spec a 0) as [Hlt | Hge].
  { intros Hl. right. split; [lia | done]. }
  destruct (decide (Z.to_nat a = i)) as [<- | Hne].
  - intros Hl. destruct (decide (Z.to_nat a < length l)%nat) as [Hin | Hout].
    + rewrite list_lookup_insert_eq in Hl by done. left. split; [congruence | lia].
    + rewrite list_insert_ge in Hl by lia.
      apply lookup_lt_Some in Hl. lia.
  - rewrite list_lookup_insert_ne by done. intros Hl. right. split; [lia | done].
Qed.

Lemma zget_zset_eq {A} (d : A) l i x :
  0 <= i < Z.of_nat (length l) -> zget d (zset l i x) i = x.
Proof.
  intros Hi. unfold zget, zset.
  destruct (Z.ltb_spec i 0) as [Hlt | Hge]; [lia |].
  apply nth_lookup_Some. apply list_lookup_insert_eq. lia.
Qed.

Lemma zget_zset_ne {A} (d : A) l i j x :
  i <> j -> zget d (zset l i x) j = zget d l j.
Proof.
  intros Hne. unfold zget, zset.
  destruct (Z.ltb_spec j 0) as [Hj | Hj]; [done |].
  destruct (Z.ltb_spec i 0) as [Hi | Hi]; [done |].
  rewrite !nth_lookup. rewrite list_lookup_insert_ne by lia. done.
Qed.

Lemma zget_inrange_lookup {A} (d : A) l i :
  0 <= i < Z.of_nat (length l) -> l !! Z.to_nat i = Some (zget d l i).
Proof.
  intros Hi. unfold zget.
  destruct (Z.ltb_spec i 0) as [Hlt | Hge]; [lia |].
  destruct (lookup_lt_is_Some_2 l (Z.to_nat i)) as [y Hy]; [lia |].
  rewrite Hy. f_equal. symmetry. by apply nth_lookup_Some.
Qed.

Lemma zget_ne_default_inrange {A} (d : A) l i :
  zget d l i <> d -> 0 <= i < Z.of_nat (length l).
Proof.
  unfold zget. destruct (Z.ltb_spec i 0) as [Hlt | Hge]; [done |].
  intros Hne. split; [done |].
  destruct (decide (Z.to_nat i < length l)%nat) as [Hin | Hout]; [lia |].
  exfalso. apply Hne. apply nth_overflow. lia.
Qed.

Lemma Forall_const_eq {A} (c : A) (l1 l2 : list A) :
  length l1 = length l2 ->
  Forall (fun x => x = c) l1 -> Forall (fun x => x = c) l2 -> l1 = l2.
Proof.
  revert l2. induction l1 as [| a l1 IH]; intros [| b l2] Hlen H1 H2;
    simpl in *; try done.
  inversion H1; inversion H2; subst. f_equal. apply IH; [lia | done | done].
Qed.

(** ** Exact comparisons *)

Lemma Qltb_lt a b : Qltb a b = true <-> (a < b)%Q.
Proof.
  unfold Qltb. rewrite negb_true_iff, <- not_true_iff_false, Qle_bool_iff.
  split; intros; lra.
Qed.

Lemma Qltb_ge a b : Qltb a b = false <-> (b <= a)%Q.
Proof.
  unfold Qltb. rewrite negb_false_iff, Qle_bool_iff. done.
Qed.

(** ** Root paths of the extension tree *)

Lemma root_path_det pn v l1 l2 :
  root_path pn v l1 -> root_path pn v l2 -> l1 = l2.
Proof.
  intros H1. revert l2. induction H1 as [v Hr Hv | v p l Hv Hp H1 IH];
    intros l2 H2; inversion H2; subst; try congruence.
  f_equal. by apply IH.
Qed.

Lemma root_path_suffix pn v l x :
  root_path pn v l -> In x l ->
  exists l', root_path pn x l' /\ (length l' < length l)%nat.
Proof.
  induction 1 as [v Hr Hv | v p l Hv Hp H1 IH]; intros Hin; [done |].
  destruct Hin as [<- | Hin].
  - exists l. split; [done | simpl; lia].
  - destruct (IH Hin) as (l' & Hl' & Hlen). exists l'. split; [done | simpl; lia].
Qed.

Lemma root_path_not_in pn v l : root_path pn v l -> ~ In v l.
Proof.
  intros Hp Hin. destruct (root_path_suffix _ _ _ _ Hp Hin) as (l' & Hl' & Hlen).
  rewrite (root_path_det _ _ _ _ Hl' Hp) in Hlen. lia.
Qed.

Lemma root_path_NoDup pn v l : root_path pn v l -> List.NoDup (v :: l).
Proof.
  induction 1 as [v Hr Hv | v p l Hv Hp H1 IH].
  - constructor; [intros [] | constructor].
  - constructor; [| done].
    apply (root_path_not_in pn v (p :: l)). by eapply root_path_step.
Qed.

Lemma root_path_inrange pn v l :
  root_path pn v l ->
  List.Forall (fun x => 0 <= x < Z.of_nat (length pn)) (v :: l).
Proof.
  induction 1 as [v Hr Hv | v p l Hv Hp H1 IH].
  - constructor; [done | constructor].
  - constructor; [| done].
    apply (zget_ne_default_inrange (-1) pn v). by rewrite Hv.
Qed.

Lemma NoDup_inrange_length (l : list Z) (n : nat) :
  List.NoDup l -> List.Forall (fun x => 0 <= x < Z.of_nat n) l ->
  (length l <= n)%nat.
Proof.
  intros Hnd Hr.
  assert (Hnd' : List.NoDup (List.map Z.to_nat l)).
  { clear -Hnd Hr. induction l as [| a l IH]; [constructor |].
    inversion Hnd; inversion Hr; subst. simpl. constructor; [| by apply IH].
    intros Hin. apply in_map_iff in Hin as (b & Hb & Hbin).
    rewrite List.Forall_forall in H6. specialize (H6 _ Hbin).
    assert (a = b) by lia. by subst. }
  assert (Hincl : incl (List.map Z.to_nat l) (List.seq 0 n)).
  { intros k Hk. apply in_map_iff in Hk as (b & Hb & Hbin).
    rewrite List.Forall_forall in Hr. specialize (Hr _ Hbin).
    apply in_seq. lia. }
  pose proof (NoDup_incl_length Hnd' Hincl) as Hlen.
  by rewrite length_map, length_seq in Hlen.
Qed.

Lemma root_path_length pn v l :
  root_path pn v l -> (S (length l) <= length pn)%nat.
Proof.
  intros Hp. apply (NoDup_inrange_length (v :: l)).
  - by eapply root_path_NoDup.
  - by eapply root_path_inrange.
Qed.

(** ** Marking and unmarking the root path *)

Lemma unmarked_outside_nil bdn :
  unmarked_outside [] bdn -> Forall (fun x => x = (-1)%Q) bdn.
Proof.
  intros Hu. apply Forall_lookup. intros i x Hx.
  destruct (Hu i x Hx) as [-> | []]. done.
Qed.

Lemma unmarked_outside_all S bdn :
  Forall (fun x => x = (-1)%Q) bdn -> unmarked_outside S bdn.
Proof.
  intros Hall i x Hx. left. by apply (proj1 (Forall_lookup _ _) Hall i x).
Qed.

Lemma unmarked_outside_zset S bdn a x :
  In a S -> unmarked_outside S bdn -> unmarked_outside S (zset bdn a x).
Proof.
  intros Ha Hu i y Hy. apply zset_lookup in Hy as [[_ <-] | [_ Hy]].
  - by right.
  - by apply Hu.
Qed.

Lemma bottleneckMarkRootPath_loop_total g ed isPc anc :
  forall fuel c b bl bdn,
    root_path (tree_parentNode ed) c anc -> (length anc <= fuel)%nat ->
    exists bdn',
      bottleneckMarkRootPath_loop fuel g ed isPc c
        (zget (-1) (tree_parentNode ed) c) b bl bdn = Some bdn'
      /\ length bdn' = length bdn
      /\ forall S, incl anc S -> unmarked_outside S bdn ->
                   unmarked_outside S bdn'.
Proof.
  induction anc as [| p anc IH]; intros fuel c b bl bdn Hp Hfuel;
    inversion Hp as [v' Hr Hv | v' p' l' Hv Hpne Hp']; subst.
  - exists bdn. destruct fuel; simpl; rewrite Hv; simpl; done.
  - destruct fuel as [| fuel]; [simpl in Hfuel; lia |].
    simpl. destruct (Z.eqb_spec (zget (-1) (tree_parentNode ed) c) (-1)); [done |].
    edestruct (IH fuel (zget (-1) (tree_parentNode ed) c)) as (bdn' & Heq & Hlen & Hun);
      [done | simpl in Hfuel; lia |].
    exists bdn'. split; [exact Heq |]. split.
    + by rewrite Hlen, zset_length.
    + intros S Hincl Hu. apply Hun.
      * intros a Ha. apply Hincl. by right.
      * apply unmarked_outside_zset; [| done]. apply Hincl. by left.
Qed.

Lemma bottleneckUnmarkRootPath_loop_total ed anc :
  forall fuel c bdn,
    root_path (tree_parentNode ed) c anc -> (length anc <= fuel)%nat ->
    exists bdn',
      bottleneckUnmarkRootPath_loop fuel ed
        (zget (-1) (tree_parentNode ed) c) bdn = Some bdn'
      /\ length bdn' = length bdn
      /\ (unmarked_outside anc bdn -> Forall (fun x => x = (-1)%Q) bdn').
Proof.
  induction anc as [| p anc IH]; intros fuel c bdn Hp Hfuel;
    inversion Hp as [v' Hr Hv | v' p' l' Hv Hpne Hp']; subst.
  - exists bdn. split; [| split; [done | apply unmarked_outside_nil]].
    destruct fuel; simpl; rewrite Hv; simpl; done.
  - destruct fuel as [| fuel]; [simpl in Hfuel; lia |].
    simpl. destruct (Z.eqb_spec (zget (-1) (tree_parentNode ed) c) (-1)); [done |].
    edestruct (IH fuel (zget (-1) (tree_parentNode ed) c)) as (bdn' & Heq & Hlen & Hun);
      [done | simpl in Hfuel; lia |].
    exists bdn'. split; [exact Heq |]. split.
    + by rewrite Hlen, zset_length.
    + intros Hu. apply Hun. intros i y Hy.
      apply zset_lookup in Hy as [[-> _] | [Hne Hy]]; [by left |].
      destruct (Hu i y Hy) as [-> | [Heqp | Hin]]; [by left | congruence | by right].
Qed.

Lemma set_bottleneckDistNode_id ed b1 :
  set_bottleneckDistNode (tree_bottleneckDistNode ed)
    (set_bottleneckDistNode b1 ed) = ed.
Proof. by destruct ed. Qed.

Lemma bottleneckUnmarkRootPath_loop_frame b1 ed :
  forall fuel c b,
    bottleneckUnmarkRootPath_loop fuel (set_bottleneckDistNode b1 ed) c b
    = bottleneckUnmarkRootPath_loop fuel ed c b.
Proof.
  induction fuel as [| fuel IHf]; intros c b; simpl; [done |].
  destruct (c =? -1); [done | apply IHf].
Qed.

(** C7.  On a tree whose bottleneck array is unmarked (every entry -1),
    marking the root path of a tree vertex [v] and unmarking it again both
    return, and leave the extension data, hence the bottleneck array, exactly
    as they were. *)
Theorem bottleneck_mark_unmark_roundtrip (g : GRAPH) (ed : EXTDATA) (v : Z)
    (anc : list Z) :
  root_path (tree_parentNode ed) v anc ->
  Forall (fun x => x = (-1)%Q) (tree_bottleneckDistNode ed) ->
  exists ed1 ed2,
    bottleneckMarkRootPath g v ed = Some ed1
    /\ bottleneckUnmarkRootPath g v ed1 = Some ed2
    /\ ed2 = ed
    /\ tree_bottleneckDistNode ed2 = tree_bottleneckDistNode ed.
Proof.
  intros Hp Hall.
  pose proof (root_path_length _ _ _ Hp) as Hlen.
  destruct (Z.eqb_spec v (tree_root ed)) as [Hroot | Hroot].
  - destruct (bottleneckUnmarkRootPath_loop_total ed anc
                (length (tree_parentNode ed)) v
                (zset (zset (tree_bottleneckDistNode ed) v 0%Q) v (-1)%Q))
      as (bdn' & Heq & Hl & Hun); [done | lia |].
    assert (bdn' = tree_bottleneckDistNode ed) as ->.
    { apply (Forall_const_eq (-1)%Q); [by rewrite Hl, !zset_length | | done].
      apply Hun. intros i y Hy.
      apply zset_lookup in Hy as [[-> _] | [Hne Hy]]; [by left |].
      apply zset_lookup in Hy as [[_ Hi] | [_ Hy]]; [done |].
      left. by apply (proj1 (Forall_lookup _ _) Hall i y). }
    exists (set_bottleneckDistNode (zset (tree_bottleneckDistNode ed) v 0%Q) ed), ed.
    split; [| split; [| split; done]].
    + unfold bottleneckMarkRootPath.
      destruct (Z.eqb_spec v (tree_root ed)); [done | congruence].
    + unfold bottleneckUnmarkRootPath. simpl.
      destruct (Z.eqb_spec v (tree_root ed)); [| congruence].
      rewrite bottleneckUnmarkRootPath_loop_frame, Heq. simpl.
      f_equal. apply set_bottleneckDistNode_id.
  - destruct (bottleneckMarkRootPath_loop_total g ed (graph_pc_isPc g) anc
                (length (tree_parentNode ed)) v 0%Q 0%Q
                (tree_bottleneckDistNode ed))
      as (bdn1 & Heq1 & Hl1 & Hun1); [done | lia |].
    destruct (bottleneckUnmarkRootPath_loop_total ed anc
                (length (tree_parentNode ed)) v bdn1)
      as (bdn2 & Heq2 & Hl2 & Hun2); [done | lia |].
    assert (bdn2 = tree_bottleneckDistNode ed) as ->.
    { apply (Forall_const_eq (-1)%Q); [by rewrite Hl2, Hl1 | | done].
      apply Hun2, Hun1; [apply incl_refl |]. by apply unmarked_outside_all. }
    exists (set_bottleneckDistNode bdn1 ed), ed.
    split; [| split; [| split; done]].
    + unfold bottleneckMarkRootPath.
      destruct (Z.eqb_spec v (tree_root ed)); [congruence |].
      by rewrite Heq1.
    + unfold bottleneckUnmarkRootPath. simpl.
      destruct (Z.eqb_spec v (tree_root ed)); [congruence |].
      rewrite bottleneckUnmarkRootPath_loop_frame, Heq2. simpl.
      f_equal. apply set_bottleneckDistNode_id.
Qed.

(** ** The marked bottlenecks *)

Lemma bottleneckLocalStep_chain_accumulate g ed bl c :
  bottleneckLocalStep g ed (graph_pc_isPc g) bl c = chain_accumulate g ed bl c.
Proof.
  unfold bottleneckLocalStep, chain_accumulate.
  destruct (_ =? 2); [| done]. by destruct (_ && _).
Qed.

Lemma bottleneckRunMax_cases b a :
  (b <= bottleneckRunMax b a)%Q /\ (a <= bottleneckRunMax b a)%Q
  /\ (bottleneckRunMax b a = b \/ bottleneckRunMax b a = a).
Proof.
  unfold bottleneckRunMax. destruct (Qltb b a) eqn:E.
  - apply Qltb_lt in E. repeat split; [lra | lra | by right].
  - apply Qltb_ge in E. repeat split; [lra | lra | by left].
Qed.

Lemma bottleneck_marks_running_max g ed cs :
  forall b bl k m,
    nth_error (bottleneck_marks g ed (graph_pc_isPc g) b bl cs) k = Some m ->
    (b <= m)%Q
    /\ Forall (fun a => (a <= m)%Q) (take (S k) (chain_accumulators g ed bl cs))
    /\ (m = b \/ In m (take (S k) (chain_accumulators g ed bl cs))).
Proof.
  induction cs as [| c cs IH]; intros b bl k m Hk; [by destruct k |].
  simpl in Hk. rewrite bottleneckLocalStep_chain_accumulate in Hk.
  set (a := chain_accumulate g ed bl c) in *.
  destruct (bottleneckRunMax_cases b a) as (Hb & Ha & Hcase).
  destruct k as [| k]; simpl in Hk.
  - injection Hk as <-. simpl. fold a. rewrite take_0.
    split; [done |]. split; [by repeat constructor |].
    destruct Hcase as [-> | ->]; [by left | right; by left].
  - destruct (IH _ _ _ _ Hk) as (Hb' & Hall & Hin).
    change (take (S (S k)) (chain_accumulators g ed bl (c :: cs)))
      with (a :: take (S k) (chain_accumulators g ed a cs)).
    split; [lra |]. split; [constructor; [lra | done] |].
    destruct Hin as [-> | Hin]; [| right; by right].
    destruct Hcase as [-> | ->]; [by left | right; by left].
Qed.

Lemma bottleneckMarkRootPath_loop_marks g ed isPc anc :
  forall fuel c b bl bdn,
    root_path (tree_parentNode ed) c anc -> (length anc <= fuel)%nat ->
    length bdn = length (tree_parentNode ed) ->
    exists bdn',
      bottleneckMarkRootPath_loop fuel g ed isPc c
        (zget (-1) (tree_parentNode ed) c) b bl bdn = Some bdn'
      /\ (forall k a, anc !! k = Some a ->
             nth_error (bottleneck_marks g ed isPc b bl (c :: anc)) k
             = Some (zget 0%Q bdn' a))
      /\ (forall u, ~ In u anc -> zget 0%Q bdn' u = zget 0%Q bdn u).
Proof.
  induction anc as [| p anc IH]; intros fuel c b bl bdn Hp Hfuel Hlen;
    inversion Hp as [v' Hr Hv | v' p' l' Hv Hpne Hp']; subst.
  - exists bdn. split; [| split; [intros k a Hk; by destruct k | done]].
    destruct fuel; simpl; rewrite Hv; simpl; done.
  - destruct fuel as [| fuel]; [simpl in Hfuel; lia |].
    simpl bottleneckMarkRootPath_loop.
    destruct (Z.eqb_spec (zget (-1) (tree_parentNode ed) c) (-1)); [done |].
    set (p := zget (-1) (tree_parentNode ed) c) in *.
    set (bl' := bottleneckLocalStep g ed isPc bl c).
    set (b' := bottleneckRunMax b bl').
    destruct (IH fuel p b' bl' (zset bdn p b')) as (bdn' & Heq & Hmarks & Hother);
      [done | simpl in Hfuel; lia | by rewrite zset_length |].
    exists bdn'. split; [exact Heq |].
    pose proof (root_path_not_in _ _ _ Hp') as Hnotin.
    pose proof (root_path_inrange _ _ _ Hp') as Hrange.
    inversion Hrange as [| ? ? Hprange _]; subst.
    split.
    + intros k a Hk. destruct k as [| k]; simpl in Hk.
      * injection Hk as <-. simpl. f_equal. fold bl' b'.
        rewrite Hother by done. symmetry. apply zget_zset_eq. by rewrite Hlen.
      * simpl. fold bl' b'. by apply Hmarks.
    + intros u Hu. rewrite Hother.
      * apply zget_zset_ne. intros ->. apply Hu. by left.
      * intros Hin. apply Hu. by right.
Qed.

(** C3.  On a tree whose root path from [start] ends in the tree root,
    [bottleneckMarkRootPath] returns and sets, for the [k]-th proper ancestor
    of [start], the maximum of 0 and the first [k+1] chain accumulators of
    the spec (costs add up through degree-2 vertices, minus the prize of a
    prize-collecting terminal; any other degree restarts at the parent edge
    cost); the other entries keep their value.  On the path 0-1-2 with edge
    costs 1 and 1 and the non-leaf terminal 1 of prize 0.4, the bottleneck set
    at 0 from 2, and the bottleneck distance from 2 to the marked root 0, are
    both exactly 1.6. *)
Theorem bottleneckMarkRootPath_spec (g : GRAPH) (ed : EXTDATA) (start : Z)
    (anc : list Z) :
  root_path (tree_parentNode ed) start anc ->
  last (start :: anc) = Some (tree_root ed) ->
  length (tree_bottleneckDistNode ed) = length (tree_parentNode ed) ->
  (exists ed',
     bottleneckMarkRootPath g start ed = Some ed'
     /\ (forall k a, anc !! k = Some a ->
           is_running_max (zget 0%Q (tree_bottleneckDistNode ed') a)
             (take (S k) (chain_accumulators g ed 0 (start :: anc))))
     /\ (forall u, ~ In u (start :: anc) ->
           zget 0%Q (tree_bottleneckDistNode ed') u
           = zget 0%Q (tree_bottleneckDistNode ed) u))
  /\ (ed' ← bottleneckMarkRootPath pc_path_graph 2 pc_path_tree;
      Some (zget 0%Q (tree_bottleneckDistNode ed') 0,
            zget 0%Q (tree_bottleneckDistNode ed') 1))
     = Some (1.6%Q, 1%Q)
  /\ (ed' ← bottleneckMarkRootPath pc_path_graph 0 pc_path_tree;
      bottleneckGetDist pc_path_graph ed' 2) = Some 1.6%Q.
Proof.
  intros Hp Hlast Hlen. split; [| split; reflexivity].
  unfold bottleneckMarkRootPath.
  destruct (Z.eqb_spec start (tree_root ed)) as [Hroot | Hroot].
  - assert (anc = []) as ->.
    { destruct anc as [| p anc]; [done |]. exfalso.
      pose proof (root_path_NoDup _ _ _ Hp) as Hnd.
      apply NoDup_cons_iff in Hnd as [Hnotin _]. apply Hnotin.
      rewrite <- Hroot in Hlast.
      change (last (start :: p :: anc)) with (last (p :: anc)) in Hlast.
      apply list_elem_of_In. eapply list_elem_of_lookup_2.
      rewrite last_lookup in Hlast. exact Hlast. }
    eexists. split; [reflexivity |]. split; [intros k a Hk; by destruct k |].
    intros u Hu. simpl. apply zget_zset_ne. intros ->. apply Hu. by left.
  - pose proof (root_path_length _ _ _ Hp) as Hl.
    destruct (bottleneckMarkRootPath_loop_marks g ed (graph_pc_isPc g) anc
                (length (tree_parentNode ed)) start 0%Q 0%Q
                (tree_bottleneckDistNode ed))
      as (bdn' & Heq & Hmarks & Hother); [done | lia | done |].
    rewrite Heq. simpl. eexists. split; [reflexivity |]. simpl. split.
    + intros k a Hk.
      destruct (bottleneck_marks_running_max g ed (start :: anc) 0%Q 0%Q k _
                  (Hmarks k a Hk)) as (H0 & Hall & Hin).
      split; [done |]. split; [done |]. done.
    + intros u Hu. apply Hother. intros Hin. apply Hu. by right.
Qed.

(** ** The reset stack of the equality-forbidden edges *)

Lemma bottleneckMarkEqualityEdge_pushes g edge ed :
  0 <= edge ÷ 2 < Z.of_nat (length (sdeq_edgesIsForbidden ed)) ->
  sdeq_pushes ed (bottleneckMarkEqualityEdge g edge ed)
    (if sdeq_flag ed (edge ÷ 2) then [] else [edge ÷ 2]).
Proof.
  intros Hr. unfold bottleneckMarkEqualityEdge, sdeq_pushes, sdeq_flag.
  destruct (zget false (sdeq_edgesIsForbidden ed) (edge ÷ 2)) eqn:E; simpl.
  - rewrite app_nil_r. repeat split; try done.
  - rewrite zset_length. repeat split; try done.
    + by destruct H as [<- | []].
    + destruct H as [<- | []]. by apply zget_zset_eq.
    + intros id Hid. apply zget_zset_ne. intros <-. apply Hid. by left.
Qed.

Lemma sdeq_pushes_inv ed ed' new :
  sdeq_pushes ed ed' new -> List.NoDup new -> sdeq_inv ed -> sdeq_inv ed'.
Proof.
  intros (Hst & Hlen & Hnew & Hold & _ & _) Hnd [Hnd0 Hfl]. split.
  - rewrite Hst. apply List.NoDup_app; [done | done |].
    intros id Hin Hin'.
    destruct (Hnew id Hin') as [Hf _].
    rewrite (Hfl id Hin) in Hf. done.
  - intros id. rewrite Hst, in_app_iff. intros [Hin | Hin].
    + destruct (in_dec Z.eq_dec id new) as [Hn | Hn].
      * by apply Hnew.
      * rewrite Hold by done. by apply Hfl.
    + by apply Hnew.
Qed.

Lemma sdeq_pushes_trans ed ed1 ed2 new1 new2 :
  sdeq_pushes ed ed1 new1 -> sdeq_pushes ed1 ed2 new2 ->
  sdeq_pushes ed ed2 (new1 ++ new2).
Proof.
  intros (Hst1 & Hlen1 & Hnew1 & Hold1 & Hhas1 & Hid1)
         (Hst2 & Hlen2 & Hnew2 & Hold2 & Hhas2 & Hid2).
  assert (Hdisj : forall id, In id new2 -> ~ In id new1).
  { intros id H2 H1. destruct (Hnew1 id H1) as [_ Ht].
    destruct (Hnew2 id H2) as [Hf _]. congruence. }
  repeat split.
  - by rewrite Hst2, Hst1, app_assoc.
  - congruence.
  - apply in_app_iff in H as [H1 | H2].
    + by apply Hnew1.
    + rewrite <- Hold1 by by apply Hdisj. by apply Hnew2.
  - apply in_app_iff in H as [H1 | H2].
    + destruct (in_dec Z.eq_dec id new2) as [Hn | Hn]; [by apply Hnew2 |].
      rewrite Hold2 by done. by apply Hnew1.
    + by apply Hnew2.
  - intros id Hid. rewrite in_app_iff in Hid.
    rewrite Hold2, Hold1; tauto.
  - intros Hne. destruct new2 as [| x new2].
    + rewrite Hid2 by done. apply Hhas1. rewrite app_nil_r in Hne. done.
    + by apply Hhas2.
  - intros Hnil. apply app_eq_nil in Hnil as [-> ->].
    by rewrite Hid2, Hid1.
Qed.

Lemma sdeq_pushes_NoDup ed ed1 ed2 new1 new2 :
  sdeq_pushes ed ed1 new1 -> sdeq_pushes ed1 ed2 new2 ->
  List.NoDup new1 -> List.NoDup new2 -> List.NoDup (new1 ++ new2).
Proof.
  intros (_ & _ & Hnew1 & _) (_ & _ & Hnew2 & _) Hn1 Hn2.
  apply List.NoDup_app; [done | done |].
  intros id H1 H2.
  destruct (Hnew1 id H1) as [_ Ht].
  destruct (Hnew2 id H2) as [Hf _]. congruence.
Qed.

Lemma bottleneckMarkEqualityPath_find_inrange g ed currentNode :
  sdeq_edges_in_range g ed ->
  forall fuel e e',
    (e = EAT_LAST \/ 0 <= e ÷ 2 < Z.of_nat (length (sdeq_edgesIsForbidden ed))) ->
    bottleneckMarkEqualityPath_find fuel g currentNode e = Some (Some e') ->
    0 <= e' ÷ 2 < Z.of_nat (length (sdeq_edgesIsForbidden ed)).
Proof.
  intros Hr. induction fuel as [| fuel IH]; intros e e' He; simpl.
  - by destruct (e =? EAT_LAST).
  - destruct (Z.eqb_spec e EAT_LAST) as [| Hne]; [done |].
    destruct (_ =? currentNode).
    + intros [= <-]. by destruct He.
    + apply IH. unfold sdeq_edges_in_range in Hr.
      rewrite List.Forall_forall in Hr.
      destruct (Z.eq_dec (zget EAT_LAST (oeat g) e) EAT_LAST) as [| Hn]; [by left |].
      apply Hr. apply in_app_iff. right.
      pose proof (zget_ne_default_inrange _ _ _ Hn) as Hin.
      apply list_elem_of_In. eapply list_elem_of_lookup_2.
      by apply (zget_inrange_lookup EAT_LAST).
Qed.

Lemma bottleneckMarkEqualityPath_loop_pushes g path_end :
  forall fuel currentNode ed ed',
    sdeq_edges_in_range g ed ->
    bottleneckMarkEqualityPath_loop fuel g currentNode path_end ed = Some ed' ->
    exists new, sdeq_pushes ed ed' new /\ List.NoDup new.
Proof.
  induction fuel as [| fuel IH]; intros currentNode ed ed' Hr; simpl.
  - destruct (_ =? path_end); [| done]. intros [= <-].
    exists []. split; [| constructor]. unfold sdeq_pushes.
    rewrite app_nil_r. repeat split; try done.
  - destruct (_ =? path_end).
    { intros [= <-]. exists []. split; [| constructor]. unfold sdeq_pushes.
      rewrite app_nil_r. repeat split; try done. }
    destruct (bottleneckMarkEqualityPath_find _ g currentNode _) as [found |] eqn:Ef;
      [| done].
    simpl. intros Hloop.
    set (ed1 := match found with
                | Some e => bottleneckMarkEqualityEdge g e ed
                | None => ed
                end).
    assert (Hstep : exists new1, sdeq_pushes ed ed1 new1 /\ List.NoDup new1
                                 /\ tree_parentNode ed1 = tree_parentNode ed).
    { destruct found as [e |]; subst ed1.
      - eexists. split; [apply bottleneckMarkEqualityEdge_pushes |].
        + eapply bottleneckMarkEqualityPath_find_inrange; [done | | exact Ef].
          unfold sdeq_edges_in_range in Hr. rewrite List.Forall_forall in Hr.
          set (e0 := zget EAT_LAST (outbeg g) _).
          destruct (Z.eq_dec e0 EAT_LAST) as [| Hn]; [by left |].
          apply Hr. apply in_app_iff. left.
          pose proof (zget_ne_default_inrange _ _ _ Hn) as Hin.
          apply list_elem_of_In. eapply list_elem_of_lookup_2.
          by apply (zget_inrange_lookup EAT_LAST).
        + split.
          * destruct (sdeq_flag ed (e ÷ 2)); repeat constructor. intros [].
          * unfold bottleneckMarkEqualityEdge. by destruct (negb _).
      - exists []. split; [| split; [constructor | done]].
        unfold sdeq_pushes. rewrite app_nil_r. repeat split; try done. }
    destruct Hstep as (new1 & Hp1 & Hn1 & Hpn).
    assert (Hr1 : sdeq_edges_in_range g ed1).
    { unfold sdeq_edges_in_range. destruct Hp1 as (_ & -> & _). exact Hr. }
    destruct (IH _ ed1 ed' Hr1 Hloop) as (new2 & Hp2 & Hn2).
    exists (new1 ++ new2). split.
    + by eapply sdeq_pushes_trans.
    + by eapply sdeq_pushes_NoDup.
Qed.

Lemma sdeq_marked_inv g ed0 ed :
  sdeq_marked g ed0 ed ->
  sdeq_edges_in_range g ed0 -> sdeq_inv ed0 ->
  sdeq_edges_in_range g ed /\ sdeq_inv ed.
Proof.
  induction 1 as [| ed edge Hm IH Hr | ed ed' ps pe Hm IH Hpath];
    intros Hr0 Hi0; [done | |].
  - destruct (IH Hr0 Hi0) as [Hre Hie].
    pose proof (bottleneckMarkEqualityEdge_pushes g edge ed Hr) as Hp.
    split.
    + unfold sdeq_edges_in_range. destruct Hp as (_ & -> & _). exact Hre.
    + eapply sdeq_pushes_inv; [exact Hp | | done].
      destruct (sdeq_flag ed (edge ÷ 2)); repeat constructor. intros [].
  - destruct (IH Hr0 Hi0) as [Hre Hie].
    destruct (bottleneckMarkEqualityPath_loop_pushes _ _ _ _ _ _ Hre Hpath)
      as (new & Hp & Hnd).
    split.
    + unfold sdeq_edges_in_range. destruct Hp as (_ & -> & _). exact Hre.
    + by eapply sdeq_pushes_inv.
Qed.

(** C10.  With every adjacency edge inside the flag array: marking a single
    edge pushes its undirected id (edge divided by two) exactly when its flag
    is still false, then sets the flag and [sdeq_hasForbiddenEdges], and
    otherwise changes nothing; marking a path pushes a duplicate-free list of
    ids, each at the moment its flag flips from false to true, and sets
    [sdeq_hasForbiddenEdges] if it pushes any; hence in every state reached
    by such markings from a state with an empty reset stack, no id is twice on
    the stack and every id on it is flagged. *)
Theorem sdeq_resetStack_invariant (g : GRAPH) (ed0 : EXTDATA) :
  sdeq_edges_in_range g ed0 ->
  sdeq_resetStack ed0 = [] ->
  (forall ed edge,
     sdeq_marked g ed0 ed ->
     0 <= edge ÷ 2 < Z.of_nat (length (sdeq_edgesIsForbidden ed)) ->
     sdeq_pushes ed (bottleneckMarkEqualityEdge g edge ed)
       (if sdeq_flag ed (edge ÷ 2) then [] else [edge ÷ 2]))
  /\ (forall ed ed' path_start path_end,
        sdeq_marked g ed0 ed ->
        bottleneckMarkEqualityPath g path_start path_end ed = Some ed' ->
        exists new, sdeq_pushes ed ed' new /\ List.NoDup new)
  /\ (forall ed,
        sdeq_marked g ed0 ed ->
        List.NoDup (sdeq_resetStack ed)
        /\ forall id, In id (sdeq_resetStack ed) -> sdeq_flag ed id = true).
Proof.
  intros Hr0 Hst0.
  assert (Hi0 : sdeq_inv ed0).
  { split; rewrite Hst0; [constructor | intros ? []]. }
  split; [| split].
  - intros ed edge _ Hr. by apply bottleneckMarkEqualityEdge_pushes.
  - intros ed ed' ps pe Hm Hpath.
    destruct (sdeq_marked_inv _ _ _ Hm Hr0 Hi0) as [Hre _].
    by eapply bottleneckMarkEqualityPath_loop_pushes.
  - intros ed Hm. by destruct (sdeq_marked_inv _ _ _ Hm Hr0 Hi0) as [_ Hie].
Qed.

(** ** The tolerance order of the example instance *)

Lemma example_tolerance_order sd sdf :
  @ToleranceOrder (example_externals sd sdf).
Proof.
  assert (Heps : (0 < example_eps)%Q) by (unfold example_eps; lra).
  constructor; cbv [LE LT EQ example_externals].
  - intros a b.
    destruct (Qltb (a - b) (- example_eps)) eqn:E1;
      destruct (Qle_bool (Qabs (a - b)) example_eps) eqn:E2;
      cbv [orb].
    + apply Qltb_lt in E1. apply Qle_bool_iff. lra.
    + apply Qltb_lt in E1. apply Qle_bool_iff. lra.
    + apply Qle_bool_iff in E2. apply Qabs_Qle_condition in E2.
      apply Qle_bool_iff. lra.
    + apply Qltb_ge in E1. apply not_true_iff_false. intros E3.
      apply Qle_bool_iff in E3.
      apply not_true_iff_false in E2. apply E2. apply Qle_bool_iff.
      apply Qabs_Qle_condition. lra.
  - intros a b E1. apply Qltb_lt in E1. apply not_true_iff_false. intros E2.
    apply Qle_bool_iff in E2. apply Qabs_Qle_condition in E2. lra.
  - intros a. apply Qltb_ge. lra.
Qed.

(** ** The dominance tests at an unknown special distance *)

Section Dominance.
Context `{Externals} `{!ToleranceOrder}.

Lemma LE_false_LT_false a b : LE a b = false -> LT a b = false.
Proof. rewrite LE_LT_EQ. by intros [? ?]%orb_false_iff. Qed.

(** C4.  Every dominance test answers "not dominated", and leaves the
    state as it is, when the special distance it is given is ambiguous (the
    unknown -1, or FARAWAY) and is one it can receive by its assertions.
    The tests against ancestor leaves ([bottleneckIsDominated]) and against
    inner tree nodes ([bottleneckWithExtedgeIsDominated]) receive -1 for
    unknown and never FARAWAY; the sibling test
    ([bottleneckToSiblingIsDominated]) receives FARAWAY for unknown and
    never -1.  So the first two answer "not dominated" at -1 and the third
    at FARAWAY, whatever the other arguments are; a stored FARAWAY reaches
    the ancestor test of Stage 1 as -1 and is not dominated either; and
    the first two, given FARAWAY all the same, answer "not dominated"
    whenever the bottleneck distance and the extension edge cost are below
    FARAWAY. *)
Theorem dominance_tests_unknown_sd (g : GRAPH) (ed : EXTDATA)
    (vertex_pathmarked vertex_unmarked edge_forbidden extedge edge2sibling : Z)
    (specialDist : Q) :
  specialDist = (-1)%Q \/ specialDist = FARAWAY ->
  (sdIsNonTrivial_requires specialDist ->
   bottleneckIsDominated g vertex_pathmarked vertex_unmarked specialDist
     edge_forbidden ed = Some (ed, false)
   /\ bottleneckWithExtedgeIsDominated g extedge vertex_pathmarked
        vertex_unmarked specialDist ed = Some (ed, false))
  /\ (bottleneckToSiblingIsDominated_requires specialDist ->
      bottleneckToSiblingIsDominated g extedge edge2sibling specialDist ed
      = (ed, false))
  /\ bottleneckIsDominated g vertex_pathmarked vertex_unmarked (-1)%Q
       edge_forbidden ed = Some (ed, false)
  /\ bottleneckWithExtedgeIsDominated g extedge vertex_pathmarked
       vertex_unmarked (-1)%Q ed = Some (ed, false)
  /\ bottleneckToSiblingIsDominated g extedge edge2sibling FARAWAY ed
     = (ed, false)
  /\ ~ sdIsNonTrivial_requires FARAWAY
  /\ ~ bottleneckToSiblingIsDominated_requires (-1)
  /\ (forall adjedgecosts j,
        EQ (zget 0%Q adjedgecosts j) FARAWAY = true ->
        bottleneckIsDominated g vertex_pathmarked vertex_unmarked
          (ancestor_sd adjedgecosts j) edge_forbidden ed = Some (ed, false))
  /\ ((vertex_pathmarked = vertex_unmarked
       \/ exists bd, bottleneckGetDist g ed vertex_unmarked = Some bd
                     /\ LE FARAWAY bd = false) ->
      bottleneckIsDominated g vertex_pathmarked vertex_unmarked FARAWAY
        edge_forbidden ed = Some (ed, false)
      /\ (LE FARAWAY (zget 0%Q (cost g) extedge) = false ->
          bottleneckWithExtedgeIsDominated g extedge vertex_pathmarked
            vertex_unmarked FARAWAY ed = Some (ed, false))).
Proof.
  intros Hamb.
  assert (Hsib : bottleneckToSiblingIsDominated g extedge edge2sibling FARAWAY
                   ed = (ed, false)).
  { unfold bottleneckToSiblingIsDominated. by rewrite LT_irrefl. }
  assert (HnF : ~ sdIsNonTrivial_requires FARAWAY).
  { intros [_ Hlt]. by rewrite LT_irrefl in Hlt. }
  assert (HnM : ~ bottleneckToSiblingIsDominated_requires (-1)).
  { unfold bottleneckToSiblingIsDominated_requires. lra. }
  split; [| split; [| split; [done | split; [done | split; [done |]]]]].
  - intros Hreq. destruct Hamb as [-> | ->]; [done | by destruct HnF].
  - intros Hreq. destruct Hamb as [-> | ->]; [by destruct HnM | done].
  - split; [done |]. split; [done |]. split.
    { intros adj j Heq. unfold ancestor_sd. by rewrite Heq. }
    intros Hbd. split.
    + unfold bottleneckIsDominated.
      destruct (sdIsNonTrivial FARAWAY); [| done]. simpl.
      destruct Hbd as [-> | (bd & -> & Hle)]; [by rewrite Z.eqb_refl |].
      destruct (_ =? _); [done |]. simpl.
      by rewrite (LE_false_LT_false _ _ Hle), Hle.
    + intros Hc. unfold bottleneckWithExtedgeIsDominated.
      destruct (sdIsNonTrivial FARAWAY); [| done]. simpl.
      rewrite (LE_false_LT_false _ _ Hc), Hc.
      destruct Hbd as [-> | (bd & -> & Hle)]; [by rewrite Z.eqb_refl |].
      destruct (_ =? _); [done |]. simpl.
      by rewrite (LE_false_LT_false _ _ Hle), Hle.
Qed.

(** ** Stage 2 *)

(** C1 (as amended).  With the top component MST [M] spanning the tree
    leaves ([2 (n_leaves - 1)] directed entries), [w = weight(M)] and
    [c = tree_cost], minus the inner-node prize total in the prize-collecting
    variant, [mstCompRuleOut] decides by the rule of the spec: rule out iff
    [w < c], or [M] has more than two edges and [w <= c], or [n_leaves = 3]
    and [w = c] and the 3-leaf equality sub-check holds. *)
Theorem mstCompRuleOut_spec (g : GRAPH) (ed : EXTDATA) (M : CSR) :
  graph_csrdepo_getTopCSR (msts_comp (reddata ed)) = Some M ->
  nedges_max M = 2 * (tree_nleaves ed - 1) ->
  mstCompRuleOut g ed
  = Some (stage2_rule g ed M (reduce_dcmstGetWeight M) (mstTreeCost g ed)).
Proof.
  intros Htop Hedges. unfold mstCompRuleOut, stage2_rule, csr_nedges.
  rewrite Htop. simpl. f_equal.
  rewrite andb_false_r. rewrite Hedges.
  set (w := reduce_dcmstGetWeight M). set (c := mstTreeCost g ed).
  set (sub := mstEqComp3RuleOut g c ed).
  pose proof (LE_LT_EQ w c) as Hle. pose proof (LT_not_EQ w c) as Hlt.
  destruct (Z.eqb_spec (tree_nleaves ed) 3) as [H3 | H3].
  - rewrite H3. simpl. rewrite Hle.
    destruct (LT w c); destruct (EQ w c); destruct sub; simpl; try done.
    by specialize (Hlt eq_refl).
  - destruct (Z.ltb_spec 2 (2 * (tree_nleaves ed - 1))) as [Hgt | Hgt].
    + assert ((2 <? (2 * (tree_nleaves ed - 1)) ÷ 2) = true) as ->.
      { apply Z.ltb_lt. rewrite Z.mul_comm, Z.quot_mul by done. lia. }
      simpl. rewrite Hle.
      destruct (LT w c); destruct (EQ w c); simpl; try done.
    + assert ((2 <? (2 * (tree_nleaves ed - 1)) ÷ 2) = false) as ->.
      { apply Z.ltb_ge. rewrite Z.mul_comm, Z.quot_mul by done. lia. }
      simpl. destruct (LT w c); simpl; done.
Qed.

End Dominance.

(** In the example instance -1 is a special distance that the ancestor test
    can receive, and FARAWAY one that the sibling test can receive. *)
Lemma dominance_tests_unknown_sd_witness :
  @bottleneckIsDominated (example_externals no_sd no_sd) pc_path_graph 2 0
    (-1)%Q 2 pc_path_tree = Some (pc_path_tree, false)
  /\ @bottleneckWithExtedgeIsDominated (example_externals no_sd no_sd)
       pc_path_graph 1 2 0 (-1)%Q pc_path_tree = Some (pc_path_tree, false)
  /\ @bottleneckToSiblingIsDominated (example_externals no_sd no_sd)
       pc_path_graph 1 2 (@FARAWAY (example_externals no_sd no_sd))
       pc_path_tree = (pc_path_tree, false).
Proof.
  pose proof (@dominance_tests_unknown_sd (example_externals no_sd no_sd)
                (example_tolerance_order no_sd no_sd)
                pc_path_graph pc_path_tree 2 0 2 1 2 (-1)%Q (or_introl eq_refl))
    as (H1 & _).
  pose proof (@dominance_tests_unknown_sd (example_externals no_sd no_sd)
                (example_tolerance_order no_sd no_sd)
                pc_path_graph pc_path_tree 2 0 2 1 2
                (@FARAWAY (example_externals no_sd no_sd))
                (or_intror eq_refl))
    as (_ & H2 & _).
  destruct H1 as [Ha Hb].
  { split; [right |]; vm_compute; reflexivity. }
  split; [exact Ha |]. split; [exact Hb |].
  apply H2. unfold bottleneckToSiblingIsDominated_requires. by vm_compute.
Defined.

(** In the prize-collecting path of scenario 6 the component MST weighs 1.6
    and the tree costs 2 with an inner prize of 0.4: the weight minus the
    prize, 1.2, is below the tree cost, so the rule as the claim C1 states it
    rules out, while the code compares 1.6 with 2 - 0.4 and does not. *)
Lemma mstCompRuleOut_prize_on_weight :
  let X := example_externals no_sd no_sd in
  let M := {| nnodes := 2; nedges_max := 2; csr_start := [0; 1; 2];
              csr_head := [1; 0]; csr_cost := [1.6%Q; 1.6%Q] |} in
  @mstCompRuleOut X pc_path_graph pc_path_tree_mst = Some false
  /\ @stage2_rule X pc_path_graph pc_path_tree_mst M
       (@stage2_weight_stated X pc_path_graph pc_path_tree_mst M)
       (tree_cost pc_path_tree_mst) = true.
Proof. split; reflexivity. Qed.

Lemma mstCompRuleOut_spec_witness :
  let X := example_externals no_sd no_sd in
  @mstCompRuleOut X pc_path_graph pc_path_tree_mst = Some false.
Proof.
  intros X.
  exact (@mstCompRuleOut_spec X (example_tolerance_order no_sd no_sd)
           pc_path_graph pc_path_tree_mst _ eq_refl eq_refl).
Defined.

(** ** Retraction *)

(** C9 (as amended).  [level_remove] pops the top horizontal SD level and
    then the top levelbase MST exactly when the horizontal store has as many
    levels as the vertical one (the horizontal part of the level had been
    added), and in every case pops the top vertical SD level last; it keeps
    [n_csrs(levelbase_msts) = n_levels(horizontal_sds)].  [component_remove]
    pops the top component MST exactly when the depot holds more than
    [tree_depth + 1] MSTs, which turns [tree_depth + 2] into
    [tree_depth + 1]. *)
Theorem mstLevelRemove_spec (g : GRAPH) (r : REDDATA) (ed : EXTDATA) :
  (forall h hs l ls v vs,
     ml_levels (sds_horizontal r) = h :: hs ->
     depo_csrs (msts_levelbase r) = l :: ls ->
     ml_levels (sds_vertical r) = v :: vs ->
     length hs = length vs ->
     exists r',
       extreduce_mstLevelRemove r = Some r'
       /\ ml_levels (sds_horizontal r') = hs
       /\ depo_csrs (msts_levelbase r') = ls
       /\ ml_levels (sds_vertical r') = vs
       /\ msts_comp r' = msts_comp r)
  /\ (forall v vs,
        ml_levels (sds_vertical r) = v :: vs ->
        length (ml_levels (sds_horizontal r)) <> length (v :: vs) ->
        exists r',
          extreduce_mstLevelRemove r = Some r'
          /\ sds_horizontal r' = sds_horizontal r
          /\ msts_levelbase r' = msts_levelbase r
          /\ ml_levels (sds_vertical r') = vs
          /\ msts_comp r' = msts_comp r)
  /\ (forall r',
        extreduce_mstLevelRemove r = Some r' ->
        graph_csrdepo_getNcsrs (msts_levelbase r)
        = extreduce_mldistsNlevels (sds_horizontal r) ->
        graph_csrdepo_getNcsrs (msts_levelbase r')
        = extreduce_mldistsNlevels (sds_horizontal r'))
  /\ (0 <= tree_depth ed ->
      graph_csrdepo_getNcsrs (msts_comp (reddata ed)) = tree_depth ed + 2 ->
      exists ed' c,
        extreduce_mstCompRemove g ed = Some ed'
        /\ depo_csrs (msts_comp (reddata ed))
           = c :: depo_csrs (msts_comp (reddata ed'))
        /\ graph_csrdepo_getNcsrs (msts_comp (reddata ed')) = tree_depth ed' + 1)
  /\ (graph_csrdepo_getNcsrs (msts_comp (reddata ed)) <= tree_depth ed + 1 ->
      extreduce_mstCompRemove g ed = Some ed).
Proof.
  unfold extreduce_mstLevelRemove, extreduce_mstCompRemove,
    extreduce_mldistsNlevels, graph_csrdepo_getNcsrs,
    extreduce_mldistsLevelRemoveTop, graph_csrdepo_removeTop.
  repeat split.
  - intros h hs l ls v vs Hh Hl Hv Hlen. rewrite Hh, Hv, Hl.
    destruct (Z.eqb_spec (Z.of_nat (length (h :: hs)))
                (Z.of_nat (length (v :: vs)))) as [_ | Hne];
      [| simpl in Hne; lia].
    simpl. rewrite Hv. simpl.
    eexists. split; [reflexivity |]. by simpl.
  - intros v vs Hv Hne. rewrite Hv.
    destruct (Z.eqb_spec (Z.of_nat (length (ml_levels (sds_horizontal r))))
                (Z.of_nat (length (v :: vs)))) as [Heq | _]; [lia |].
    simpl. rewrite Hv. simpl. eexists. split; [reflexivity |]. by simpl.
  - intros r'.
    destruct (Z.eqb_spec (Z.of_nat (length (ml_levels (sds_horizontal r))))
                (Z.of_nat (length (ml_levels (sds_vertical r))))) as [Heq | _].
    + destruct (ml_levels (sds_horizontal r)) as [| h hs]; [done |].
      destruct (depo_csrs (msts_levelbase r)) as [| l ls]; [done |].
      simpl. destruct (ml_levels (sds_vertical r)) as [| v vs]; [done |].
      simpl. intros [= <-]. simpl. lia.
    + simpl. destruct (ml_levels (sds_vertical r)) as [| v vs]; [done |].
      simpl. by intros [= <-].
  - intros Hd Hn.
    destruct (Z.ltb_spec (tree_depth ed)
                (Z.of_nat (length (depo_csrs (msts_comp (reddata ed)))) - 1))
      as [_ | Hge]; [| lia].
    destruct (depo_csrs (msts_comp (reddata ed))) as [| c cs] eqn:E;
      [simpl in Hn; lia |].
    simpl. eexists _, c. split; [reflexivity |]. simpl. split; [done |].
    rewrite length_cons in Hn. lia.
  - intros Hn.
    destruct (Z.ltb_spec (tree_depth ed)
                (Z.of_nat (length (depo_csrs (msts_comp (reddata ed)))) - 1))
      as [Hlt | _]; [lia | done].
Qed.

(** After a [level_init] whose leaves were all ruled out, the horizontal part
    of the level was never added: [level_remove] pops the vertical level only
    and leaves the top horizontal level and the top levelbase MST in place,
    against the claim C9 as stated. *)
Lemma mstLevelRemove_vertical_only :
  exists r',
    extreduce_mstLevelRemove reddata_vertical_ahead = Some r'
    /\ ml_levels (sds_horizontal r')
       = ml_levels (sds_horizontal reddata_vertical_ahead)
    /\ ml_levels (sds_horizontal r')
       <> List.tl (ml_levels (sds_horizontal reddata_vertical_ahead))
    /\ depo_csrs (msts_levelbase r')
       <> List.tl (depo_csrs (msts_levelbase reddata_vertical_ahead)).
Proof. eexists. split; [reflexivity |]. by simpl. Qed.

(** ** The theorems at the path of scenario 6 *)

Lemma pc_path_root_path : root_path (tree_parentNode pc_path_tree) 2 [1; 0].
Proof.
  apply root_path_step; [reflexivity | done |].
  apply root_path_step; [reflexivity | done |].
  apply root_path_root; [simpl; lia | reflexivity].
Qed.

Lemma bottleneckMarkRootPath_spec_witness :
  root_path (tree_parentNode pc_path_tree) 2 [1; 0]
  /\ exists ed',
       bottleneckMarkRootPath pc_path_graph 2 pc_path_tree = Some ed'
       /\ is_running_max (zget 0%Q (tree_bottleneckDistNode ed') 0)
            (take 2 (chain_accumulators pc_path_graph pc_path_tree 0 [2; 1; 0])).
Proof.
  split; [exact pc_path_root_path |].
  destruct (bottleneckMarkRootPath_spec pc_path_graph pc_path_tree 2 [1; 0]
              pc_path_root_path eq_refl eq_refl)
    as [(ed' & Hmark & Hmax & _) _].
  exists ed'. split; [exact Hmark |]. exact (Hmax 1%nat 0 eq_refl).
Defined.

Lemma bottleneck_mark_unmark_roundtrip_witness :
  root_path (tree_parentNode pc_path_tree) 2 [1; 0]
  /\ Forall (fun x => x = (-1)%Q) (tree_bottleneckDistNode pc_path_tree)
  /\ exists ed1,
       bottleneckMarkRootPath pc_path_graph 2 pc_path_tree = Some ed1
       /\ bottleneckUnmarkRootPath pc_path_graph 2 ed1 = Some pc_path_tree.
Proof.
  assert (Hall : Forall (fun x => x = (-1)%Q)
                   (tree_bottleneckDistNode pc_path_tree)).
  { repeat constructor. }
  split; [exact pc_path_root_path |]. split; [exact Hall |].
  destruct (bottleneck_mark_unmark_roundtrip pc_path_graph pc_path_tree 2
              [1; 0] pc_path_root_path Hall)
    as (ed1 & ed2 & Hmark & Hunmark & Heq & _).
  exists ed1. split; [exact Hmark |]. rewrite <- Heq. exact Hunmark.
Defined.

Lemma pc_path_edges_in_range : sdeq_edges_in_range pc_path_graph pc_path_tree.
Proof.
  unfold sdeq_edges_in_range. simpl.
  repeat (constructor; [first [by left | right; vm_compute; split; congruence] |]).
  constructor.
Qed.

Lemma sdeq_resetStack_invariant_witness :
  sdeq_edges_in_range pc_path_graph pc_path_tree
  /\ sdeq_resetStack pc_path_tree = []
  /\ sdeq_pushes pc_path_tree
       (bottleneckMarkEqualityEdge pc_path_graph 2 pc_path_tree) [1]
  /\ forall ed',
       bottleneckMarkEqualityPath pc_path_graph 2 0 pc_path_tree = Some ed' ->
       List.NoDup (sdeq_resetStack ed')
       /\ forall id, In id (sdeq_resetStack ed') -> sdeq_flag ed' id = true.
Proof.
  split; [exact pc_path_edges_in_range |]. split; [reflexivity |].
  destruct (sdeq_resetStack_invariant pc_path_graph pc_path_tree
              pc_path_edges_in_range eq_refl) as (Hedge & _ & Hinv).
  split.
  - apply (Hedge pc_path_tree 2); [constructor | vm_compute; split; congruence].
  - intros ed' Hpath. apply Hinv.
    eapply sdeq_marked_path; [constructor | exact Hpath].
Defined.

(** ** Unmarking and leaving a leaf always succeed *)

Section TrialExtension.
Context `{Externals}.

Lemma bottleneckUnmarkRootPath_total g ed v anc :
  root_path (tree_parentNode ed) v anc ->
  exists ed', bottleneckUnmarkRootPath g v ed = Some ed'.
Proof.
  intros Hp. pose proof (root_path_length _ _ _ Hp) as Hlen.
  unfold bottleneckUnmarkRootPath.
  edestruct (bottleneckUnmarkRootPath_loop_total ed anc
               (length (tree_parentNode ed)) v) as (bdn' & -> & _);
    [done | lia |].
  simpl. by eexists.
Qed.

Lemma mstLevelLeafExit_ruledOut_total g neighbor_base neighbor ed adjcosts anc :
  extreduce_mldistsEmptySlotTargetDistsDirty (sds_vertical (reddata ed))
  = Some adjcosts ->
  root_path (tree_parentNode ed) neighbor_base anc ->
  exists ed', mstLevelLeafExit g neighbor_base neighbor true ed = Some ed'.
Proof.
  intros Hadj Hp. unfold mstLevelLeafExit.
  unfold extreduce_mldistsEmptySlotTargetDistsDirty in Hadj.
  unfold extreduce_mldistsEmptySlotReset.
  destruct (ml_emptyslot (sds_vertical (reddata ed))) as [s |]; [| done].
  simpl.
  edestruct (bottleneckUnmarkRootPath_total g
               (set_reddata
                  (set_sds_vertical
                     {| ml_levels := ml_levels (sds_vertical (reddata ed));
                        ml_emptyslot :=
                          Some {| slot_base := -1; slot_ids := [];
                                  slot_dists := [] |} |}
                     (reddata ed)) ed) neighbor_base anc) as (ed' & ->);
    [exact Hp |].
  simpl. destruct (graph_pc_isPc g); by eexists.
Qed.

End TrialExtension.

(** ** Closing a level: the new levelbase MST *)







Section LevelClose.
Context `{Externals}.







End LevelClose.

(** ** What the bottleneck tests leave alone *)

Lemma frame_refl ed : frame ed ed.
Proof. done. Qed.

Lemma frame_trans ed1 ed2 ed3 : frame ed1 ed2 -> frame ed2 ed3 -> frame ed1 ed3.
Proof. intros (? & ? & ?) (? & ? & ?). repeat split; congruence. Qed.

Section Frames.
Context `{Externals}.

Lemma bottleneckMarkRootPath_frame g v ed ed' :
  bottleneckMarkRootPath g v ed = Some ed' -> frame ed ed'.
Proof.
  unfold bottleneckMarkRootPath. destruct (_ =? _); [by intros [= <-] |].
  destruct (bottleneckMarkRootPath_loop _ _ _ _ _ _ _ _ _); simpl; [| done].
  by intros [= <-].
Qed.

Lemma bottleneckUnmarkRootPath_frame g v ed ed' :
  bottleneckUnmarkRootPath g v ed = Some ed' -> frame ed ed'.
Proof.
  unfold bottleneckUnmarkRootPath.
  destruct (bottleneckUnmarkRootPath_loop _ _ _ _); simpl; [| done].
  by intros [= <-].
Qed.

Lemma bottleneckMarkEqualityEdge_frame g e ed :
  frame ed (bottleneckMarkEqualityEdge g e ed).
Proof. unfold bottleneckMarkEqualityEdge. by destruct (negb _). Qed.

Lemma bottleneckMarkEqualityPath_loop_frame g path_end :
  forall fuel currentNode ed ed',
    bottleneckMarkEqualityPath_loop fuel g currentNode path_end ed = Some ed' ->
    frame ed ed'.
Proof.
  induction fuel as [| fuel IH]; intros currentNode ed ed'; simpl.
  - destruct (_ =? _); [by intros [= <-] | done].
  - destruct (_ =? _); [by intros [= <-] |].
    destruct (bottleneckMarkEqualityPath_find _ _ _ _) as [found |]; simpl;
      [| done].
    intros Hl. eapply frame_trans; [| exact (IH _ _ _ Hl)].
    destruct found as [e |]; [| done].
    apply (bottleneckMarkEqualityEdge_frame g e ed).
Qed.

Lemma bottleneckMarkEqualityEdges_up_frame g isPc dist_eq :
  forall fuel currentNode bs bl ed ed',
    bottleneckMarkEqualityEdges_up fuel g isPc dist_eq currentNode bs bl ed
    = Some (inl ed') -> frame ed ed'.
Proof.
  induction fuel as [| fuel IH]; intros currentNode bs bl ed ed'; simpl.
  - by destruct (Qltb _ _).
  - destruct (Qltb _ _); [| done]. destruct (EQ _ _); [| apply IH].
    destruct (bottleneckMarkEqualityPath _ _ _ _) as [ed1 |] eqn:E; simpl;
      [| done].
    intros [= <-]. by eapply bottleneckMarkEqualityPath_loop_frame.
Qed.

Lemma bottleneckMarkEqualityEdges_down_frame g isPc dist_eq vpm ancestor :
  forall fuel currentNode bs bl ed ed',
    bottleneckMarkEqualityEdges_down fuel g isPc dist_eq vpm ancestor
      currentNode bs bl ed = Some ed' -> frame ed ed'.
Proof.
  induction fuel as [| fuel IH]; intros currentNode bs bl ed ed'; simpl.
  - destruct (_ =? _); [by intros [= <-] | done].
  - destruct (_ =? _); [by intros [= <-] |]. destruct (EQ _ _); [| apply IH].
    apply bottleneckMarkEqualityPath_loop_frame.
Qed.

Lemma bottleneckMarkEqualityEdges_frame g dist_eq vpm vu ed ed' :
  bottleneckMarkEqualityEdges g dist_eq vpm vu ed = Some ed' -> frame ed ed'.
Proof.
  unfold bottleneckMarkEqualityEdges.
  destruct (_ =? _); simpl.
  - apply bottleneckMarkEqualityEdges_down_frame.
  - destruct (bottleneckMarkEqualityEdges_up _ _ _ _ _ _ _ _) as [[ed1 | a] |]
      eqn:E; simpl; [| | done].
    + intros [= <-]. by eapply bottleneckMarkEqualityEdges_up_frame.
    + apply bottleneckMarkEqualityEdges_down_frame.
Qed.

Lemma bottleneckIsDominated_frame g vpm vu sd ef ed ed' b :
  bottleneckIsDominated g vpm vu sd ef ed = Some (ed', b) -> frame ed ed'.
Proof.
  unfold bottleneckIsDominated. destruct (_ || _); [by intros [= <- _] |].
  destruct (bottleneckGetDist _ _ _); simpl; [| done].
  destruct (LT _ _); [by intros [= <- _] |].
  destruct (LE _ _); [| by intros [= <- _]].
  destruct (bottleneckIsEqualityDominated _ _ _ _ _ _); [| by intros [= <- _]].
  destruct (bottleneckMarkEqualityEdges _ _ _ _ _) eqn:E; simpl; [| done].
  intros [= <- _]. by eapply bottleneckMarkEqualityEdges_frame.
Qed.

Lemma bottleneckWithExtedgeIsDominated_frame g e vpm vu sd ed ed' b :
  bottleneckWithExtedgeIsDominated g e vpm vu sd ed = Some (ed', b) ->
  frame ed ed'.
Proof.
  unfold bottleneckWithExtedgeIsDominated.
  assert (Htest : forall ed' b,
    (if vpm =? vu then Some (ed, false)
     else bottleneckDist ← bottleneckGetDist g ed vu;
          if LT sd bottleneckDist then Some (ed, true)
          else if LE sd bottleneckDist then
            if bottleneckIsEqualityDominated g sd e (zget (-1) (head g) e) vu ed
            then ed'0 ← bottleneckMarkEqualityEdges g sd vpm vu ed;
                 Some (ed'0, true)
            else Some (ed, false)
          else Some (ed, false)) = Some (ed', b) -> frame ed ed').
  { clear ed' b. intros ed' b. destruct (_ =? _); [by intros [= <- _] |].
    destruct (bottleneckGetDist _ _ _); simpl; [| done].
    destruct (LT _ _); [by intros [= <- _] |].
    destruct (LE _ _); [| by intros [= <- _]].
    destruct (bottleneckIsEqualityDominated _ _ _ _ _ _); [| by intros [= <- _]].
    destruct (bottleneckMarkEqualityEdges _ _ _ _ _) eqn:E; simpl; [| done].
    intros [= <- _]. by eapply bottleneckMarkEqualityEdges_frame. }
  destruct (negb _); [by intros [= <- _] |].
  destruct (LT _ _); [by intros [= <- _] |].
  destruct (LE _ _); [| apply Htest].
  destruct (bottleneckIsEqualityDominated _ _ _ _ _ _); [| apply Htest].
  intros [= <- _]. apply bottleneckMarkEqualityEdge_frame.
Qed.

Lemma bottleneckToSiblingIsDominated_frame g e e2 sd ed :
  frame ed (fst (bottleneckToSiblingIsDominated g e e2 sd ed)).
Proof.
  unfold bottleneckToSiblingIsDominated.
  destruct (negb _); [done |]. destruct (LT _ _); [done |].
  destruct (LT _ _); [done |].
  destruct (_ && _); [apply bottleneckMarkEqualityEdge_frame |].
  destruct (_ && _); [apply bottleneckMarkEqualityEdge_frame | done].
Qed.

Lemma pcSdToNodeMark_frame g v ed : frame ed (pcSdToNodeMark g v ed).
Proof.
  unfold pcSdToNodeMark. destruct (pcSdToNode _); [| done].
  destruct (zget _ _ _). by destruct (pcSdToNodeMark_outer _ _ _ _ _ _ _) as [[? ?] ?].
Qed.

Lemma pcSdToNodeUnmark_frame g v ed : frame ed (pcSdToNodeUnmark g v ed).
Proof. unfold pcSdToNodeUnmark. by destruct (pcSdToNode _). Qed.

Lemma bottleneckCheckNonLeaves_pc_loop_frame g e n nb :
  forall cs ed ed' b,
    bottleneckCheckNonLeaves_pc_loop g e n nb cs ed = Some (ed', b) ->
    frame ed ed'.
Proof.
  induction cs as [| c cs IH]; intros ed ed' b; simpl; [by intros [= <- _] |].
  destruct (_ <=? _); [apply IH |].
  destruct (bottleneckWithExtedgeIsDominated _ _ _ _ _ _) as [[ed1 d] |] eqn:E;
    simpl; [| done].
  apply bottleneckWithExtedgeIsDominated_frame in E.
  destruct d; [by intros [= <- _] |].
  intros Hl. eapply frame_trans; [exact E | exact (IH _ _ _ Hl)].
Qed.

Lemma bottleneckCheckNonLeaves_loop_frame g e n nb :
  forall idxs ed ed' b,
    bottleneckCheckNonLeaves_loop g e n nb idxs ed = Some (ed', b) ->
    frame ed ed'.
Proof.
  induction idxs as [| i idxs IH]; intros ed ed' b; simpl;
    [by intros [= <- _] |].
  destruct (bottleneckWithExtedgeIsDominated _ _ _ _ _ _) as [[ed1 d] |] eqn:E;
    simpl; [| done].
  apply bottleneckWithExtedgeIsDominated_frame in E.
  destruct d; [by intros [= <- _] |].
  intros Hl. eapply frame_trans; [exact E | exact (IH _ _ _ Hl)].
Qed.

Lemma mstCompLeafGetSDsToSiblings_loop_frame g e2t topleaf :
  forall idxs hit sds ed ed' sds' b,
    mstCompLeafGetSDsToSiblings_loop g e2t topleaf idxs hit sds ed
    = Some (ed', sds', b) -> frame ed ed'.
Proof.
  induction idxs as [| i idxs IH]; intros hit sds ed ed' sds' b; simpl;
    [by intros [= <- _ _] |].
  destruct (_ =? topleaf); [apply IH |].
  destruct (extreduce_mldistsTopTargetDist _ _ _) as [sd |]; simpl; [| done].
  destruct (negb (_ =? _)).
  - destruct (bottleneckIsDominated _ _ _ _ _ _) as [[ed1 d] |] eqn:E; simpl;
      [| done].
    apply bottleneckIsDominated_frame in E.
    destruct d; [by intros [= <- _ _] |].
    intros Hl. eapply frame_trans; [exact E | exact (IH _ _ _ _ _ _ Hl)].
  - destruct (negb hit); [apply IH |].
    pose proof (bottleneckToSiblingIsDominated_frame g e2t
                  (zget (-1) (extstack_data ed) i) sd ed) as E.
    destruct (bottleneckToSiblingIsDominated _ _ _ _ _) as [ed1 d].
    simpl in E. destruct d; [by intros [= <- _ _] |].
    intros Hl. eapply frame_trans; [exact E | exact (IH _ _ _ _ _ _ Hl)].
Qed.

Lemma mstCompLeafGetSDsToAncestors_loop_frame g e2l topleaf adj :
  forall js ed ed' b,
    mstCompLeafGetSDsToAncestors_loop g e2l topleaf adj js ed = Some (ed', b) ->
    frame ed ed'.
Proof.
  induction js as [| j js IH]; intros ed ed' b; simpl; [by intros [= <- _] |].
  destruct (bottleneckIsDominated _ _ _ _ _ _) as [[ed1 d] |] eqn:E; simpl;
    [| done].
  apply bottleneckIsDominated_frame in E.
  destruct d; [by intros [= <- _] |].
  intros Hl. eapply frame_trans; [exact E | exact (IH _ _ _ Hl)].
Qed.

Lemma mstCompLeafGetSDs_frame g e2l ed ed' sds b :
  mstCompLeafGetSDs g e2l ed = Some (ed', sds, b) -> frame ed ed'.
Proof.
  unfold mstCompLeafGetSDs, mstCompLeafGetSDsToSiblings,
    mstCompLeafGetSDsToAncestors.
  set (topleaf := zget (-1) (head g) e2l).
  assert (Hmark : forall (c : bool) e e',
            (if c then bottleneckMarkRootPath g topleaf e else Some e) = Some e' ->
            frame e e').
  { intros [] e e'; [apply bottleneckMarkRootPath_frame | by intros [= <-]]. }
  assert (Hunmark : forall (c : bool) e e',
            (if c then bottleneckUnmarkRootPath g topleaf e else Some e) = Some e' ->
            frame e e').
  { intros [] e e'; [apply bottleneckUnmarkRootPath_frame | by intros [= <-]]. }
  destruct (if extIsAtInitialGenStar ed then _ else _) as [ed1 |] eqn:E1;
    simpl; [| done].
  apply Hmark in E1.
  destruct (mstCompLeafGetSDsToSiblings_loop _ _ _ _ _ _ _)
    as [[[ed2 sds2] r2] |] eqn:E2; simpl; [| done].
  apply mstCompLeafGetSDsToSiblings_loop_frame in E2.
  destruct (if extIsAtInitialGenStar ed then _ else _) as [ed3 |] eqn:E3;
    simpl; [| done].
  apply Hunmark in E3.
  assert (F3 : frame ed ed3) by eauto using frame_trans.
  destruct r2; [by intros [= <- _ _] |].
  destruct (extreduce_mldistsTopTargetDists _ _) as [adj |]; simpl; [| done].
  destruct (_ || _); [| by intros [= <- _ _]].
  destruct (bottleneckMarkRootPath g topleaf ed3) as [ed4 |] eqn:E4; simpl;
    [| done].
  apply bottleneckMarkRootPath_frame in E4.
  destruct (mstCompLeafGetSDsToAncestors_loop _ _ _ _ _ _) as [[ed5 r5] |] eqn:E5;
    simpl; [| done].
  apply mstCompLeafGetSDsToAncestors_loop_frame in E5.
  destruct (bottleneckUnmarkRootPath g topleaf ed5) as [ed6 |] eqn:E6; simpl;
    [| done].
  apply bottleneckUnmarkRootPath_frame in E6.
  intros [= <- _ _]. eauto using frame_trans.
Qed.

Lemma mstCompBuildMst_loop_frame g :
  forall idxs x ed ed' x' b,
    mstCompBuildMst_loop g idxs x ed = Some (ed', x', b) -> frame ed ed'.
Proof.
  induction idxs as [| i idxs IH]; intros x ed ed' x' b; simpl;
    [by intros [= <- _ _] |].
  unfold mstCompAddLeaf.
  destruct (mstCompLeafGetSDs _ _ _) as [[[ed1 adj] r] |] eqn:E; simpl; [| done].
  apply mstCompLeafGetSDs_frame in E.
  destruct r; simpl; [by intros [= <- _ _] |].
  intros Hl. eapply frame_trans; [exact E | exact (IH _ _ _ _ _ Hl)].
Qed.

Lemma mstCompBuildMst_frame g ed ed' b :
  mstCompBuildMst g ed = Some (ed', b) -> frame ed ed'.
Proof.
  unfold mstCompBuildMst.
  destruct (graph_csrdepo_getTopCSR _) as [base |]; simpl; [| done].
  destruct (mstCompBuildMst_loop _ _ _ _) as [[[ed1 x1] r] |] eqn:E; simpl;
    [| done].
  apply mstCompBuildMst_loop_frame in E.
  assert (F : forall d, frame ed (set_reddata (set_msts_comp d (reddata ed1)) ed1)).
  { intros d. eapply frame_trans; [| exact E]. done. }
  destruct r; simpl.
  - destruct (graph_csrdepo_removeTop _); simpl; [| done].
    intros [= <- _]. apply F.
  - intros [= <- _]. apply F.
Qed.

Lemma extreduce_mstRuleOutPeriph_frame g ed ed' b :
  extreduce_mstRuleOutPeriph g ed = Some (ed', b) -> frame ed ed'.
Proof.
  unfold extreduce_mstRuleOutPeriph.
  destruct (mstCompBuildMst g ed) as [[ed1 r] |] eqn:E; simpl; [| done].
  apply mstCompBuildMst_frame in E.
  destruct r; [by intros [= <- _] |].
  destruct (mstCompRuleOut _ _); simpl; [| done]. by intros [= <- _].
Qed.

End Frames.

(** ** Ranges of indices and writes to a slot *)

Lemma seqZ_of_to_nat k m : seqZ k m = seqZ k (Z.of_nat (Z.to_nat m)).
Proof. unfold seqZ. by rewrite Nat2Z.id. Qed.

Lemma seqZ_S k n : seqZ k (Z.of_nat (S n)) = k :: seqZ (k + 1) (Z.of_nat n).
Proof.
  rewrite seqZ_cons by lia. f_equal. f_equal; lia.
Qed.

Lemma slot_write_append l x :
  slot_write l (Z.of_nat (length l)) x = l ++ [x].
Proof.
  unfold slot_write.
  destruct (Z.ltb_spec (Z.of_nat (length l)) 0); [lia |].
  destruct (Z.ltb_spec (Z.of_nat (length l)) (Z.of_nat (length l))); [lia |].
  by rewrite Nat2Z.id, Nat.sub_diag.
Qed.

Lemma slot_write_inrange_Forall (P : Q -> Prop) l j x :
  j < Z.of_nat (length l) -> Forall P l -> P x ->
  Forall P (slot_write l j x) /\ length (slot_write l j x) = length l.
Proof.
  intros Hj Hl Hx. unfold slot_write.
  destruct (Z.ltb_spec j 0); [done |].
  destruct (Z.ltb_spec j (Z.of_nat (length l))); [| lia].
  split; [| apply length_insert].
  apply Forall_insert; done.
Qed.

(** ** Stage 1: the tests against the ancestor leaves *)

Section AncestorTests.
Context `{Externals}.



Lemma bottleneckMarkRootPath_total g ed v anc :
  root_path (tree_parentNode ed) v anc ->
  exists bdn, bottleneckMarkRootPath g v ed
              = Some (set_bottleneckDistNode bdn ed).
Proof.
  intros Hp. pose proof (root_path_length _ _ _ Hp) as Hlen.
  unfold bottleneckMarkRootPath. destruct (_ =? _); [by eexists |].
  edestruct (bottleneckMarkRootPath_loop_total g ed (graph_pc_isPc g) anc
               (length (tree_parentNode ed)) v 0%Q 0%Q
               (tree_bottleneckDistNode ed)) as (bdn' & -> & _);
    [done | lia |].
  simpl. by eexists.
Qed.








End AncestorTests.

(** ** Closing and removing a level at the star *)


Lemma mstLevelRemove_spec_witness :
  exists r',
    extreduce_mstLevelRemove (reddata star_tree_closing) = Some r'
    /\ ml_levels (sds_horizontal r')
       = List.tl (ml_levels (sds_horizontal (reddata star_tree_closing)))
    /\ depo_csrs (msts_levelbase r') = [one_node_csr; one_node_csr]
    /\ ml_levels (sds_vertical r')
       = ml_levels (sds_vertical (reddata star_tree)).
Proof.
  destruct (mstLevelRemove_spec star_graph (reddata star_tree_closing)
              star_tree_closing) as [Hall _].
  edestruct Hall as (r' & Hr & Hh & Hl & Hv & _).
  - reflexivity.
  - reflexivity.
  - reflexivity.
  - reflexivity.
  - exists r'. split; [exact Hr |]. by rewrite Hh, Hl, Hv.
Defined.

(** * Further properties of the code *)

(** ** What the dominance tests change *)

Lemma sdeq_only_refl ed : sdeq_only ed ed.
Proof.
  exists (sdeq_edgesIsForbidden ed), (sdeq_hasForbiddenEdges ed),
    (sdeq_resetStack ed). by destruct ed.
Qed.

Lemma sdeq_only_trans ed1 ed2 ed3 :
  sdeq_only ed1 ed2 -> sdeq_only ed2 ed3 -> sdeq_only ed1 ed3.
Proof.
  intros (f & h & s & ->) (f' & h' & s' & ->). by exists f', h', s'.
Qed.

Lemma sdeq_only_set f h s ed : sdeq_only ed (set_sdeq f h s ed).
Proof. by exists f, h, s. Qed.

Section DominanceFrame.
Context `{Externals}.

Lemma bottleneckMarkEqualityEdge_sdeq_only g e ed :
  sdeq_only ed (bottleneckMarkEqualityEdge g e ed).
Proof.
  unfold bottleneckMarkEqualityEdge.
  destruct (negb _); [apply sdeq_only_set | apply sdeq_only_refl].
Qed.

Lemma bottleneckMarkEqualityPath_loop_sdeq_only g path_end :
  forall fuel c ed ed',
    bottleneckMarkEqualityPath_loop fuel g c path_end ed = Some ed' ->
    sdeq_only ed ed'.
Proof.
  induction fuel as [| fuel IH]; intros c ed ed'; simpl.
  - destruct (_ =? _); [intros [= <-]; apply sdeq_only_refl | done].
  - destruct (_ =? _); [intros [= <-]; apply sdeq_only_refl |].
    destruct (bottleneckMarkEqualityPath_find _ _ _ _) as [found |]; simpl;
      [| done].
    intros Hl. apply IH in Hl. eapply sdeq_only_trans; [| exact Hl].
    destruct found as [e |]; [| apply sdeq_only_refl].
    destruct (negb _); [apply sdeq_only_set | apply sdeq_only_refl].
Qed.

Lemma bottleneckMarkEqualityEdges_up_sdeq_only g isPc dist_eq :
  forall fuel c bs bl ed ed',
    bottleneckMarkEqualityEdges_up fuel g isPc dist_eq c bs bl ed
    = Some (inl ed') ->
    sdeq_only ed ed'.
Proof.
  induction fuel as [| fuel IH]; intros c bs bl ed ed'; simpl.
  - by destruct (Qltb _ _).
  - destruct (Qltb _ _); [| done].
    destruct (EQ _ _); [| apply IH].
    destruct (bottleneckMarkEqualityPath _ _ _ _) as [ed1 |] eqn:E; simpl;
      [| done].
    intros [= <-]. by eapply bottleneckMarkEqualityPath_loop_sdeq_only.
Qed.

Lemma bottleneckMarkEqualityEdges_down_sdeq_only g isPc dist_eq vpm ancestor :
  forall fuel c bs bl ed ed',
    bottleneckMarkEqualityEdges_down fuel g isPc dist_eq vpm ancestor c bs bl ed
    = Some ed' ->
    sdeq_only ed ed'.
Proof.
  induction fuel as [| fuel IH]; intros c bs bl ed ed'; simpl.
  - destruct (_ =? _); [intros [= <-]; apply sdeq_only_refl | done].
  - destruct (_ =? _); [intros [= <-]; apply sdeq_only_refl |].
    destruct (EQ _ _); [| apply IH].
    apply bottleneckMarkEqualityPath_loop_sdeq_only.
Qed.

Lemma bottleneckMarkEqualityEdges_sdeq_only g dist_eq vpm vu ed ed' :
  bottleneckMarkEqualityEdges g dist_eq vpm vu ed = Some ed' ->
  sdeq_only ed ed'.
Proof.
  unfold bottleneckMarkEqualityEdges.
  destruct (_ =? _); simpl.
  - apply bottleneckMarkEqualityEdges_down_sdeq_only.
  - destruct (bottleneckMarkEqualityEdges_up _ _ _ _ _ _ _ _) as [[ed1 | a] |]
      eqn:E; simpl; [| | done].
    + intros [= <-]. by eapply bottleneckMarkEqualityEdges_up_sdeq_only.
    + apply bottleneckMarkEqualityEdges_down_sdeq_only.
Qed.

Lemma bottleneckIsDominated_sdeq_only g vpm vu sd ef ed ed' b :
  bottleneckIsDominated g vpm vu sd ef ed = Some (ed', b) ->
  sdeq_only ed ed' /\ (b = false -> ed' = ed).
Proof.
  unfold bottleneckIsDominated.
  destruct (_ || _); [intros [= <- <-]; split; [apply sdeq_only_refl | done] |].
  destruct (bottleneckGetDist _ _ _); simpl; [| done].
  destruct (LT _ _); [intros [= <- <-]; split; [apply sdeq_only_refl | done] |].
  destruct (LE _ _);
    [| intros [= <- <-]; split; [apply sdeq_only_refl | done]].
  destruct (bottleneckIsEqualityDominated _ _ _ _ _ _);
    [| intros [= <- <-]; split; [apply sdeq_only_refl | done]].
  destruct (bottleneckMarkEqualityEdges _ _ _ _ _) eqn:E; simpl; [| done].
  intros [= <- <-]. split; [| done].
  by eapply bottleneckMarkEqualityEdges_sdeq_only.
Qed.

Lemma bottleneckWithExtedgeIsDominated_sdeq_only g e vpm vu sd ed ed' b :
  bottleneckWithExtedgeIsDominated g e vpm vu sd ed = Some (ed', b) ->
  sdeq_only ed ed' /\ (b = false -> ed' = ed).
Proof.
  unfold bottleneckWithExtedgeIsDominated.
  assert (Htest :
    (if vpm =? vu then Some (ed, false)
     else
       bottleneckDist ← bottleneckGetDist g ed vu;
       if LT sd bottleneckDist then Some (ed, true)
       else if LE sd bottleneckDist then
         if bottleneckIsEqualityDominated g sd e (zget (-1) (head g) e) vu ed
         then
           ed' ← bottleneckMarkEqualityEdges g sd vpm vu ed; Some (ed', true)
         else Some (ed, false)
       else Some (ed, false)) = Some (ed', b) ->
    sdeq_only ed ed' /\ (b = false -> ed' = ed)).
  { destruct (_ =? _);
      [intros [= <- <-]; split; [apply sdeq_only_refl | done] |].
    destruct (bottleneckGetDist _ _ _); simpl; [| done].
    destruct (LT _ _);
      [intros [= <- <-]; split; [apply sdeq_only_refl | done] |].
    destruct (LE _ _);
      [| intros [= <- <-]; split; [apply sdeq_only_refl | done]].
    destruct (bottleneckIsEqualityDominated _ _ _ _ _ _);
      [| intros [= <- <-]; split; [apply sdeq_only_refl | done]].
    destruct (bottleneckMarkEqualityEdges _ _ _ _ _) eqn:E; simpl; [| done].
    intros [= <- <-]. split; [| done].
    by eapply bottleneckMarkEqualityEdges_sdeq_only. }
  destruct (negb _);
    [intros [= <- <-]; split; [apply sdeq_only_refl | done] |].
  destruct (LT _ _);
    [intros [= <- <-]; split; [apply sdeq_only_refl | done] |].
  destruct (LE _ _); [| exact Htest].
  destruct (bottleneckIsEqualityDominated _ _ _ _ _ _); [| exact Htest].
  intros [= <- <-]. split; [apply bottleneckMarkEqualityEdge_sdeq_only | done].
Qed.

Lemma bottleneckToSiblingIsDominated_sdeq_only g e e2 sd ed :
  sdeq_only ed (fst (bottleneckToSiblingIsDominated g e e2 sd ed))
  /\ (snd (bottleneckToSiblingIsDominated g e e2 sd ed) = false ->
      fst (bottleneckToSiblingIsDominated g e e2 sd ed) = ed).
Proof.
  unfold bottleneckToSiblingIsDominated.
  destruct (negb _); [split; [apply sdeq_only_refl | done] |].
  destruct (LT _ _); [split; [apply sdeq_only_refl | done] |].
  destruct (LT _ _); [split; [apply sdeq_only_refl | done] |].
  destruct (_ && _);
    [split; [apply bottleneckMarkEqualityEdge_sdeq_only | done] |].
  destruct (_ && _);
    [split; [apply bottleneckMarkEqualityEdge_sdeq_only | done] |].
  split; [apply sdeq_only_refl | done].
Qed.

End DominanceFrame.

(** ** The prize-collecting marks *)

Lemma QMAX_ge_l a b : (a <= QMAX a b)%Q.
Proof.
  unfold QMAX. destruct (Qle_bool b a) eqn:E; [lra |].
  apply not_true_iff_false in E. rewrite Qle_bool_iff in E. lra.
Qed.

Lemma pcSdMarkSingle_marked N pc L entry value :
  pcSd_marked N pc L ->
  0 <= entry < Z.of_nat N -> (-(1#2) <= value)%Q ->
  exists L', pcSd_marked N (pcSdMarkSingle entry value pc) L'.
Proof.
  destruct pc as [[p c] n].
  intros (Hp & Hc & Hn & Htake & Hnd & Hr & Hm & Ho) He Hv.
  unfold pcSdMarkSingle.
  destruct (Qltb (zget (-1)%Q p entry) (-(1#2))) eqn:E1.
  - apply Qltb_lt in E1.
    assert (Hnotin : ~ In entry L).
    { intros Hin. specialize (Hm _ Hin). lra. }
    assert (Hnd' : List.NoDup (L ++ [entry])).
    { apply List.NoDup_app; [done | repeat constructor; by intros [] |].
      intros x Hx [<- | []]. done. }
    assert (Hr' : List.Forall (fun x => 0 <= x < Z.of_nat N) (L ++ [entry])).
    { apply List.Forall_app. split; [done | by constructor]. }
    pose proof (NoDup_inrange_length _ _ Hnd' Hr') as Hlen.
    rewrite length_app in Hlen. simpl in Hlen.
    exists (L ++ [entry]). unfold pcSd_marked.
    rewrite !zset_length, length_app. simpl.
    split; [done |]. split; [done |]. split; [lia |]. split.
    { unfold zset. destruct (Z.ltb_spec n 0); [lia |].
      rewrite Hn, Nat2Z.id.
      replace (length L + 1)%nat with (S (length L)) by lia.
      rewrite (take_S_r _ _ entry).
      - by rewrite take_insert_ge, Htake by lia.
      - apply list_lookup_insert_eq. lia. }
    split; [done |]. split; [done |]. split.
    + intros x Hx. apply in_app_or in Hx as [Hx | [<- | []]].
      * rewrite zget_zset_ne; [by apply Hm |]. intros ->. done.
      * rewrite zget_zset_eq by lia. done.
    + intros i Hi. rewrite zget_zset_ne; [apply Ho |].
      * intros Hin. apply Hi. apply in_or_app. by left.
      * intros ->. apply Hi. apply in_or_app. right. by left.
  - apply Qltb_ge in E1.
    destruct (Qltb value (zget (-1)%Q p entry)) eqn:E2.
    + assert (Hin : In entry L).
      { destruct (in_dec Z.eq_dec entry L) as [Hin | Hnotin]; [done |].
        rewrite (Ho _ Hnotin) in E1. lra. }
      exists L. unfold pcSd_marked. rewrite zset_length.
      repeat (split; [done |]). split.
      * intros x Hx. destruct (Z.eq_dec entry x) as [<- | Hne].
        -- rewrite zget_zset_eq by lia. done.
        -- rewrite zget_zset_ne by done. by apply Hm.
      * intros i Hi. rewrite zget_zset_ne; [by apply Ho |].
        intros ->. done.
    + exists L. by unfold pcSd_marked.
Qed.

Lemma pcSdToNodeMark_inner_marked g ed startvertex head_ edgecost N :
  (length (tree_deg ed) <= N)%nat ->
  List.Forall (fun c => 0 <= c)%Q (dcsr_cost (dcsr_storage g)) ->
  (0 <= edgecost)%Q ->
  forall is2 count2 pc L,
    pcSd_marked N pc L ->
    exists L',
      pcSd_marked N
        (fst (pcSdToNodeMark_inner g ed startvertex head_ edgecost is2 count2 pc))
        L'.
Proof.
  intros Hdeg Hcost Hec.
  induction is2 as [| i2 is2 IH]; intros count2 pc L Hinv; simpl.
  { by exists L. }
  set (head2 := zget (-1) (dcsr_head (dcsr_storage g)) i2).
  set (pc' := if (0 <? zget 0 (tree_deg ed) head2) && negb (head2 =? startvertex)
              then _ else pc).
  assert (Hpc' : exists L', pcSd_marked N pc' L').
  { unfold pc'.
    destruct (Z.ltb_spec 0 (zget 0 (tree_deg ed) head2)) as [Hd | Hd];
      simpl; [| by exists L].
    destruct (negb _); [| by exists L].
    apply (pcSdMarkSingle_marked N pc L); [done | |].
    - assert (Hr : 0 <= head2 < Z.of_nat (length (tree_deg ed))).
      { apply (zget_ne_default_inrange 0). lia. }
      lia.
    - pose proof (QMAX_ge_l (QMAX edgecost
                    (zget 0%Q (dcsr_cost (dcsr_storage g)) i2))
                    (edgecost + zget 0%Q (dcsr_cost (dcsr_storage g)) i2
                     - graph_prize g head_)%Q) as H1.
      pose proof (QMAX_ge_l edgecost
                    (zget 0%Q (dcsr_cost (dcsr_storage g)) i2)) as H2.
      lra. }
  destruct Hpc' as (L' & HL').
  destruct (EXT_PC_SDMAXVISITS <? count2); simpl; [by exists L' |].
  by apply (IH _ _ L').
Qed.

Lemma zget_Forall_nonneg (l : list Q) i :
  List.Forall (fun c => 0 <= c)%Q l -> (0 <= zget 0%Q l i)%Q.
Proof.
  intros Hall. unfold zget. destruct (i <? 0); [lra |].
  destruct (nth_in_or_default (Z.to_nat i) l 0%Q) as [Hin | ->]; [| lra].
  rewrite List.Forall_forall in Hall. by apply Hall.
Qed.

Lemma pcSdToNodeMark_outer_marked g ed startvertex N :
  (length (tree_deg ed) <= N)%nat ->
  List.Forall (fun c => 0 <= c)%Q (dcsr_cost (dcsr_storage g)) ->
  forall is1 count1 count2 pc L,
    pcSd_marked N pc L ->
    exists L',
      pcSd_marked N
        (pcSdToNodeMark_outer g ed startvertex is1 count1 count2 pc) L'.
Proof.
  intros Hdeg Hcost.
  induction is1 as [| i is1 IH]; intros count1 count2 pc L Hinv; simpl.
  { by exists L. }
  set (edgecost := zget 0%Q (dcsr_cost (dcsr_storage g)) i).
  set (head_ := zget (-1) (dcsr_head (dcsr_storage g)) i).
  assert (Hec : (0 <= edgecost)%Q) by by apply zget_Forall_nonneg.
  destruct (Z.eqb_spec (zget 0 (tree_deg ed) head_) 0) as [Hd | Hd].
  - destruct (zget (0, 0) (dcsr_range (dcsr_storage g)) head_)
      as [start2 end2].
    destruct (pcSdToNodeMark_inner_marked g ed startvertex head_ edgecost N
                Hdeg Hcost Hec (seqZ start2 (end2 - start2)) count2 pc L Hinv)
      as (L' & HL').
    destruct (pcSdToNodeMark_inner g ed startvertex head_ edgecost _ count2 pc)
      as [pc' count2'].
    simpl in HL'.
    destruct (EXT_PC_SDMAXVISITS <? count1); [by exists L' |].
    by apply (IH _ _ _ L').
  - destruct (pcSdMarkSingle_marked N pc L head_ edgecost Hinv) as (L' & HL').
    { assert (Hr : 0 <= head_ < Z.of_nat (length (tree_deg ed))).
      { by apply (zget_ne_default_inrange 0). }
      lia. }
    { lra. }
    destruct (EXT_PC_SDMAXVISITS <? count1); [by exists L' |].
    by apply (IH _ _ _ L').
Qed.

Lemma map_zget_seqZ {A} (d : A) (c : list A) :
  forall (k s : nat),
    (s + k <= length c)%nat ->
    zget d c <$> seqZ (Z.of_nat s) (Z.of_nat k) = take k (drop s c).
Proof.
  induction k as [| k IH]; intros s Hs; [done |].
  rewrite seqZ_S, fmap_cons.
  destruct (lookup_lt_is_Some_2 c s) as [x Hx]; [lia |].
  rewrite (drop_S _ x) by done. simpl. f_equal.
  - unfold zget. destruct (Z.ltb_spec (Z.of_nat s) 0); [lia |].
    rewrite Nat2Z.id. by apply nth_lookup_Some.
  - replace (Z.of_nat s + 1) with (Z.of_nat (S s)) by lia. apply IH. lia.
Qed.

Lemma clear_entries (L : list Z) :
  forall p,
    length (foldl (fun q x => zset q x (-1)%Q) p L) = length p
    /\ forall i,
         zget (-1)%Q (foldl (fun q x => zset q x (-1)%Q) p L) i
         = if in_dec Z.eq_dec i L then (-1)%Q else zget (-1)%Q p i.
Proof.
  induction L as [| a L IH]; intros p; simpl; [done |].
  destruct (IH (zset p a (-1)%Q)) as [Hlen Hget].
  split; [by rewrite Hlen, zset_length |].
  intros i. rewrite Hget.
  destruct (in_dec Z.eq_dec i L) as [Hin | Hnotin].
  - destruct (Z.eq_dec a i); done.
  - destruct (Z.eq_dec a i) as [<- | Hne].
    + unfold zget, zset. destruct (Z.ltb_spec a 0); [done |].
      destruct (decide (Z.to_nat a < length p)%nat).
      * apply nth_lookup_Some. by apply list_lookup_insert_eq.
      * apply nth_overflow. rewrite length_insert. lia.
    + by apply zget_zset_ne.
Qed.

Lemma pcSd_marked_unmark N p c n L :
  pcSd_marked N (p, c, n) L ->
  Forall (fun x => x = (-1)%Q)
    (foldl (fun q i => zset q (zget (-1) c i) (-1)%Q) p (seqZ 0 n))
  /\ length (foldl (fun q i => zset q (zget (-1) c i) (-1)%Q) p (seqZ 0 n)) = N.
Proof.
  intros (Hp & Hc & Hn & Htake & Hnd & Hr & Hm & Ho).
  assert (HlenL : (length L <= N)%nat) by by apply NoDup_inrange_length.
  rewrite <- (foldl_fmap (fun q x => zset q x (-1)%Q) p (seqZ 0 n) (zget (-1) c)).
  assert (Hmap : zget (-1) c <$> seqZ 0 n = L).
  { rewrite Hn. change 0 with (Z.of_nat 0).
    rewrite (map_zget_seqZ (-1) c (length L) 0) by lia. by rewrite drop_0. }
  rewrite Hmap.
  destruct (clear_entries L p) as [Hlen Hget].
  split; [| by rewrite Hlen].
  apply Forall_lookup. intros i x Hix.
  assert (Hi : (i < N)%nat).
  { apply lookup_lt_Some in Hix. rewrite Hlen in Hix. lia. }
  assert (Hx : x = zget (-1)%Q
                     (foldl (fun q x => zset q x (-1)%Q) p L) (Z.of_nat i)).
  { unfold zget. destruct (Z.ltb_spec (Z.of_nat i) 0); [lia |].
    rewrite Nat2Z.id. symmetry. by apply nth_lookup_Some. }
  rewrite Hx, Hget.
  destruct (in_dec Z.eq_dec (Z.of_nat i) L); [done | by apply Ho].
Qed.

Lemma zget_Forall_default {A} (d : A) (l : list A) i :
  Forall (fun x => x = d) l -> zget d l i = d.
Proof.
  intros Hall. unfold zget. destruct (i <? 0); [done |].
  destruct (nth_in_or_default (Z.to_nat i) l d) as [Hin | ->]; [| done].
  rewrite Forall_forall in Hall. apply Hall. by apply list_elem_of_In.
Qed.

Lemma pcSdToNodeMark_marked g startvertex ed p :
  pcSdToNode (pcdata ed) = Some p ->
  Forall (fun x => x = (-1)%Q) p ->
  (length (tree_deg ed) <= length p)%nat ->
  (length p <= length (pcSdCands (pcdata ed)))%nat ->
  List.Forall (fun c => 0 <= c)%Q (dcsr_cost (dcsr_storage g)) ->
  exists p' c' n' L,
    pcSdToNodeMark g startvertex ed = set_pcSd p' c' n' ed
    /\ pcSd_marked (length p) (p', c', n') L.
Proof.
  intros Hp Hall Hdeg Hcap Hcost. unfold pcSdToNodeMark. rewrite Hp.
  destruct (zget (0, 0) (dcsr_range (dcsr_storage g)) startvertex)
    as [start_ end_].
  destruct (pcSdToNodeMark_outer_marked g ed startvertex (length p) Hdeg Hcost
              (seqZ start_ (end_ - start_)) 0 0
              (p, pcSdCands (pcdata ed), 0) []) as (L & HL).
  { unfold pcSd_marked. repeat (split; [done || constructor |]).
    intros i _. by apply zget_Forall_default. }
  destruct (pcSdToNodeMark_outer _ _ _ _ _ _ _) as [[p' c'] n'].
  by exists p', c', n', L.
Qed.

(** X1.  On a tree whose prize-collecting mark array is unmarked (every
    entry -1) and at least as long as the degree array, with room for one
    candidate per entry and non-negative edge costs: [pcSdToNodeMark]
    records every entry it marks exactly once, so it records at most as many
    candidates as there are entries and their marks are non-negative, and
    [pcSdToNodeUnmark] after it leaves the mark array exactly as it was. *)
Theorem pcSdToNode_mark_unmark_roundtrip (g : GRAPH) (startvertex : Z)
    (ed : EXTDATA) (p : list Q) :
  pcSdToNode (pcdata ed) = Some p ->
  Forall (fun x => x = (-1)%Q) p ->
  (length (tree_deg ed) <= length p)%nat ->
  (length p <= length (pcSdCands (pcdata ed)))%nat ->
  List.Forall (fun c => 0 <= c)%Q (dcsr_cost (dcsr_storage g)) ->
  let ed1 := pcSdToNodeMark g startvertex ed in
  pcSdToNode (pcdata (pcSdToNodeUnmark g startvertex ed1)) = Some p
  /\ 0 <= nPcSdCands (pcdata ed1) <= Z.of_nat (length p)
  /\ exists p1,
       pcSdToNode (pcdata ed1) = Some p1
       /\ forall i,
            zget (-1)%Q p1 i <> (-1)%Q ->
            In i (take (Z.to_nat (nPcSdCands (pcdata ed1)))
                    (pcSdCands (pcdata ed1)))
            /\ (-(1#2) <= zget (-1)%Q p1 i)%Q.
Proof.
  intros Hp Hall Hdeg Hcap Hcost ed1.
  destruct (pcSdToNodeMark_marked g startvertex ed p Hp Hall Hdeg Hcap Hcost)
    as (p' & c' & n' & L & Hmark & Hinv).
  unfold ed1. rewrite Hmark. clear ed1 Hmark.
  destruct (pcSd_marked_unmark _ _ _ _ _ Hinv) as [Hclear Hlen].
  destruct Hinv as (Hp' & Hc' & Hn' & Htake & Hnd & Hr & Hm & Ho).
  split; [| split].
  - unfold pcSdToNodeUnmark. simpl. f_equal.
    apply (Forall_const_eq (-1)%Q); [done | done | done].
  - simpl. pose proof (NoDup_inrange_length _ _ Hnd Hr). lia.
  - exists p'. split; [done |]. intros i Hi. simpl.
    rewrite Hn', Nat2Z.id, Htake.
    destruct (in_dec Z.eq_dec i L) as [Hin | Hnotin].
    + split; [done | by apply Hm].
    + by rewrite (Ho _ Hnotin) in Hi.
Qed.

Lemma pcSdToNode_mark_unmark_roundtrip_witness :
  pcSdToNode (pcdata (pcSdToNodeUnmark pc_path_graph 2
                        (pcSdToNodeMark pc_path_graph 2 pc_path_tree)))
  = Some [(-1)%Q; (-1)%Q; (-1)%Q]
  /\ nPcSdCands (pcdata (pcSdToNodeMark pc_path_graph 2 pc_path_tree)) = 1.
Proof.
  destruct (pcSdToNode_mark_unmark_roundtrip pc_path_graph 2 pc_path_tree
              [(-1)%Q; (-1)%Q; (-1)%Q]) as (Hround & _).
  - reflexivity.
  - repeat constructor.
  - simpl. lia.
  - simpl. lia.
  - repeat constructor; by vm_compute.
  - split; [exact Hround | reflexivity].
Defined.

(** ** The last marked component of the extension stack *)

Section StackHelpers.
Context `{Externals}.

Lemma extStackGetLastMarked_loop_spec ed p :
  0 <= p -> zget 0 (extstack_state ed) p = EXT_STATE_MARKED ->
  forall fuel stackpos,
    p <= stackpos -> (Z.to_nat (stackpos - p) <= fuel)%nat ->
    exists q,
      extStackGetLastMarked_loop fuel ed stackpos = Some q
      /\ p <= q <= stackpos
      /\ zget 0 (extstack_state ed) q = EXT_STATE_MARKED
      /\ forall r, q < r <= stackpos ->
                   zget 0 (extstack_state ed) r <> EXT_STATE_MARKED.
Proof.
  intros Hp Hmark.
  induction fuel as [| fuel IH]; intros stackpos Hle Hfuel.
  - assert (stackpos = p) as -> by lia. simpl.
    destruct (Z.ltb_spec p 0); [lia |].
    rewrite Hmark, Z.eqb_refl. exists p. repeat split; (lia || done).
  - simpl. destruct (Z.ltb_spec stackpos 0); [lia |].
    destruct (Z.eqb_spec (zget 0 (extstack_state ed) stackpos) EXT_STATE_MARKED)
      as [Heq | Hne].
    + exists stackpos. repeat split; (lia || done).
    + assert (Hlt : p < stackpos).
      { destruct (Z.eq_dec p stackpos) as [-> | ?]; [done | lia]. }
      destruct (IH (stackpos - 1)) as (q & Hq & Hr & Hm & Hafter); [lia | lia |].
      exists q. split; [done |]. split; [lia |]. split; [done |].
      intros r Hrr. destruct (Z.eq_dec r stackpos) as [-> | ?]; [done |].
      apply Hafter. lia.
Qed.

(** X2.  When some component at or below the stack position is marked,
    [extStackGetLastMarked] returns the topmost marked position: it is
    marked, lies at or below the stack position, and no position above it
    up to the stack position is marked. *)
Theorem extStackGetLastMarked_topmost (ed : EXTDATA) (p : Z) :
  0 <= p <= extStackGetPosition ed ->
  zget 0 (extstack_state ed) p = EXT_STATE_MARKED ->
  exists q,
    extStackGetLastMarked ed = Some q
    /\ p <= q <= extStackGetPosition ed
    /\ zget 0 (extstack_state ed) q = EXT_STATE_MARKED
    /\ forall r, q < r <= extStackGetPosition ed ->
                 zget 0 (extstack_state ed) r <> EXT_STATE_MARKED.
Proof.
  intros [Hp Hle] Hmark. unfold extStackGetLastMarked.
  apply (extStackGetLastMarked_loop_spec ed p Hp Hmark); lia.
Qed.

End StackHelpers.

Lemma extStackGetLastMarked_topmost_witness :
  @extStackGetLastMarked star_externals star_tree_closing = Some 1.
Proof.
  destruct (@extStackGetLastMarked_topmost star_externals star_tree_closing 0)
    as (q & Hq & _ & _ & _).
  - by vm_compute.
  - reflexivity.
  - rewrite Hq. f_equal.
    assert (Hc : @extStackGetLastMarked star_externals star_tree_closing
                 = Some 1) by reflexivity.
    congruence.
Defined.

(** ** Bounds on the bottlenecks *)

Lemma bottleneck_marks_monotone g ed isPc cs :
  forall b bl k k' m m',
    (k <= k')%nat ->
    nth_error (bottleneck_marks g ed isPc b bl cs) k = Some m ->
    nth_error (bottleneck_marks g ed isPc b bl cs) k' = Some m' ->
    (b <= m)%Q /\ (m <= m')%Q.
Proof.
  induction cs as [| c cs IH]; intros b bl k k' m m' Hk Hm Hm';
    [by destruct k |].
  simpl in Hm, Hm'.
  destruct (bottleneckRunMax_cases b (bottleneckLocalStep g ed isPc bl c))
    as (Hb & _ & _).
  destruct k as [| k]; simpl in Hm.
  - injection Hm as <-. split; [done |].
    destruct k' as [| k']; simpl in Hm'; [injection Hm' as <-; lra |].
    destruct (IH _ _ k' k' m' m' (le_n _) Hm' Hm') as [Hle _]. done.
  - destruct k' as [| k']; [lia |]. simpl in Hm'.
    destruct (IH _ _ k k' m m' ltac:(lia) Hm Hm') as [Hle Hmm].
    split; [lra | done].
Qed.

(** X3.  Marking the root path of a vertex that is not the tree root
    returns, and the bottlenecks it writes are non-negative and never
    decrease from an ancestor to the ancestors above it. *)
Theorem bottleneckMarkRootPath_monotone (g : GRAPH) (ed : EXTDATA)
    (start : Z) (anc : list Z) :
  root_path (tree_parentNode ed) start anc ->
  start <> tree_root ed ->
  length (tree_bottleneckDistNode ed) = length (tree_parentNode ed) ->
  exists ed',
    bottleneckMarkRootPath g start ed = Some ed'
    /\ forall (k k' : nat) a a',
         (k <= k')%nat -> anc !! k = Some a -> anc !! k' = Some a' ->
         (0 <= zget 0%Q (tree_bottleneckDistNode ed') a)%Q
         /\ (zget 0%Q (tree_bottleneckDistNode ed') a
             <= zget 0%Q (tree_bottleneckDistNode ed') a')%Q.
Proof.
  intros Hp Hroot Hlen. pose proof (root_path_length _ _ _ Hp) as Hl.
  unfold bottleneckMarkRootPath.
  destruct (Z.eqb_spec start (tree_root ed)) as [? | _]; [done |].
  destruct (bottleneckMarkRootPath_loop_marks g ed (graph_pc_isPc g) anc
              (length (tree_parentNode ed)) start 0%Q 0%Q
              (tree_bottleneckDistNode ed) Hp ltac:(lia) Hlen)
    as (bdn' & -> & Hmarks & _).
  simpl. eexists. split; [reflexivity |]. simpl.
  intros k k' a a' Hk Ha Ha'.
  apply (bottleneck_marks_monotone g ed (graph_pc_isPc g) (start :: anc)
           0%Q 0%Q k k'); [done | by apply Hmarks | by apply Hmarks].
Qed.

Lemma bottleneckMarkRootPath_monotone_witness :
  exists ed',
    bottleneckMarkRootPath pc_path_graph 2 pc_path_tree = Some ed'
    /\ (0 <= zget 0%Q (tree_bottleneckDistNode ed') 1)%Q
    /\ (zget 0%Q (tree_bottleneckDistNode ed') 1
        <= zget 0%Q (tree_bottleneckDistNode ed') 0)%Q.
Proof.
  destruct (bottleneckMarkRootPath_monotone pc_path_graph pc_path_tree 2 [1; 0]
              pc_path_root_path) as (ed' & Hmark & Hmono).
  - by vm_compute.
  - reflexivity.
  - exists ed'. split; [exact Hmark |].
    exact (Hmono 0%nat 1%nat 1 0 ltac:(lia) eq_refl eq_refl).
Defined.






(** ** Adding a leaf to the top level *)

Lemma slot_only_refl ed : slot_only ed ed.
Proof.
  exists (sdeq_edgesIsForbidden ed), (sdeq_hasForbiddenEdges ed),
    (sdeq_resetStack ed), (ml_emptyslot (sds_vertical (reddata ed))).
  split; [done |].
  destruct ed as [? ? ? ? ? ? ? ? ? ? ? ? ? ? ? ? ? ? ? [? ? ? []] ?]. done.
Qed.

Lemma slot_only_trans ed1 ed2 ed3 :
  slot_only ed1 ed2 -> slot_only ed2 ed3 -> slot_only ed1 ed3.
Proof.
  intros (f & h & s & sl & Hb & ->) (f' & h' & s' & sl' & Hb' & ->).
  exists f', h', s', sl'. split; [| done].
  simpl in Hb'. congruence.
Qed.

Lemma sdeq_only_slot_only ed ed' : sdeq_only ed ed' -> slot_only ed ed'.
Proof.
  intros (f & h & s & ->).
  exists f, h, s, (ml_emptyslot (sds_vertical (reddata ed))).
  split; [done |].
  destruct ed as [? ? ? ? ? ? ? ? ? ? ? ? ? ? ? ? ? ? ? [? ? ? []] ?]. done.
Qed.

Lemma tree_part_set_pcdata p ed : tree_part (set_pcdata p ed) = tree_part ed.
Proof. done. Qed.

Lemma tree_part_set_bottleneckDistNode b ed :
  tree_part (set_bottleneckDistNode b ed) = tree_part ed.
Proof. done. Qed.

Lemma tree_part_set_reddata r ed : tree_part (set_reddata r ed) = tree_part ed.
Proof. done. Qed.

Lemma tree_part_set_sdeq f h s ed : tree_part (set_sdeq f h s ed) = tree_part ed.
Proof. done. Qed.

Lemma slot_only_fields ed ed' :
  slot_only ed ed' ->
  tree_part ed' = tree_part ed
  /\ tree_bottleneckDistNode ed' = tree_bottleneckDistNode ed
  /\ pcdata ed' = pcdata ed
  /\ sds_horizontal (reddata ed') = sds_horizontal (reddata ed)
  /\ msts_comp (reddata ed') = msts_comp (reddata ed)
  /\ msts_levelbase (reddata ed') = msts_levelbase (reddata ed)
  /\ ml_levels (sds_vertical (reddata ed'))
     = ml_levels (sds_vertical (reddata ed))
  /\ slot_base <$> ml_emptyslot (sds_vertical (reddata ed'))
     = slot_base <$> ml_emptyslot (sds_vertical (reddata ed)).
Proof. intros (f & h & s & sl & Hb & ->). by repeat split. Qed.

Section AddLeaf.
Context `{Externals}.

Lemma vertical_slot_write_slot_only j x ed ed' :
  vertical_slot_write j x ed = Some ed' -> slot_only ed ed'.
Proof.
  unfold vertical_slot_write, extreduce_mldistsEmptySlotTargetDists,
    extreduce_mldistsEmptySlotTargetIds, mldists_emptySlotStore.
  destruct (ml_emptyslot (sds_vertical (reddata ed))) as [sl |] eqn:E;
    simpl; [| done].
  intros [= <-].
  exists (sdeq_edgesIsForbidden ed), (sdeq_hasForbiddenEdges ed),
    (sdeq_resetStack ed),
    (Some {| slot_base := slot_base sl; slot_ids := slot_ids sl;
             slot_dists := slot_write (slot_dists sl) j x |}).
  rewrite E. split; [done |]. by destruct ed.
Qed.

Lemma mstLevelLeafSetVerticalSDs_loop_slot_only g e nb base :
  forall js ed ed' b,
    mstLevelLeafSetVerticalSDs_loop g e nb base js ed = Some (ed', b) ->
    slot_only ed ed'.
Proof.
  induction js as [| j js IH]; intros ed ed' b; simpl.
  { intros [= <- _]. apply slot_only_refl. }
  destruct (vertical_slot_write _ _ _) as [ed1 |] eqn:E1; simpl; [| done].
  apply vertical_slot_write_slot_only in E1.
  destruct (bottleneckWithExtedgeIsDominated _ _ _ _ _ _) as [[ed2 d] |] eqn:E2;
    simpl; [| done].
  apply bottleneckWithExtedgeIsDominated_sdeq_only in E2 as [E2 _].
  apply sdeq_only_slot_only in E2.
  destruct d.
  - intros [= <- _]. by eapply slot_only_trans.
  - intros Hl. apply IH in Hl.
    eapply slot_only_trans; [| exact Hl]. by eapply slot_only_trans.
Qed.

Lemma bottleneckCheckNonLeaves_pc_loop_sdeq_only g e n nb :
  forall cs ed ed' b,
    bottleneckCheckNonLeaves_pc_loop g e n nb cs ed = Some (ed', b) ->
    sdeq_only ed ed'.
Proof.
  induction cs as [| c cs IH]; intros ed ed' b; simpl.
  { intros [= <- _]. apply sdeq_only_refl. }
  destruct (_ <=? 1); [apply IH |].
  destruct (bottleneckWithExtedgeIsDominated _ _ _ _ _ _) as [[ed2 d] |] eqn:E2;
    simpl; [| done].
  apply bottleneckWithExtedgeIsDominated_sdeq_only in E2 as [E2 _].
  destruct d.
  - by intros [= <- _].
  - intros Hl. apply IH in Hl. by eapply sdeq_only_trans.
Qed.

Lemma bottleneckCheckNonLeaves_loop_sdeq_only g e n nb :
  forall idxs ed ed' b,
    bottleneckCheckNonLeaves_loop g e n nb idxs ed = Some (ed', b) ->
    sdeq_only ed ed'.
Proof.
  induction idxs as [| c cs IH]; intros ed ed' b; simpl.
  { intros [= <- _]. apply sdeq_only_refl. }
  destruct (bottleneckWithExtedgeIsDominated _ _ _ _ _ _) as [[ed2 d] |] eqn:E2;
    simpl; [| done].
  apply bottleneckWithExtedgeIsDominated_sdeq_only in E2 as [E2 _].
  destruct d.
  - by intros [= <- _].
  - intros Hl. apply IH in Hl. by eapply sdeq_only_trans.
Qed.

(** The tests of [extreduce_mstLevelVerticalAddLeaf] between
    [mstLevelLeafInit] and [mstLevelLeafExit]. *)
Lemma mstLevelVerticalAddLeaf_tests_slot_only g e ed1 ed2 ruled2 ed5 ruled5 :
  mstLevelLeafSetVerticalSDs g e ed1 = Some (ed2, ruled2) ->
  forall ruled3,
    (if ruled2 : bool then Some true
     else mstLevelLeafTryExtMst g (zget (-1) (head g) e) ed2) = Some ruled3 ->
    forall ed4 ruled4,
      (if graph_pc_isPc g && negb ruled3
       then bottleneckCheckNonLeaves_pc g e ed2
       else Some (ed2, ruled3)) = Some (ed4, ruled4) ->
      (if negb ruled4 then bottleneckCheckNonLeaves g e ed4
       else Some (ed4, ruled4)) = Some (ed5, ruled5) ->
      slot_only ed1 ed5.
Proof.
  intros H2 ruled3 _ ed4 ruled4 H4 H5.
  apply mstLevelLeafSetVerticalSDs_loop_slot_only in H2.
  assert (H24 : slot_only ed2 ed4).
  { destruct (_ && _).
    - apply sdeq_only_slot_only.
      by eapply bottleneckCheckNonLeaves_pc_loop_sdeq_only.
    - injection H4 as <- _. apply slot_only_refl. }
  assert (H45 : slot_only ed4 ed5).
  { destruct (negb ruled4).
    - apply sdeq_only_slot_only.
      by eapply bottleneckCheckNonLeaves_loop_sdeq_only.
    - injection H5 as <- _. apply slot_only_refl. }
  eapply slot_only_trans; [exact H2 |]. by eapply slot_only_trans.
Qed.


Lemma bottleneckMarkRootPath_set g v ed ed' :
  bottleneckMarkRootPath g v ed = Some ed' ->
  exists bdn, ed' = set_bottleneckDistNode bdn ed.
Proof.
  unfold bottleneckMarkRootPath. destruct (_ =? _); [intros [= <-]; by eexists |].
  destruct (bottleneckMarkRootPath_loop _ _ _ _ _ _ _ _ _); simpl; [| done].
  intros [= <-]. by eexists.
Qed.

Lemma bottleneckUnmarkRootPath_set g v ed ed' :
  bottleneckUnmarkRootPath g v ed = Some ed' ->
  exists bdn, ed' = set_bottleneckDistNode bdn ed.
Proof.
  unfold bottleneckUnmarkRootPath.
  destruct (bottleneckUnmarkRootPath_loop _ _ _ _); simpl; [| done].
  intros [= <-]. by eexists.
Qed.

Lemma pcSdToNodeMark_set g v ed :
  exists p, pcSdToNodeMark g v ed = set_pcdata p ed.
Proof.
  unfold pcSdToNodeMark. destruct (pcSdToNode (pcdata ed)).
  - destruct (zget _ _ _) as [a b].
    destruct (pcSdToNodeMark_outer _ _ _ _ _ _ _) as [[p' c'] n'].
    by eexists.
  - exists (pcdata ed). by destruct ed.
Qed.

Lemma pcSdToNodeUnmark_set g v ed :
  exists p, pcSdToNodeUnmark g v ed = set_pcdata p ed.
Proof.
  unfold pcSdToNodeUnmark. destruct (pcSdToNode (pcdata ed)).
  - by eexists.
  - exists (pcdata ed). by destruct ed.
Qed.

Lemma mstLevelLeafInit_fields g nb n ed ed1 :
  mstLevelLeafInit g nb n ed = Some ed1 ->
  tree_part ed1 = tree_part ed
  /\ sds_horizontal (reddata ed1) = sds_horizontal (reddata ed)
  /\ msts_comp (reddata ed1) = msts_comp (reddata ed)
  /\ msts_levelbase (reddata ed1) = msts_levelbase (reddata ed)
  /\ ml_levels (sds_vertical (reddata ed1))
     = ml_levels (sds_vertical (reddata ed))
  /\ slot_base <$> ml_emptyslot (sds_vertical (reddata ed1)) = Some n.
Proof.
  unfold mstLevelLeafInit, extreduce_mldistsEmptySlotSetBase.
  destruct (ml_emptyslot (sds_vertical (reddata ed))) as [sl |]; simpl;
    [| done].
  destruct (bottleneckMarkRootPath _ _ _) as [ed2 |] eqn:E; simpl; [| done].
  apply bottleneckMarkRootPath_set in E as (bdn & ->).
  destruct (pcSdToNode (pcdata ed)).
  - destruct (pcSdToNodeMark_set g n
                (set_bottleneckDistNode bdn
                   (set_reddata
                      (set_sds_vertical
                         {| ml_levels := ml_levels (sds_vertical (reddata ed));
                            ml_emptyslot :=
                              Some {| slot_base := n; slot_ids := slot_ids sl;
                                      slot_dists := slot_dists sl |} |}
                         (reddata ed)) ed))) as (p & ->).
    by intros [= <-].
  - by intros [= <-].
Qed.

(** X5.  [extreduce_mstLevelVerticalAddLeaf] leaves the extension stack,
    the tree, the horizontal store and both MST depots as they are, and
    touches the vertical store at its top level only: a neighbour that is
    ruled out is not added (the levels are as before and the slot being
    filled is fresh again), and a neighbour that is not ruled out adds
    exactly one slot, with the neighbour as its base and at most
    [level_ntargets] distances, at the end of the top level. *)
Theorem extreduce_mstLevelVerticalAddLeaf_store (g : GRAPH) (edge2neighbor : Z)
    (ed ed' : EXTDATA) (ruledOut : bool) :
  extreduce_mstLevelVerticalAddLeaf g edge2neighbor ed = Some (ed', ruledOut) ->
  tree_part ed' = tree_part ed
  /\ sds_horizontal (reddata ed') = sds_horizontal (reddata ed)
  /\ msts_comp (reddata ed') = msts_comp (reddata ed)
  /\ msts_levelbase (reddata ed') = msts_levelbase (reddata ed)
  /\ (ruledOut = true ->
      ml_levels (sds_vertical (reddata ed'))
      = ml_levels (sds_vertical (reddata ed))
      /\ ml_emptyslot (sds_vertical (reddata ed')) = Some fresh_slot)
  /\ (ruledOut = false ->
      exists top rest s,
        ml_levels (sds_vertical (reddata ed)) = top :: rest
        /\ slot_base s = zget (-1) (head g) edge2neighbor
        /\ (length (slot_dists s) <= Z.to_nat (level_ntargets top))%nat
        /\ ml_levels (sds_vertical (reddata ed'))
           = level_add_slot top s :: rest).
Proof.
  unfold extreduce_mstLevelVerticalAddLeaf.
  set (neighbor := zget (-1) (head g) edge2neighbor).
  set (neighbor_base := zget (-1) (tail g) edge2neighbor).
  destruct (mstLevelLeafInit _ _ _ _) as [ed1 |] eqn:E1; simpl; [| done].
  apply mstLevelLeafInit_fields in E1 as (T1 & Hh1 & Hc1 & Hl1 & Hv1 & Hb1).
  destruct (mstLevelLeafSetVerticalSDs _ _ _) as [[ed2 ruled2] |] eqn:E2;
    simpl; [| done].
  destruct (if ruled2 then Some true else _) as [ruled3 |] eqn:E3; simpl;
    [| done].
  destruct (if graph_pc_isPc g && negb ruled3 then _ else _)
    as [[ed4 ruled4] |] eqn:E4; simpl; [| done].
  destruct (if negb ruled4 then _ else _) as [[ed5 ruled5] |] eqn:E5; simpl;
    [| done].
  pose proof (mstLevelVerticalAddLeaf_tests_slot_only g edge2neighbor ed1 ed2
                ruled2 ed5 ruled5 E2 ruled3 E3 ed4 ruled4 E4 E5) as Hmid.
  apply slot_only_fields in Hmid
    as (T5 & _ & _ & Hh5 & Hc5 & Hl5 & Hv5 & Hb5).
  destruct (mstLevelLeafExit _ _ _ _ _) as [ed6 |] eqn:E6; simpl; [| done].
  intros [= <- <-].
  unfold mstLevelLeafExit in E6.
  destruct ruled5.
  - unfold extreduce_mldistsEmptySlotReset in E6.
    destruct (ml_emptyslot (sds_vertical (reddata ed5))) as [sl |]; simpl in E6;
      [| done].
    destruct (bottleneckUnmarkRootPath _ _ _) as [ed7 |] eqn:E7; simpl in E6;
      [| done].
    apply bottleneckUnmarkRootPath_set in E7 as (bdn & ->).
    assert (Hed6 : exists p, ed6 = set_pcdata p
              (set_bottleneckDistNode bdn
                 (set_reddata
                    (set_sds_vertical
                       {| ml_levels := ml_levels (sds_vertical (reddata ed5));
                          ml_emptyslot := Some fresh_slot |} (reddata ed5))
                    ed5))).
    { destruct (graph_pc_isPc g).
      - injection E6 as <-. apply pcSdToNodeUnmark_set.
      - injection E6 as <-. eexists (pcdata _). reflexivity. }
    destruct Hed6 as (p & ->).
    rewrite tree_part_set_pcdata, tree_part_set_bottleneckDistNode,
      tree_part_set_reddata. simpl.
    repeat split; congruence.
  - unfold mstLevelLeafAdjustVerticalSDs, extreduce_mldistsEmptySlotSetFilled,
      extreduce_mldistsEmptySlotTargetDistsDirty,
      extreduce_mldistsEmptySlotTargetIds, mldists_emptySlotStore in E6.
    destruct (ml_emptyslot (sds_vertical (reddata ed5))) as [sl |] eqn:Esl.
    2:{ destruct (extIsAtInitialComp ed5); simpl in E6;
          [rewrite Esl in E6 |]; done. }
    simpl in Hb5. rewrite Hb1 in Hb5. injection Hb5 as Hb5.
    destruct (ml_levels (sds_vertical (reddata ed5))) as [| top rest] eqn:Elev.
    { destruct (extIsAtInitialComp ed5); simpl in E6;
        try rewrite Esl in E6; try rewrite Elev in E6; done. }
    assert (Hed6 : exists bdn p dists,
              (length dists <= Z.to_nat (level_ntargets top))%nat
              /\ ed6 = set_pcdata p
                   (set_bottleneckDistNode bdn
                      (set_reddata
                         (set_sds_vertical
                            {| ml_levels :=
                                 level_add_slot top
                                   {| slot_base := slot_base sl;
                                      slot_ids :=
                                        take (Z.to_nat (level_ntargets top))
                                          (slot_ids sl);
                                      slot_dists := dists |} :: rest;
                               ml_emptyslot :=
                                 mldists_nextEmptySlot
                                   (level_add_slot top
                                      {| slot_base := slot_base sl;
                                         slot_ids :=
                                           take (Z.to_nat (level_ntargets top))
                                             (slot_ids sl);
                                         slot_dists := dists |}) |}
                            (reddata ed5)) ed5))).
    { destruct (extIsAtInitialComp ed5); simpl in E6.
      - try rewrite Esl in E6; try rewrite Elev in E6. simpl in E6.
        destruct (bottleneckUnmarkRootPath _ _ _) as [ed7 |] eqn:E7;
          simpl in E6; [| done].
        apply bottleneckUnmarkRootPath_set in E7 as (bdn & ->).
        exists bdn.
        destruct (graph_pc_isPc g); injection E6 as <-.
        + edestruct pcSdToNodeUnmark_set as (p & ->).
          eexists p, _. split; [| reflexivity]. rewrite length_take. lia.
        + eexists (pcdata _), _. split; [| reflexivity].
          rewrite length_take. lia.
      - try rewrite Elev in E6. simpl in E6.
        destruct (bottleneckUnmarkRootPath _ _ _) as [ed7 |] eqn:E7;
          simpl in E6; [| done].
        apply bottleneckUnmarkRootPath_set in E7 as (bdn & ->).
        exists bdn.
        destruct (graph_pc_isPc g); injection E6 as <-.
        + edestruct pcSdToNodeUnmark_set as (p & ->).
          eexists p, _. split; [| reflexivity]. rewrite length_take. lia.
        + eexists (pcdata _), _. split; [| reflexivity].
          rewrite length_take. lia. }
    destruct Hed6 as (bdn & p & dists & Hlen & ->).
    rewrite tree_part_set_pcdata, tree_part_set_bottleneckDistNode,
      tree_part_set_reddata. simpl.
    repeat split; try congruence. intros _.
    eexists top, rest, _. rewrite <- Hv1, <- Hv5.
    split; [done |]. split; [| split; [| reflexivity]]; simpl; done.
Qed.

End AddLeaf.

(** ** The marks that adding a leaf leaves behind *)

Lemma bottleneckMarkRootPath_marks_only g v ed anc ed1 :
  root_path (tree_parentNode ed) v anc ->
  Forall (fun x => x = (-1)%Q) (tree_bottleneckDistNode ed) ->
  bottleneckMarkRootPath g v ed = Some ed1 ->
  exists bdn1,
    ed1 = set_bottleneckDistNode bdn1 ed
    /\ length bdn1 = length (tree_bottleneckDistNode ed)
    /\ unmarked_outside (if v =? tree_root ed then v :: anc else anc) bdn1.
Proof.
  intros Hp Hall. pose proof (root_path_length _ _ _ Hp) as Hlen.
  unfold bottleneckMarkRootPath.
  destruct (Z.eqb_spec v (tree_root ed)) as [Hroot | Hroot].
  - intros [= <-]. eexists. split; [reflexivity |].
    split; [apply zset_length |].
    apply unmarked_outside_zset; [by left | by apply unmarked_outside_all].
  - destruct (bottleneckMarkRootPath_loop_total g ed (graph_pc_isPc g) anc
                (length (tree_parentNode ed)) v 0%Q 0%Q
                (tree_bottleneckDistNode ed))
      as (bdn1 & -> & Hl1 & Hun1); [done | lia |].
    simpl. intros [= <-]. exists bdn1. split; [done |]. split; [done |].
    apply Hun1; [apply incl_refl | by apply unmarked_outside_all].
Qed.

Lemma bottleneckUnmarkRootPath_clears g v ed anc ed2 :
  root_path (tree_parentNode ed) v anc ->
  unmarked_outside (if v =? tree_root ed then v :: anc else anc)
    (tree_bottleneckDistNode ed) ->
  bottleneckUnmarkRootPath g v ed = Some ed2 ->
  exists bdn2,
    ed2 = set_bottleneckDistNode bdn2 ed
    /\ length bdn2 = length (tree_bottleneckDistNode ed)
    /\ Forall (fun x => x = (-1)%Q) bdn2.
Proof.
  intros Hp Hun. pose proof (root_path_length _ _ _ Hp) as Hlen.
  unfold bottleneckUnmarkRootPath.
  destruct (bottleneckUnmarkRootPath_loop_total ed anc
              (length (tree_parentNode ed)) v
              (if v =? tree_root ed
               then zset (tree_bottleneckDistNode ed) v (-1)%Q
               else tree_bottleneckDistNode ed))
    as (bdn2 & -> & Hl2 & Hun2); [done | lia |].
  simpl. intros [= <-]. exists bdn2. split; [done |]. split.
  - rewrite Hl2. destruct (_ =? _); [apply zset_length | done].
  - apply Hun2. destruct (v =? tree_root ed); [| done].
    intros i y Hy. apply zset_lookup in Hy as [[-> _] | [Hne Hy]]; [by left |].
    destruct (Hun i y Hy) as [-> | [Heq | Hin]]; [by left | lia | by right].
Qed.

Lemma tree_part_fields ed ed' :
  tree_part ed' = tree_part ed ->
  tree_parentNode ed' = tree_parentNode ed
  /\ tree_root ed' = tree_root ed
  /\ tree_deg ed' = tree_deg ed
  /\ tree_leaves ed' = tree_leaves ed
  /\ tree_nleaves ed' = tree_nleaves ed.
Proof.
  unfold tree_part. intros Heq. injection Heq. intros. by repeat split.
Qed.

Section AddLeafMarks.
Context `{Externals}.

Lemma mstLevelLeafExit_first nb ruledOut ed e :
  (if ruledOut : bool then
     m ← extreduce_mldistsEmptySlotReset (sds_vertical (reddata ed));
     Some (set_reddata (set_sds_vertical m (reddata ed)) ed)
   else
     ed' ← mstLevelLeafAdjustVerticalSDs nb ed;
     m ← extreduce_mldistsEmptySlotSetFilled (sds_vertical (reddata ed'));
     Some (set_reddata (set_sds_vertical m (reddata ed')) ed')) = Some e ->
  exists r, e = set_reddata r ed.
Proof.
  destruct ruledOut.
  - destruct (extreduce_mldistsEmptySlotReset _); simpl; [| done].
    intros [= <-]. by eexists.
  - unfold mstLevelLeafAdjustVerticalSDs.
    destruct (extIsAtInitialComp ed); simpl.
    + destruct (extreduce_mldistsEmptySlotSetFilled _); simpl; [| done].
      intros [= <-]. by eexists.
    + destruct (extreduce_mldistsEmptySlotTargetDistsDirty _); simpl; [| done].
      destruct (extreduce_mldistsEmptySlotTargetIds _); simpl; [| done].
      destruct (mldists_emptySlotStore _ _ _); simpl; [| done].
      destruct (extreduce_mldistsEmptySlotSetFilled _); simpl; [| done].
      intros [= <-]. by eexists.
Qed.

(** X6.  [extreduce_mstLevelVerticalAddLeaf] leaves no marks behind: on a
    tree whose bottleneck array is unmarked, the array is unmarked again
    when the call returns, whatever its answer; the prize-collecting data is
    untouched when there is no mark array, and in a prize-collecting graph
    an unmarked mark array (as long as the degree array, with room for the
    candidates, edge costs non-negative) is unmarked again. *)
Theorem extreduce_mstLevelVerticalAddLeaf_unmarks (g : GRAPH)
    (edge2neighbor : Z) (ed ed' : EXTDATA) (ruledOut : bool) (anc : list Z) :
  extreduce_mstLevelVerticalAddLeaf g edge2neighbor ed = Some (ed', ruledOut) ->
  root_path (tree_parentNode ed) (zget (-1) (tail g) edge2neighbor) anc ->
  Forall (fun x => x = (-1)%Q) (tree_bottleneckDistNode ed) ->
  tree_bottleneckDistNode ed' = tree_bottleneckDistNode ed
  /\ (pcSdToNode (pcdata ed) = None -> pcdata ed' = pcdata ed)
  /\ (forall p,
        pcSdToNode (pcdata ed) = Some p ->
        graph_pc_isPc g = true ->
        Forall (fun x => x = (-1)%Q) p ->
        (length (tree_deg ed) <= length p)%nat ->
        (length p <= length (pcSdCands (pcdata ed)))%nat ->
        List.Forall (fun c => 0 <= c)%Q (dcsr_cost (dcsr_storage g)) ->
        pcSdToNode (pcdata ed') = Some p).
Proof.
  unfold extreduce_mstLevelVerticalAddLeaf.
  set (neighbor := zget (-1) (head g) edge2neighbor).
  set (neighbor_base := zget (-1) (tail g) edge2neighbor).
  intros Hrun Hp Hall.
  destruct (mstLevelLeafInit _ _ _ _) as [ed1 |] eqn:E1; simpl in Hrun;
    [| done].
  destruct (mstLevelLeafSetVerticalSDs _ _ _) as [[ed2 ruled2] |] eqn:E2;
    simpl in Hrun; [| done].
  destruct (if ruled2 then Some true else _) as [ruled3 |] eqn:E3;
    simpl in Hrun; [| done].
  destruct (if graph_pc_isPc g && negb ruled3 then _ else _)
    as [[ed4 ruled4] |] eqn:E4; simpl in Hrun; [| done].
  destruct (if negb ruled4 then _ else _) as [[ed5 ruled5] |] eqn:E5;
    simpl in Hrun; [| done].
  pose proof (mstLevelVerticalAddLeaf_tests_slot_only g edge2neighbor ed1 ed2
                ruled2 ed5 ruled5 E2 ruled3 E3 ed4 ruled4 E4 E5) as Hmid.
  apply slot_only_fields in Hmid as (T5 & Hbdn5 & Hpc5 & _).
  destruct (mstLevelLeafExit _ _ _ _ _) as [ed6 |] eqn:E6; simpl in Hrun;
    [| done].
  injection Hrun as <- <-.
  (* the marks of mstLevelLeafInit *)
  unfold mstLevelLeafInit in E1.
  destruct (extreduce_mldistsEmptySlotSetBase _ _) as [m |]; simpl in E1;
    [| done].
  set (ed0 := set_reddata (set_sds_vertical m (reddata ed)) ed) in *.
  destruct (bottleneckMarkRootPath g neighbor_base ed0) as [edm |] eqn:Em;
    simpl in E1; [| done].
  apply (bottleneckMarkRootPath_marks_only g neighbor_base ed0 anc) in Em
    as (bdn1 & -> & Hl1 & Hun1); [| exact Hp | exact Hall].
  (* the first part of mstLevelLeafExit *)
  unfold mstLevelLeafExit in E6.
  destruct (if ruled5 then _ else _) as [e |] eqn:Ee; simpl in E6; [| done].
  apply mstLevelLeafExit_first in Ee as (r & ->).
  destruct (bottleneckUnmarkRootPath _ _ _) as [ed7 |] eqn:E7; simpl in E6;
    [| done].
  assert (Htree5 : tree_parentNode ed5 = tree_parentNode ed
                   /\ tree_root ed5 = tree_root ed
                   /\ tree_deg ed5 = tree_deg ed
                   /\ tree_bottleneckDistNode ed5 = bdn1).
  { rewrite Hbdn5. apply tree_part_fields in T5 as (-> & -> & -> & _).
    destruct (pcSdToNode (pcdata ed)); injection E1 as <-; [| done].
    by destruct (pcSdToNodeMark_set g neighbor
                   (set_bottleneckDistNode bdn1 ed0)) as (q & ->). }
  destruct Htree5 as (Hpn5 & Hroot5 & Hdeg5 & Hb5).
  apply (bottleneckUnmarkRootPath_clears g neighbor_base _ anc) in E7
    as (bdn2 & -> & Hl2 & Hclear).
  2:{ simpl. by rewrite Hpn5. }
  2:{ simpl. by rewrite Hroot5, Hb5. }
  simpl in Hl2. rewrite Hb5, Hl1 in Hl2.
  assert (Hbdn2 : bdn2 = tree_bottleneckDistNode ed).
  { by apply (Forall_const_eq (-1)%Q). }
  split; [| split].
  - destruct (graph_pc_isPc g); injection E6 as <-; [| done].
    by destruct (pcSdToNodeUnmark_set g neighbor
                   (set_bottleneckDistNode bdn2 (set_reddata r ed5)))
      as (q & ->).
  - intros Hnone. rewrite Hnone in E1. injection E1 as <-.
    assert (Hpc : pcdata ed5 = pcdata ed) by by rewrite Hpc5.
    destruct (graph_pc_isPc g); injection E6 as <-; [| done].
    unfold pcSdToNodeUnmark. simpl. by rewrite Hpc, Hnone.
  - intros p Hsome HisPc Hallp Hdeg Hcap Hcost.
    rewrite Hsome in E1. injection E1 as <-.
    rewrite HisPc in E6. injection E6 as <-.
    destruct (pcSdToNodeMark_marked g neighbor
                (set_bottleneckDistNode bdn1 ed0) p)
      as (p' & c' & n' & L & Hmark & Hinv); try done.
    rewrite Hmark in Hpc5. simpl in Hpc5.
    destruct (pcSd_marked_unmark _ _ _ _ _ Hinv) as [Hclearp Hlenp].
    unfold pcSdToNodeUnmark. simpl. rewrite Hpc5. simpl. f_equal.
    by apply (Forall_const_eq (-1)%Q).
Qed.

End AddLeafMarks.

(** ** The distances of the sealed slot *)

Lemma slot_write_length_inrange (l : list Q) j x :
  0 <= j < Z.of_nat (length l) -> length (slot_write l j x) = length l.
Proof.
  intros Hj. unfold slot_write.
  destruct (Z.ltb_spec j 0); [lia |].
  destruct (Z.ltb_spec j (Z.of_nat (length l))); [| lia].
  apply length_insert.
Qed.

Lemma slot_write_lookup_inrange (l : list Q) j x (i : nat) :
  0 <= j < Z.of_nat (length l) ->
  slot_write l j x !! i = if decide (i = Z.to_nat j) then Some x else l !! i.
Proof.
  intros Hj. unfold slot_write.
  destruct (Z.ltb_spec j 0); [lia |].
  destruct (Z.ltb_spec j (Z.of_nat (length l))); [| lia].
  destruct (decide (i = Z.to_nat j)) as [-> | Hne].
  - apply list_lookup_insert_eq. lia.
  - by apply list_lookup_insert_ne.
Qed.

(** The loop [for( i = pos + 1; i < n; i++ ) dists[i - 1] = dists[i];]
    after [k] steps. *)
Lemma shift_left_steps (d : list Q) (pos : nat) :
  forall k : nat,
    (pos + k < length d)%nat ->
    let r := foldl (fun d i => slot_write d (i - 1)
                                 (zget STP_MLDISTS_DIST_UNSET d i))
               d (seqZ (Z.of_nat pos + 1) (Z.of_nat k)) in
    length r = length d
    /\ forall i : nat,
         r !! i = if decide (pos <= i < pos + k)%nat then d !! S i else d !! i.
Proof.
  induction k as [| k IH]; intros Hk.
  { simpl. split; [done |]. intros i. destruct (decide _); [lia | done]. }
  destruct (IH ltac:(lia)) as [Hlen Hget]. clear IH.
  cbv zeta. rewrite stdpp.list_numbers.list.seqZ_S, foldl_app. simpl.
  set (r := foldl _ d (seqZ (Z.of_nat pos + 1) (Z.of_nat k))) in *.
  replace (Z.of_nat pos + 1 + Z.of_nat k - 1) with (Z.of_nat (pos + k)) by lia.
  split.
  - rewrite slot_write_length_inrange; [done | lia].
  - intros i. rewrite slot_write_lookup_inrange by lia. rewrite Nat2Z.id.
    destruct (decide (i = (pos + k)%nat)) as [-> | Hne].
    + destruct (decide _) as [_ | ?]; [| lia].
      replace (Z.of_nat pos + 1 + Z.of_nat k) with (Z.of_nat (S (pos + k)))
        by lia.
      rewrite <- (zget_inrange_lookup STP_MLDISTS_DIST_UNSET r).
      * rewrite Nat2Z.id, Hget. destruct (decide _); [lia | done].
      * lia.
    + rewrite Hget. destruct (decide _), (decide _); (done || lia).
Qed.

Lemma shift_left_delete (d : list Q) (pos n : Z) :
  0 <= pos < n -> n = Z.of_nat (length d) ->
  take (Z.to_nat (n - 1))
    (foldl (fun d i => slot_write d (i - 1) (zget STP_MLDISTS_DIST_UNSET d i))
       d (seqZ (pos + 1) (n - (pos + 1))))
  = delete (Z.to_nat pos) d.
Proof.
  intros Hpos Hn.
  destruct (shift_left_steps d (Z.to_nat pos) (Z.to_nat (n - (pos + 1)))
              ltac:(lia)) as [Hlen Hget].
  rewrite !Z2Nat.id in Hlen, Hget by lia.
  apply list_eq. intros i.
  destruct (decide (i < Z.to_nat (n - 1))%nat) as [Hi | Hi].
  - rewrite lookup_take_lt by done. rewrite Hget.
    destruct (decide (Z.to_nat pos <= i < _)%nat) as [Hin | Hout].
    + by rewrite list_lookup_delete_ge by lia.
    + by rewrite list_lookup_delete_lt by lia.
  - rewrite lookup_take_ge by lia.
    symmetry. apply lookup_ge_None. rewrite length_delete; [lia |].
    apply lookup_lt_is_Some. lia.
Qed.

Section SlotDists.
Context `{Externals}.

Lemma extGetSd_pcdata g v1 v2 e1 e2 :
  pcdata e1 = pcdata e2 -> extGetSd g v1 v2 e1 = extGetSd g v1 v2 e2.
Proof. intros Hpc. unfold extGetSd, extGetSdDouble. by rewrite Hpc. Qed.

Lemma pcSdToNodeMark_inner_deg g e1 e2 sv h ec :
  tree_deg e1 = tree_deg e2 ->
  forall is2 c2 pc,
    pcSdToNodeMark_inner g e1 sv h ec is2 c2 pc
    = pcSdToNodeMark_inner g e2 sv h ec is2 c2 pc.
Proof.
  intros Hdeg. induction is2 as [| i is2 IH]; intros c2 pc; simpl; [done |].
  rewrite Hdeg. destruct (_ <? c2); [done | apply IH].
Qed.

Lemma pcSdToNodeMark_outer_deg g e1 e2 sv :
  tree_deg e1 = tree_deg e2 ->
  forall is1 c1 c2 pc,
    pcSdToNodeMark_outer g e1 sv is1 c1 c2 pc
    = pcSdToNodeMark_outer g e2 sv is1 c1 c2 pc.
Proof.
  intros Hdeg. induction is1 as [| i is1 IH]; intros c1 c2 pc; simpl; [done |].
  rewrite Hdeg.
  destruct (_ =? 0).
  - destruct (zget (0, 0) _ _) as [a b].
    rewrite (pcSdToNodeMark_inner_deg g e1 e2) by done.
    destruct (pcSdToNodeMark_inner _ _ _ _ _ _ _ _) as [pc' c2'].
    destruct (_ <? c1); [done | apply IH].
  - destruct (_ <? c1); [done | apply IH].
Qed.

Lemma pcSdToNodeMark_pcdata g v e1 e2 :
  tree_deg e1 = tree_deg e2 -> pcdata e1 = pcdata e2 ->
  pcdata (pcSdToNodeMark g v e1) = pcdata (pcSdToNodeMark g v e2).
Proof.
  intros Hdeg Hpc. unfold pcSdToNodeMark. rewrite Hpc.
  destruct (pcSdToNode (pcdata e2)); [| done].
  destruct (zget (0, 0) _ _) as [a b].
  rewrite (pcSdToNodeMark_outer_deg g e1 e2) by done.
  destruct (pcSdToNodeMark_outer _ _ _ _ _ _ _) as [[p' c'] n'].
  simpl. by rewrite Hpc.
Qed.

Lemma sdeq_only_fields ed ed' :
  sdeq_only ed ed' ->
  reddata ed' = reddata ed /\ pcdata ed' = pcdata ed
  /\ tree_part ed' = tree_part ed
  /\ tree_bottleneckDistNode ed' = tree_bottleneckDistNode ed.
Proof. by intros (f & h & s & ->). Qed.

Lemma mstLevelLeafSetVerticalSDs_loop_dists g e nb base :
  forall (n k : nat) ed ed' s,
    ml_emptyslot (sds_vertical (reddata ed)) = Some s ->
    length (slot_dists s) = k ->
    mstLevelLeafSetVerticalSDs_loop g e nb base
      (seqZ (Z.of_nat k) (Z.of_nat n)) ed = Some (ed', false) ->
    exists s',
      ml_emptyslot (sds_vertical (reddata ed')) = Some s'
      /\ slot_base s' = slot_base s
      /\ slot_dists s'
         = slot_dists s
           ++ ((fun j => sd_stored
                           (extGetSd g nb (zget (-1) (tree_leaves ed) j) ed))
                 <$> seqZ (Z.of_nat k) (Z.of_nat n)).
Proof.
  induction n as [| n IH]; intros k ed ed' s Hs Hk.
  { simpl. intros [= <-]. exists s. by rewrite app_nil_r. }
  rewrite seqZ_S. simpl.
  destruct (vertical_slot_write _ _ _) as [ed1 |] eqn:E1; simpl; [| done].
  destruct (bottleneckWithExtedgeIsDominated _ _ _ _ _ _) as [[ed2 d] |] eqn:E2;
    simpl; [| done].
  destruct d; [done |].
  apply bottleneckWithExtedgeIsDominated_sdeq_only in E2 as [E2 _].
  apply sdeq_only_fields in E2 as (Hr2 & Hpc2 & Ht2 & _).
  unfold vertical_slot_write, extreduce_mldistsEmptySlotTargetDists,
    extreduce_mldistsEmptySlotTargetIds, mldists_emptySlotStore in E1.
  rewrite Hs in E1. simpl in E1. injection E1 as <-.
  rewrite <- Hk, slot_write_append in Hr2.
  replace (Z.of_nat k + 1) with (Z.of_nat (S k)) by lia.
  intros Hl.
  destruct (IH (S k) ed2 ed'
              {| slot_base := slot_base s; slot_ids := slot_ids s;
                 slot_dists :=
                   slot_dists s
                   ++ [sd_stored
                         (extGetSd g nb
                            (zget (-1) (tree_leaves ed)
                               (Z.of_nat (length (slot_dists s)))) ed)] |})
    as (s' & Hs' & Hb' & Hd'); [by rewrite Hr2 | | exact Hl |].
  { simpl. rewrite length_app. simpl. lia. }
  exists s'. split; [done |]. split; [done |].
  rewrite Hd'. simpl. rewrite <- app_assoc. simpl. rewrite Hk.
  f_equal. f_equal. apply list_fmap_ext. intros i j _.
  apply tree_part_fields in Ht2 as (_ & _ & _ & Hleaves & _).
  simpl in Hleaves. rewrite Hleaves. f_equal.
  apply extGetSd_pcdata. by rewrite Hpc2.
Qed.


Lemma mstLevelLeafInit_slot g nb n ed ed1 s :
  mstLevelLeafInit g nb n ed = Some ed1 ->
  ml_emptyslot (sds_vertical (reddata ed)) = Some s ->
  ml_emptyslot (sds_vertical (reddata ed1))
  = Some {| slot_base := n; slot_ids := slot_ids s;
            slot_dists := slot_dists s |}
  /\ pcdata ed1 = pcdata (pcSdToNodeMark g n ed).
Proof.
  unfold mstLevelLeafInit, extreduce_mldistsEmptySlotSetBase.
  intros Hinit Hs. rewrite Hs in Hinit. simpl in Hinit.
  destruct (bottleneckMarkRootPath _ _ _) as [ed2 |] eqn:E; simpl in Hinit;
    [| done].
  apply bottleneckMarkRootPath_set in E as (bdn & ->).
  destruct (pcSdToNode (pcdata ed)) eqn:Epc; injection Hinit as <-.
  - destruct (pcSdToNodeMark_set g n
                (set_bottleneckDistNode bdn
                   (set_reddata
                      (set_sds_vertical
                         {| ml_levels := ml_levels (sds_vertical (reddata ed));
                            ml_emptyslot :=
                              Some {| slot_base := n; slot_ids := slot_ids s;
                                      slot_dists := slot_dists s |} |}
                         (reddata ed)) ed))) as (p & Hp).
    split; [by rewrite Hp |]. by apply pcSdToNodeMark_pcdata.
  - split; [done |]. unfold pcSdToNodeMark. by rewrite Epc.
Qed.

Lemma mstLevelLeafExit_slot g nb n ed5 ed6 s top rest :
  mstLevelLeafExit g nb n false ed5 = Some ed6 ->
  extIsAtInitialComp ed5 = false ->
  ml_emptyslot (sds_vertical (reddata ed5)) = Some s ->
  ml_levels (sds_vertical (reddata ed5)) = top :: rest ->
  ml_levels (sds_vertical (reddata ed6))
  = level_add_slot top
      (sealed_slot (level_ntargets top)
         {| slot_base := slot_base s; slot_ids := slot_ids s;
            slot_dists :=
              foldl (fun d i => slot_write d (i - 1)
                                  (zget STP_MLDISTS_DIST_UNSET d i))
                (slot_dists s)
                (seqZ (extLeafFindPos ed5 nb + 1)
                   (tree_nleaves ed5 - (extLeafFindPos ed5 nb + 1))) |})
    :: rest.
Proof.
  unfold mstLevelLeafExit, mstLevelLeafAdjustVerticalSDs,
    extreduce_mldistsEmptySlotSetFilled,
    extreduce_mldistsEmptySlotTargetDistsDirty,
    extreduce_mldistsEmptySlotTargetIds, mldists_emptySlotStore.
  intros Hexit Hinit Hs Hlev. rewrite Hinit, Hs in Hexit. simpl in Hexit.
  rewrite Hlev in Hexit. simpl in Hexit.
  destruct (bottleneckUnmarkRootPath _ _ _) as [ed7 |] eqn:E7; simpl in Hexit;
    [| done].
  apply bottleneckUnmarkRootPath_set in E7 as (bdn & ->).
  destruct (graph_pc_isPc g); injection Hexit as <-; [| done].
  by edestruct pcSdToNodeUnmark_set as (p & ->).
Qed.

(** X7.  When the stack inspectors read the stack and the tree only, and
    away from the initial component: a neighbour that
    [extreduce_mstLevelVerticalAddLeaf] does not rule out, added after
    [level_init] (fresh slot, one target per leaf other than the base), gets
    a slot that holds, in the order of the leaves array, the stored special
    distance from the neighbour to every tree leaf except the base of the
    extension edge; an unknown distance is stored as FARAWAY. *)
Theorem extreduce_mstLevelVerticalAddLeaf_slot_dists (g : GRAPH)
    (edge2neighbor : Z) (ed ed' : EXTDATA) (top : MLLEVEL)
    (rest : list MLLEVEL) :
  let neighbor := zget (-1) (head g) edge2neighbor in
  let neighbor_base := zget (-1) (tail g) edge2neighbor in
  let pos := extLeafFindPos ed neighbor_base in
  let sd_to_leaf j :=
    sd_stored (extGetSd g neighbor (zget (-1) (tree_leaves ed) j)
                 (pcSdToNodeMark g neighbor ed)) in
  (forall e1 e2, tree_part e1 = tree_part e2 ->
     extIsAtInitialComp e1 = extIsAtInitialComp e2
     /\ extLeafFindPos e1 = extLeafFindPos e2) ->
  extreduce_mstLevelVerticalAddLeaf g edge2neighbor ed = Some (ed', false) ->
  extIsAtInitialComp ed = false ->
  0 <= pos < tree_nleaves ed ->
  ml_levels (sds_vertical (reddata ed)) = top :: rest ->
  level_ntargets top = tree_nleaves ed - 1 ->
  ml_emptyslot (sds_vertical (reddata ed)) = Some fresh_slot ->
  exists s,
    ml_levels (sds_vertical (reddata ed')) = level_add_slot top s :: rest
    /\ slot_base s = neighbor
    /\ slot_dists s
       = delete (Z.to_nat pos) (sd_to_leaf <$> seqZ 0 (tree_nleaves ed)).
Proof.
  intros neighbor neighbor_base pos sd_to_leaf Hlaw Hrun Hinit Hpos Hlev
    Hnt Hfresh.
  unfold extreduce_mstLevelVerticalAddLeaf in Hrun.
  fold neighbor neighbor_base in Hrun.
  destruct (mstLevelLeafInit _ _ _ _) as [ed1 |] eqn:E1; simpl in Hrun;
    [| done].
  destruct (mstLevelLeafInit_slot _ _ _ _ _ _ E1 Hfresh) as [Hs1 Hpc1].
  apply mstLevelLeafInit_fields in E1 as (T1 & _ & _ & _ & Hv1 & _).
  destruct (mstLevelLeafSetVerticalSDs _ _ _) as [[ed2 ruled2] |] eqn:E2;
    simpl in Hrun; [| done].
  destruct (if ruled2 then Some true else _) as [ruled3 |] eqn:E3;
    simpl in Hrun; [| done].
  destruct (if graph_pc_isPc g && negb ruled3 then _ else _)
    as [[ed4 ruled4] |] eqn:E4; simpl in Hrun; [| done].
  destruct (if negb ruled4 then _ else _) as [[ed5 ruled5] |] eqn:E5;
    simpl in Hrun; [| done].
  destruct (mstLevelLeafExit _ _ _ _ _) as [ed6 |] eqn:E6; simpl in Hrun;
    [| done].
  injection Hrun as <- ->.
  (* nothing has ruled the neighbour out *)
  assert (ruled4 = false) as ->.
  { destruct ruled4; [| done]. simpl in E5. by injection E5. }
  assert (ruled3 = false) as ->.
  { destruct ruled3; [| done]. rewrite andb_false_r in E4. by injection E4. }
  assert (ruled2 = false) as ->.
  { destruct ruled2; [| done]. by injection E3. }
  (* the tests after the distances change the forbidden edges only *)
  assert (H25 : sdeq_only ed2 ed5).
  { assert (H24 : sdeq_only ed2 ed4).
    { destruct (_ && _).
      - by eapply bottleneckCheckNonLeaves_pc_loop_sdeq_only.
      - injection E4 as <-. apply sdeq_only_refl. }
    simpl in E5. eapply sdeq_only_trans; [exact H24 |].
    by eapply bottleneckCheckNonLeaves_loop_sdeq_only. }
  apply sdeq_only_fields in H25 as (Hr5 & _ & T5 & _).
  pose proof (mstLevelLeafSetVerticalSDs_loop_slot_only _ _ _ _ _ _ _ _ E2)
    as H12.
  apply slot_only_fields in H12 as (T2 & _ & _ & _ & _ & _ & Hv2 & _).
  (* the distances written by mstLevelLeafSetVerticalSDs *)
  assert (Hn1 : tree_nleaves ed1 = tree_nleaves ed
                /\ tree_leaves ed1 = tree_leaves ed).
  { apply tree_part_fields in T1 as (_ & _ & _ & -> & ->). done. }
  destruct Hn1 as [Hn1 Hleaves1].
  unfold mstLevelLeafSetVerticalSDs in E2. fold neighbor neighbor_base in E2.
  rewrite Hn1, (seqZ_of_to_nat 0 (tree_nleaves ed)) in E2.
  destruct (mstLevelLeafSetVerticalSDs_loop_dists g edge2neighbor neighbor
              neighbor_base (Z.to_nat (tree_nleaves ed)) 0 ed1 ed2 _ Hs1
              eq_refl E2) as (s2 & Hs2 & Hb2 & Hd2).
  simpl in Hb2, Hd2. rewrite <- seqZ_of_to_nat in Hd2.
  assert (Hd2' : slot_dists s2 = sd_to_leaf <$> seqZ 0 (tree_nleaves ed)).
  { rewrite Hd2. apply list_fmap_ext. intros i j _. unfold sd_to_leaf.
    rewrite Hleaves1. f_equal. apply extGetSd_pcdata. exact Hpc1. }
  (* mstLevelLeafExit removes the entry of the base and seals the slot *)
  assert (T51 : tree_part ed5 = tree_part ed) by congruence.
  destruct (Hlaw ed5 ed T51) as [Hinit5 Hpos5].
  assert (Hn5 : tree_nleaves ed5 = tree_nleaves ed).
  { by apply tree_part_fields in T51 as (_ & _ & _ & _ & ->). }
  apply (mstLevelLeafExit_slot g neighbor_base neighbor ed5 ed6 s2 top rest)
    in E6; [| congruence | by rewrite Hr5 | by rewrite Hr5, Hv2, Hv1].
  rewrite Hpos5, Hn5 in E6. fold pos in E6.
  eexists. split; [exact E6 |]. split; [done |].
  simpl. rewrite Hnt, <- Hd2'.
  apply shift_left_delete; [done |].
  rewrite Hd2', length_fmap, length_seqZ. lia.
Qed.

End SlotDists.

Lemma example_externals_inspect_tree sd sdf e1 e2 :
  tree_part e1 = tree_part e2 ->
  @extIsAtInitialComp (example_externals sd sdf) e1
  = @extIsAtInitialComp (example_externals sd sdf) e2
  /\ @extLeafFindPos (example_externals sd sdf) e1
     = @extLeafFindPos (example_externals sd sdf) e2.
Proof.
  unfold tree_part. intros Heq. destruct e1, e2. by simplify_eq/=.
Qed.

Lemma extreduce_mstLevelVerticalAddLeaf_slot_dists_witness :
  exists ed' s,
    @extreduce_mstLevelVerticalAddLeaf triangle_externals triangle_graph 2
      triangle_tree = Some (ed', false)
    /\ ml_levels (sds_vertical (reddata ed'))
       = {| level_maxslots := STP_EXT_MAXGRAD; level_ntargets := 1;
            level_slots := [s]; level_closed := false |}
         :: List.tl (ml_levels (sds_vertical (reddata triangle_tree)))
    /\ slot_base s = 2
    /\ slot_dists s = [1.5%Q].
Proof.
  assert (Hrun : exists ed',
             @extreduce_mstLevelVerticalAddLeaf triangle_externals
               triangle_graph 2 triangle_tree = Some (ed', false)).
  { eexists. vm_compute. reflexivity. }
  destruct Hrun as (ed' & Hrun).
  edestruct (@extreduce_mstLevelVerticalAddLeaf_slot_dists triangle_externals
               triangle_graph 2 triangle_tree ed')
    as (s & Hlev & Hbase & Hdists).
  - exact (example_externals_inspect_tree triangle_sd no_sd).
  - exact Hrun.
  - reflexivity.
  - by vm_compute.
  - reflexivity.
  - reflexivity.
  - reflexivity.
  - exists ed', s. split; [exact Hrun |]. split; [by rewrite Hlev |].
    split; [exact Hbase |]. rewrite Hdists. vm_compute. reflexivity.
Defined.

Lemma extreduce_mstLevelVerticalAddLeaf_store_witness :
  exists ed',
    @extreduce_mstLevelVerticalAddLeaf triangle_externals triangle_graph 2
      triangle_tree = Some (ed', false)
    /\ tree_part ed' = tree_part triangle_tree
    /\ sds_horizontal (reddata ed') = sds_horizontal (reddata triangle_tree)
    /\ msts_comp (reddata ed') = msts_comp (reddata triangle_tree).
Proof.
  assert (Hrun : exists ed',
             @extreduce_mstLevelVerticalAddLeaf triangle_externals
               triangle_graph 2 triangle_tree = Some (ed', false)).
  { eexists. vm_compute. reflexivity. }
  destruct Hrun as (ed' & Hrun). exists ed'.
  destruct (@extreduce_mstLevelVerticalAddLeaf_store triangle_externals
              triangle_graph 2 triangle_tree ed' false Hrun)
    as (Ht & Hh & Hc & _).
  by repeat split.
Defined.

Lemma extreduce_mstLevelVerticalAddLeaf_unmarks_witness :
  exists ed',
    @extreduce_mstLevelVerticalAddLeaf triangle_externals triangle_graph 2
      triangle_tree = Some (ed', false)
    /\ tree_bottleneckDistNode ed' = [(-1)%Q; (-1)%Q; (-1)%Q]
    /\ pcdata ed' = pcdata triangle_tree.
Proof.
  assert (Hrun : exists ed',
             @extreduce_mstLevelVerticalAddLeaf triangle_externals
               triangle_graph 2 triangle_tree = Some (ed', false)).
  { eexists. vm_compute. reflexivity. }
  destruct Hrun as (ed' & Hrun). exists ed'.
  destruct (@extreduce_mstLevelVerticalAddLeaf_unmarks triangle_externals
              triangle_graph 2 triangle_tree ed' false [0] Hrun)
    as (Hb & Hpc & _).
  - apply root_path_step; [reflexivity | done |].
    apply root_path_root; [by vm_compute | reflexivity].
  - repeat constructor.
  - split; [exact Hrun |]. split; [exact Hb | by apply Hpc].
Defined.

(** ** What the dominance tests change, stated *)

Section DominanceTests.
Context `{Externals}.

(** X8.  A dominance test that answers "not dominated" leaves the extension
    data exactly as it was, and one that answers "dominated" changes at most
    the equality-forbidden edge set (the flags, the has-forbidden flag and
    the reset stack): the tests against ancestors, against the extension
    edge and against siblings never touch the tree, the bottleneck marks or
    the stores. *)
Theorem dominance_tests_change_sdeq_only (g : GRAPH) (ed : EXTDATA) :
  (forall vpm vu sd ef ed' b,
     bottleneckIsDominated g vpm vu sd ef ed = Some (ed', b) ->
     sdeq_only ed ed' /\ (b = false -> ed' = ed))
  /\ (forall e vpm vu sd ed' b,
        bottleneckWithExtedgeIsDominated g e vpm vu sd ed = Some (ed', b) ->
        sdeq_only ed ed' /\ (b = false -> ed' = ed))
  /\ (forall e e2 sd,
        sdeq_only ed (fst (bottleneckToSiblingIsDominated g e e2 sd ed))
        /\ (snd (bottleneckToSiblingIsDominated g e e2 sd ed) = false ->
            fst (bottleneckToSiblingIsDominated g e e2 sd ed) = ed)).
Proof.
  split; [| split].
  - intros vpm vu sd ef ed' b. apply bottleneckIsDominated_sdeq_only.
  - intros e vpm vu sd ed' b. apply bottleneckWithExtedgeIsDominated_sdeq_only.
  - intros e e2 sd. apply bottleneckToSiblingIsDominated_sdeq_only.
Qed.

End DominanceTests.

(** ** The component depot across the peripheral rule-out *)

Lemma marks_only_refl ed : marks_only ed ed.
Proof.
  exists (tree_bottleneckDistNode ed), (sdeq_edgesIsForbidden ed),
    (sdeq_hasForbiddenEdges ed), (sdeq_resetStack ed). by destruct ed.
Qed.

Lemma marks_only_trans ed1 ed2 ed3 :
  marks_only ed1 ed2 -> marks_only ed2 ed3 -> marks_only ed1 ed3.
Proof.
  intros (b & f & h & s & ->) (b' & f' & h' & s' & ->).
  by exists b', f', h', s'.
Qed.

Lemma sdeq_only_marks_only ed ed' : sdeq_only ed ed' -> marks_only ed ed'.
Proof.
  intros (f & h & s & ->). by exists (tree_bottleneckDistNode ed), f, h, s.
Qed.

Lemma set_bottleneckDistNode_marks_only b ed :
  marks_only ed (set_bottleneckDistNode b ed).
Proof.
  exists b, (sdeq_edgesIsForbidden ed), (sdeq_hasForbiddenEdges ed),
    (sdeq_resetStack ed). by destruct ed.
Qed.

Lemma marks_only_fields ed ed' :
  marks_only ed ed' ->
  reddata ed' = reddata ed /\ pcdata ed' = pcdata ed
  /\ tree_part ed' = tree_part ed.
Proof. by intros (b & f & h & s & ->). Qed.

Section Periph.
Context `{Externals}.

Lemma mstCompLeafGetSDsToSiblings_loop_marks_only g e2t topleaf :
  forall idxs hit sds ed ed' sds' b,
    mstCompLeafGetSDsToSiblings_loop g e2t topleaf idxs hit sds ed
    = Some (ed', sds', b) ->
    marks_only ed ed'.
Proof.
  induction idxs as [| i idxs IH]; intros hit sds ed ed' sds' b; simpl.
  { intros [= <- _ _]. apply marks_only_refl. }
  destruct (_ =? topleaf); [apply IH |].
  destruct (extreduce_mldistsTopTargetDist _ _ _) as [sd |]; simpl; [| done].
  destruct (negb (_ =? _)).
  - destruct (bottleneckIsDominated _ _ _ _ _ _) as [[ed1 d] |] eqn:E; simpl;
      [| done].
    apply bottleneckIsDominated_sdeq_only in E as [E _].
    apply sdeq_only_marks_only in E.
    destruct d; [by intros [= <- _ _] |].
    intros Hl. apply IH in Hl. by eapply marks_only_trans.
  - destruct (negb hit); [apply IH |].
    pose proof (bottleneckToSiblingIsDominated_sdeq_only g e2t
                  (zget (-1) (extstack_data ed) i) sd ed) as [E _].
    destruct (bottleneckToSiblingIsDominated _ _ _ _ _) as [ed1 d].
    simpl in E. apply sdeq_only_marks_only in E.
    destruct d; [by intros [= <- _ _] |].
    intros Hl. apply IH in Hl. by eapply marks_only_trans.
Qed.

Lemma mstCompLeafGetSDsToAncestors_loop_marks_only g e2l topleaf adj :
  forall js ed ed' b,
    mstCompLeafGetSDsToAncestors_loop g e2l topleaf adj js ed = Some (ed', b) ->
    marks_only ed ed'.
Proof.
  induction js as [| j js IH]; intros ed ed' b; simpl.
  { intros [= <- _]. apply marks_only_refl. }
  destruct (bottleneckIsDominated _ _ _ _ _ _) as [[ed1 d] |] eqn:E; simpl;
    [| done].
  apply bottleneckIsDominated_sdeq_only in E as [E _].
  apply sdeq_only_marks_only in E.
  destruct d; [by intros [= <- _] |].
  intros Hl. apply IH in Hl. by eapply marks_only_trans.
Qed.

Lemma mstCompLeafGetSDs_marks_only g e2l ed ed' sds b :
  mstCompLeafGetSDs g e2l ed = Some (ed', sds, b) -> marks_only ed ed'.
Proof.
  unfold mstCompLeafGetSDs.
  destruct (mstCompLeafGetSDsToSiblings _ _ _) as [[[ed1 s1] r1] |] eqn:E1;
    simpl; [| done].
  assert (H1 : marks_only ed ed1).
  { unfold mstCompLeafGetSDsToSiblings in E1.
    destruct (if extIsAtInitialGenStar ed then _ else _) as [ea |] eqn:Ea;
      simpl in E1; [| done].
    assert (Ha : marks_only ed ea).
    { destruct (extIsAtInitialGenStar ed).
      - apply bottleneckMarkRootPath_set in Ea as (bdn & ->).
        apply set_bottleneckDistNode_marks_only.
      - injection Ea as <-. apply marks_only_refl. }
    destruct (mstCompLeafGetSDsToSiblings_loop _ _ _ _ _ _ _)
      as [[[eb sb] rb] |] eqn:Eb; simpl in E1; [| done].
    apply mstCompLeafGetSDsToSiblings_loop_marks_only in Eb.
    destruct (if extIsAtInitialGenStar ed then _ else _) as [ec |] eqn:Ec
      in E1; simpl in E1; [| done].
    injection E1 as <- _ _.
    eapply marks_only_trans; [exact Ha |].
    eapply marks_only_trans; [exact Eb |].
    destruct (extIsAtInitialGenStar ed).
    - apply bottleneckUnmarkRootPath_set in Ec as (bdn & ->).
      apply set_bottleneckDistNode_marks_only.
    - injection Ec as <-. apply marks_only_refl. }
  destruct r1; [by intros [= <- _ _] |].
  destruct (mstCompLeafGetSDsToAncestors _ _ _ _) as [[[ed2 s2] r2] |] eqn:E2;
    simpl; [| done].
  intros [= <- _ _]. eapply marks_only_trans; [exact H1 |].
  unfold mstCompLeafGetSDsToAncestors in E2.
  destruct (extreduce_mldistsTopTargetDists _ _) as [adj |]; simpl in E2;
    [| done].
  destruct (_ || _).
  - destruct (bottleneckMarkRootPath _ _ _) as [ea |] eqn:Ea; simpl in E2;
      [| done].
    apply bottleneckMarkRootPath_set in Ea as (bdn & ->).
    destruct (mstCompLeafGetSDsToAncestors_loop _ _ _ _ _ _) as [[eb rb] |]
      eqn:Eb; simpl in E2; [| done].
    apply mstCompLeafGetSDsToAncestors_loop_marks_only in Eb.
    destruct (bottleneckUnmarkRootPath _ _ _) as [ec |] eqn:Ec; simpl in E2;
      [| done].
    apply bottleneckUnmarkRootPath_set in Ec as (bdn' & ->).
    injection E2 as <- _ _.
    eapply marks_only_trans; [apply set_bottleneckDistNode_marks_only |].
    eapply marks_only_trans; [exact Eb |].
    apply set_bottleneckDistNode_marks_only.
  - injection E2 as <- _ _. apply marks_only_refl.
Qed.

Lemma mstCompBuildMst_loop_marks_only g :
  forall idxs x ed ed' x' b,
    mstCompBuildMst_loop g idxs x ed = Some (ed', x', b) ->
    marks_only ed ed'.
Proof.
  induction idxs as [| i idxs IH]; intros x ed ed' x' b; simpl.
  { intros [= <- _ _]. apply marks_only_refl. }
  unfold mstCompAddLeaf.
  destruct (mstCompLeafGetSDs _ _ _) as [[[ed1 adj] r] |] eqn:E; simpl;
    [| done].
  apply mstCompLeafGetSDs_marks_only in E.
  destruct r; simpl; [by intros [= <- _ _] |].
  intros Hl. apply IH in Hl. by eapply marks_only_trans.
Qed.

(** X9.  [extreduce_mstRuleOutPeriph] leaves the extension stack, the tree,
    the prize-collecting data, both distance stores and the levelbase depot
    as they are.  The component depot afterwards holds either the same MSTs
    (a leaf was ruled out by a bottleneck test and the half-built MST was
    removed again) or exactly one more MST on top, allocated for [n_leaves]
    nodes.  In both cases [extreduce_mstCompRemove], called later with these
    stores on a tree of a depth for which the depot held [tree_depth + 1]
    MSTs before the rule-out, restores the MSTs of the depot. *)
Theorem extreduce_mstRuleOutPeriph_depot (g : GRAPH) (ed ed' : EXTDATA)
    (ruledOut : bool) :
  extreduce_mstRuleOutPeriph g ed = Some (ed', ruledOut) ->
  tree_part ed' = tree_part ed
  /\ pcdata ed' = pcdata ed
  /\ sds_vertical (reddata ed') = sds_vertical (reddata ed)
  /\ sds_horizontal (reddata ed') = sds_horizontal (reddata ed)
  /\ msts_levelbase (reddata ed') = msts_levelbase (reddata ed)
  /\ (depo_csrs (msts_comp (reddata ed'))
      = depo_csrs (msts_comp (reddata ed))
      \/ exists c,
           nnodes c = tree_nleaves ed
           /\ nedges_max c = 2 * (tree_nleaves ed - 1)
           /\ depo_csrs (msts_comp (reddata ed'))
              = c :: depo_csrs (msts_comp (reddata ed)))
  /\ (forall e,
        reddata e = reddata ed' ->
        0 <= tree_depth e ->
        graph_csrdepo_getNcsrs (msts_comp (reddata ed)) = tree_depth e + 1 ->
        exists e',
          extreduce_mstCompRemove g e = Some e'
          /\ depo_csrs (msts_comp (reddata e'))
             = depo_csrs (msts_comp (reddata ed))).
Proof.
  unfold extreduce_mstRuleOutPeriph, mstCompBuildMst.
  destruct (graph_csrdepo_getTopCSR (msts_levelbase (reddata ed)))
    as [mst_base |]; simpl; [| done].
  destruct (mstCompBuildMst_loop _ _ _ _) as [[[ed1 x1] r1] |] eqn:El; simpl;
    [| done].
  apply mstCompBuildMst_loop_marks_only in El.
  apply marks_only_fields in El as (Hr & Hpc & Ht).
  rewrite tree_part_set_reddata in Ht. simpl in Hr, Hpc.
  rewrite Hr. simpl.
  destruct r1; simpl.
  - intros [= <- <-]. rewrite tree_part_set_reddata. simpl.
    repeat split; try done; [by left |].
    intros e He Hd Hn.
    unfold extreduce_mstCompRemove, graph_csrdepo_getNcsrs in *.
    rewrite He. simpl.
    destruct (Z.ltb_spec (tree_depth e)
                (Z.of_nat (length (depo_csrs (msts_comp (reddata ed)))) - 1));
      [lia |].
    eexists. split; [reflexivity |]. by rewrite He.
  - unfold mstCompRuleOut. simpl.
    intros [= <- <-]. rewrite tree_part_set_reddata. simpl.
    repeat split; try done.
    + right. eexists. split; [| split; [| reflexivity]]; done.
    + intros e He Hd Hn.
      unfold extreduce_mstCompRemove, graph_csrdepo_getNcsrs in *.
      rewrite He. simpl.
      match goal with
      | |- context [Z.ltb ?a ?b] => destruct (Z.ltb_spec a b) as [_ | Hge]
      end.
      * simpl. by eexists.
      * simpl in Hge. lia.
Qed.

End Periph.



Lemma extreduce_mstRuleOutPeriph_depot_witness :
  exists ed' c,
    @extreduce_mstRuleOutPeriph star_externals star_graph star_tree_periph
    = Some (ed', true)
    /\ nnodes c = 3
    /\ depo_csrs (msts_comp (reddata ed'))
       = c :: depo_csrs (msts_comp (reddata star_tree_periph))
    /\ msts_levelbase (reddata ed') = msts_levelbase (reddata star_tree_periph).
Proof.
  assert (Hrun : exists ed',
             @extreduce_mstRuleOutPeriph star_externals star_graph
               star_tree_periph = Some (ed', true)).
  { eexists. vm_compute. reflexivity. }
  destruct Hrun as (ed' & Hrun).
  destruct (@extreduce_mstRuleOutPeriph_depot star_externals star_graph
              star_tree_periph ed' true Hrun)
    as (_ & _ & _ & _ & Hlb & Hdepot & _).
  destruct Hdepot as [Hsame | (c & Hn & _ & Hc)].
  - exfalso.
    assert (Hlen : length (depo_csrs (msts_comp (reddata ed'))) = 3%nat).
    { revert Hrun. vm_compute. intros [= <-]. reflexivity. }
    rewrite Hsame in Hlen. discriminate Hlen.
  - exists ed', c. by repeat split.
Defined.

(** ** The horizontal level *)

Lemma hslot_only_refl ed : hslot_only ed ed.
Proof. by repeat split. Qed.

Lemma hslot_only_trans ed1 ed2 ed3 :
  hslot_only ed1 ed2 -> hslot_only ed2 ed3 -> hslot_only ed1 ed3.
Proof.
  intros (? & ? & ? & ? & ? & ?) (? & ? & ? & ? & ? & ?).
  repeat split; congruence.
Qed.

Lemma level_add_slots_nil l : level_add_slots l [] = l.
Proof. destruct l. unfold level_add_slots. simpl. by rewrite app_nil_r. Qed.

Lemma level_add_slots_app l s1 s2 :
  level_add_slots (level_add_slots l s1) s2 = level_add_slots l (s1 ++ s2).
Proof. unfold level_add_slots. simpl. by rewrite app_assoc. Qed.

Section Horizontal.
Context `{Externals}.

Lemma horizontal_slot_write_hslot_only j id x ed ed' :
  horizontal_slot_write j id x ed = Some ed' -> hslot_only ed ed'.
Proof.
  unfold horizontal_slot_write, extreduce_mldistsEmptySlotTargetDists,
    extreduce_mldistsEmptySlotTargetIds, mldists_emptySlotStore.
  destruct (ml_emptyslot (sds_horizontal (reddata ed))) as [sl |] eqn:E;
    simpl; [| done].
  intros [= <-]. unfold hslot_only. simpl. by rewrite E.
Qed.

Lemma extreduce_mstLevelHorizontalAdd_left_hslot_only g extedges ext_head :
  forall js ed ed',
    extreduce_mstLevelHorizontalAdd_left g extedges ext_head js ed = Some ed' ->
    hslot_only ed ed'.
Proof.
  induction js as [| j js IH]; intros ed ed'; simpl.
  { intros [= <-]. apply hslot_only_refl. }
  destruct (extreduce_mldistsTopTargetDist _ _ _); simpl; [| done].
  destruct (horizontal_slot_write _ _ _ _) as [ed1 |] eqn:E; simpl; [| done].
  apply horizontal_slot_write_hslot_only in E.
  intros Hl. apply IH in Hl. by eapply hslot_only_trans.
Qed.

Lemma extreduce_mstLevelHorizontalAdd_right_hslot_only g extedges ext_head :
  forall js ed ed',
    extreduce_mstLevelHorizontalAdd_right g extedges ext_head js ed = Some ed' ->
    hslot_only ed ed'.
Proof.
  induction js as [| j js IH]; intros ed ed'; simpl.
  { intros [= <-]. apply hslot_only_refl. }
  destruct (horizontal_slot_write _ _ _ _) as [ed1 |] eqn:E; simpl; [| done].
  apply horizontal_slot_write_hslot_only in E.
  intros Hl. apply IH in Hl. by eapply hslot_only_trans.
Qed.

Lemma set_pcdata_hslot_only p ed : hslot_only ed (set_pcdata p ed).
Proof. by repeat split. Qed.

Lemma extreduce_mstLevelHorizontalAdd_loop_levels g nextedges extedges isPc :
  forall idxs ed ed' top rest,
    extreduce_mstLevelHorizontalAdd_loop g nextedges extedges isPc idxs ed
    = Some ed' ->
    ml_levels (sds_horizontal (reddata ed)) = top :: rest ->
    exists slots,
      ml_levels (sds_horizontal (reddata ed'))
      = level_add_slots top slots :: rest
      /\ slot_base <$> slots
         = (fun i => zget (-1) (head g) (zget (-1) extedges i)) <$> idxs
      /\ Forall (fun s => (length (slot_dists s)
                           <= Z.to_nat (level_ntargets top))%nat
                          /\ (length (slot_ids s)
                              <= Z.to_nat (level_ntargets top))%nat) slots
      /\ tree_part ed' = tree_part ed
      /\ sds_vertical (reddata ed') = sds_vertical (reddata ed)
      /\ msts_comp (reddata ed') = msts_comp (reddata ed)
      /\ msts_levelbase (reddata ed') = msts_levelbase (reddata ed).
Proof.
  induction idxs as [| i idxs IH]; intros ed ed' top rest; simpl.
  { intros [= <-] Hlev. exists []. rewrite level_add_slots_nil.
    by repeat split. }
  set (ext_head := zget (-1) (head g) (zget (-1) extedges i)).
  unfold extreduce_mldistsEmptySlotSetBase.
  destruct (ml_emptyslot (sds_horizontal (reddata ed))) as [sl |] eqn:Esl;
    simpl; [| done].
  set (ed1 := set_reddata _ ed).
  set (ed2 := if isPc then pcSdToNodeMark g ext_head ed1 else ed1).
  assert (H12 : hslot_only ed1 ed2).
  { unfold ed2. destruct isPc; [| apply hslot_only_refl].
    destruct (pcSdToNodeMark_set g ext_head ed1) as (p & ->).
    apply set_pcdata_hslot_only. }
  destruct (extreduce_mstLevelHorizontalAdd_left _ _ _ _ _) as [ed3 |] eqn:E3;
    simpl; [| done].
  apply extreduce_mstLevelHorizontalAdd_left_hslot_only in E3.
  destruct (extreduce_mstLevelHorizontalAdd_right _ _ _ _ _) as [ed4 |] eqn:E4;
    simpl; [| done].
  apply extreduce_mstLevelHorizontalAdd_right_hslot_only in E4.
  set (ed5 := if isPc then pcSdToNodeUnmark g ext_head ed4 else ed4).
  assert (H45 : hslot_only ed4 ed5).
  { unfold ed5. destruct isPc; [| apply hslot_only_refl].
    destruct (pcSdToNodeUnmark_set g ext_head ed4) as (p & ->).
    apply set_pcdata_hslot_only. }
  pose proof (hslot_only_trans _ _ _ H12
                (hslot_only_trans _ _ _ E3 (hslot_only_trans _ _ _ E4 H45)))
    as (T5 & Hv5 & Hc5 & Hl5 & Hlev5 & Hb5).
  simpl in T5, Hv5, Hc5, Hl5, Hlev5, Hb5.
  intros Hrun Hlev.
  unfold extreduce_mldistsEmptySlotSetFilled in Hrun.
  destruct (ml_emptyslot (sds_horizontal (reddata ed5))) as [s5 |] eqn:Es5;
    simpl in Hrun; [| done].
  simpl in Hb5. injection Hb5 as Hb5.
  rewrite Hlev5, Hlev in Hrun.
  apply (IH _ _ (level_add_slot top (sealed_slot (level_ntargets top) s5))
           rest) in Hrun as (slots & Hl' & Hbases & Hlens & T' & Hv' & Hc' & Hb');
    [| reflexivity].
  exists (sealed_slot (level_ntargets top) s5 :: slots).
  split.
  { rewrite Hl'. unfold level_add_slots, level_add_slot. simpl.
    by rewrite <- app_assoc. }
  split; [rewrite !fmap_cons, Hbases; simpl; by rewrite Hb5 |].
  split.
  { constructor; [simpl; rewrite !length_take; lia | exact Hlens]. }
  simpl in T', Hv', Hc', Hb'.
  assert (T1 : tree_part ed1 = tree_part ed) by apply tree_part_set_reddata.
  rewrite tree_part_set_reddata in T'.
  repeat split; congruence.
Qed.

(** X10.  [extreduce_mstLevelHorizontalAdd] pushes exactly one level on the
    horizontal store and leaves everything else as it is: the levels below,
    the vertical store, both MST depots, the extension stack and the tree.
    The new level has room for [nextedges] slots of [nextedges - 1] targets,
    and its slots are, in the order of the extension edges, based at the
    heads of these edges, none with more ids or distances than targets. *)
Theorem extreduce_mstLevelHorizontalAdd_level (g : GRAPH) (nextedges : Z)
    (extedges : list Z) (ed ed' : EXTDATA) :
  extreduce_mstLevelHorizontalAdd g nextedges extedges ed = Some ed' ->
  exists slots,
    ml_levels (sds_horizontal (reddata ed'))
    = {| level_maxslots := nextedges; level_ntargets := nextedges - 1;
         level_slots := slots; level_closed := false |}
      :: ml_levels (sds_horizontal (reddata ed))
    /\ slot_base <$> slots
       = (fun i => zget (-1) (head g) (zget (-1) extedges i))
           <$> seqZ 0 nextedges
    /\ Forall (fun s => (length (slot_dists s) <= Z.to_nat (nextedges - 1))%nat
                        /\ (length (slot_ids s)
                            <= Z.to_nat (nextedges - 1))%nat) slots
    /\ tree_part ed' = tree_part ed
    /\ sds_vertical (reddata ed') = sds_vertical (reddata ed)
    /\ msts_comp (reddata ed') = msts_comp (reddata ed)
    /\ msts_levelbase (reddata ed') = msts_levelbase (reddata ed).
Proof.
  unfold extreduce_mstLevelHorizontalAdd. intros Hrun.
  eapply extreduce_mstLevelHorizontalAdd_loop_levels in Hrun
    as (slots & Hl & Hb & Hlen & T & Hv & Hc & Hlb); [| reflexivity].
  exists slots. split; [exact Hl |]. split; [exact Hb |].
  split; [exact Hlen |]. by repeat split.
Qed.

End Horizontal.

(** ** The life cycle of a level *)

Lemma vtop_only_refl ed : vtop_only ed ed.
Proof. by repeat split. Qed.

Lemma vtop_only_trans ed1 ed2 ed3 :
  vtop_only ed1 ed2 -> vtop_only ed2 ed3 -> vtop_only ed1 ed3.
Proof.
  intros (? & ? & ? & ? & ? & ?) (? & ? & ? & ? & ? & ?).
  repeat split; congruence.
Qed.

Section LevelCycle.
Context `{Externals}.

Lemma mstLevelLeafExit_vtop_only g nb n ruled ed5 ed6 :
  mstLevelLeafExit g nb n ruled ed5 = Some ed6 -> vtop_only ed5 ed6.
Proof.
  unfold mstLevelLeafExit. intros E6.
  assert (Hfin : forall r' ed7,
             bottleneckUnmarkRootPath g nb (set_reddata r' ed5) = Some ed7 ->
             (if graph_pc_isPc g then Some (pcSdToNodeUnmark g n ed7)
              else Some ed7) = Some ed6 ->
             tree_part ed6 = tree_part ed5 /\ reddata ed6 = r').
  { intros r' ed7 E7 E8.
    apply bottleneckUnmarkRootPath_set in E7 as (bdn & ->).
    destruct (graph_pc_isPc g); injection E8 as <-.
    - destruct (pcSdToNodeUnmark_set g n
                  (set_bottleneckDistNode bdn (set_reddata r' ed5)))
        as (p & ->).
      by rewrite tree_part_set_pcdata, tree_part_set_bottleneckDistNode,
        tree_part_set_reddata.
    - by rewrite tree_part_set_bottleneckDistNode, tree_part_set_reddata. }
  destruct ruled.
  - unfold extreduce_mldistsEmptySlotReset in E6.
    destruct (ml_emptyslot (sds_vertical (reddata ed5))) as [sl |]; simpl in E6;
      [| done].
    destruct (bottleneckUnmarkRootPath _ _ _) as [ed7 |] eqn:E7; simpl in E6;
      [| done].
    destruct (Hfin _ _ E7 E6) as (T & Hr).
    unfold vtop_only. rewrite T, Hr. by repeat split.
  - unfold mstLevelLeafAdjustVerticalSDs, extreduce_mldistsEmptySlotSetFilled,
      extreduce_mldistsEmptySlotTargetDistsDirty,
      extreduce_mldistsEmptySlotTargetIds, mldists_emptySlotStore in E6.
    destruct (ml_emptyslot (sds_vertical (reddata ed5))) as [sl |] eqn:Esl.
    2:{ destruct (extIsAtInitialComp ed5); simpl in E6;
          [rewrite Esl in E6 |]; done. }
    destruct (ml_levels (sds_vertical (reddata ed5))) as [| top rest] eqn:Elev.
    { destruct (extIsAtInitialComp ed5); simpl in E6;
        try rewrite Esl in E6; try rewrite Elev in E6; done. }
    destruct (extIsAtInitialComp ed5); simpl in E6;
      try rewrite Esl in E6; try rewrite Elev in E6; simpl in E6;
      (destruct (bottleneckUnmarkRootPath _ _ _) as [ed7 |] eqn:E7;
       simpl in E6; [| done]);
      destruct (Hfin _ _ E7 E6) as (T & Hr);
      unfold vtop_only; rewrite T, Hr; simpl; rewrite ?Elev; by repeat split.
Qed.

Lemma add_leaf_step_vtop_only g ed ed' :
  add_leaf_step g ed ed' -> vtop_only ed ed'.
Proof.
  assert (Hinit : forall e0 nb n e1, mstLevelLeafInit g nb n e0 = Some e1 ->
                                     vtop_only e0 e1).
  { intros e0 nb n e1 E1.
    apply mstLevelLeafInit_fields in E1 as (T1 & Hh1 & Hc1 & Hl1 & Hv1 & _).
    unfold vtop_only. rewrite Hv1. by repeat split. }
  assert (Hmid : forall e1 e5, slot_only e1 e5 -> vtop_only e1 e5).
  { intros e1 e5 Hs.
    apply slot_only_fields in Hs as (T5 & _ & _ & Hh5 & Hc5 & Hl5 & Hv5 & _).
    unfold vtop_only. rewrite Hv5. by repeat split. }
  intros [e ed0 ed0' ruledOut Hrun | e ed0 ed0' ruledOut Hrun].
  - unfold extreduce_mstLevelVerticalAddLeaf in Hrun.
    destruct (mstLevelLeafInit _ _ _ _) as [ed1 |] eqn:E1; simpl in Hrun;
      [| done].
    destruct (mstLevelLeafSetVerticalSDs _ _ _) as [[ed2 ruled2] |] eqn:E2;
      simpl in Hrun; [| done].
    destruct (if ruled2 then Some true else _) as [ruled3 |] eqn:E3;
      simpl in Hrun; [| done].
    destruct (if graph_pc_isPc g && negb ruled3 then _ else _)
      as [[ed4 ruled4] |] eqn:E4; simpl in Hrun; [| done].
    destruct (if negb ruled4 then _ else _) as [[ed5 ruled5] |] eqn:E5;
      simpl in Hrun; [| done].
    pose proof (mstLevelVerticalAddLeaf_tests_slot_only g e ed1 ed2
                  ruled2 ed5 ruled5 E2 ruled3 E3 ed4 ruled4 E4 E5) as H15.
    destruct (mstLevelLeafExit _ _ _ _ _) as [ed6 |] eqn:E6; simpl in Hrun;
      [| done].
    injection Hrun as <- _.
    apply mstLevelLeafExit_vtop_only in E6.
    eapply vtop_only_trans; [by eapply Hinit |].
    eapply vtop_only_trans; [by apply Hmid |]. exact E6.
  - unfold extreduce_mstLevelVerticalAddLeafInitial in Hrun.
    destruct (mstLevelLeafInit _ _ _ _) as [ed1 |] eqn:E1; simpl in Hrun;
      [| done].
    destruct (mstLevelLeafSetVerticalSDs _ _ _) as [[ed2 ruled2] |] eqn:E2;
      simpl in Hrun; [| done].
    unfold mstLevelLeafSetVerticalSDs in E2.
    apply mstLevelLeafSetVerticalSDs_loop_slot_only in E2.
    destruct (mstLevelLeafExit _ _ _ _ _) as [ed3 |] eqn:E3; simpl in Hrun;
      [| done].
    injection Hrun as <- _.
    apply mstLevelLeafExit_vtop_only in E3.
    eapply vtop_only_trans; [by eapply Hinit |].
    eapply vtop_only_trans; [by apply Hmid |]. exact E3.
Qed.

Lemma add_leaf_steps_vtop_only g ed ed' :
  rtc (add_leaf_step g) ed ed' -> vtop_only ed ed'.
Proof.
  induction 1 as [| ed1 ed2 ed3 Hstep _ IH]; [apply vtop_only_refl |].
  eapply vtop_only_trans; [| exact IH]. by apply (add_leaf_step_vtop_only g).
Qed.

Lemma add1NodeMst_csrs d d' :
  add1NodeMst d = Some d' ->
  exists c, depo_csrs d' = c :: depo_csrs d.
Proof.
  unfold add1NodeMst, graph_csrdepo_getEmptyTop, graph_csrdepo_getTopCSR.
  simpl. intros [= <-]. simpl. by eexists.
Qed.

Lemma extreduce_mstLevelClose_levelbase g extnode ed ed' :
  extreduce_mstLevelClose g extnode ed = Some ed' ->
  (exists c, depo_csrs (msts_levelbase (reddata ed'))
             = c :: depo_csrs (msts_levelbase (reddata ed)))
  /\ msts_comp (reddata ed') = msts_comp (reddata ed)
  /\ sds_horizontal (reddata ed') = sds_horizontal (reddata ed)
  /\ sds_vertical (reddata ed') = sds_vertical (reddata ed).
Proof.
  unfold extreduce_mstLevelClose. destruct (extIsAtInitialComp ed).
  - unfold mstLevelBuildBaseMstRoot.
    destruct (add1NodeMst _) as [d |] eqn:Ed; simpl; [| done].
    intros [= <-]. by apply add1NodeMst_csrs in Ed.
  - unfold mstLevelBuildBaseMst.
    destruct (graph_csrdepo_getTopCSR _) as [mp |]; simpl; [| done].
    unfold graph_csrdepo_getEmptyTop, graph_csrdepo_getTopCSR. simpl.
    destruct (baseMstBuildNew _ _ _ _) as [x' |]; simpl; [| done].
    intros [= <-]. simpl. split; [by eexists | done].
Qed.

(** X11.  A level that was opened is taken off again without a trace.
    From any state whose two SD stores have equally many levels, let
    [extreduce_mstLevelInit] open a level, let any number of leaves be tried
    with [extreduce_mstLevelVerticalAddLeaf] or
    [extreduce_mstLevelVerticalAddLeafInitial], and let
    [extreduce_mstLevelVerticalClose] close the level.  Then
    [extreduce_mstLevelVerticalRemove] succeeds and gives back the levels of
    both SD stores and the MSTs of both depots, and so does
    [extreduce_mstLevelRemove], which pops the vertical store only here.
    If instead [extreduce_mstLevelHorizontalAdd] and
    [extreduce_mstLevelClose] complete the level, one
    [extreduce_mstLevelRemove] succeeds and gives all four stacks back. *)
Theorem mst_level_cycle_roundtrip (g : GRAPH) (ed ed2 : EXTDATA) :
  length (ml_levels (sds_horizontal (reddata ed)))
  = length (ml_levels (sds_vertical (reddata ed))) ->
  rtc (add_leaf_step g)
      (set_reddata (extreduce_mstLevelInit (reddata ed) ed) ed) ed2 ->
  let ed3 := set_reddata (extreduce_mstLevelVerticalClose (reddata ed2)) ed2 in
  (exists r,
     extreduce_mstLevelVerticalRemove (reddata ed3) = Some r
     /\ extreduce_mstLevelRemove (reddata ed3) = Some r
     /\ reddata_stacks r = reddata_stacks (reddata ed))
  /\ (forall nextedges extedges extnode ed4 ed5,
        extreduce_mstLevelHorizontalAdd g nextedges extedges ed3 = Some ed4 ->
        extreduce_mstLevelClose g extnode ed4 = Some ed5 ->
        exists r,
          extreduce_mstLevelRemove (reddata ed5) = Some r
          /\ reddata_stacks r = reddata_stacks (reddata ed)).
Proof.
  intros Hsync Hsteps ed3.
  apply add_leaf_steps_vtop_only in Hsteps as (_ & Hh2 & Hc2 & Hl2 & Hv2 & Hn2).
  assert (Hinit : ml_levels (sds_vertical
                     (extreduce_mstLevelInit (reddata ed) ed))
                  = hd (Build_MLLEVEL 0 0 [] false)
                      (ml_levels (sds_vertical
                         (extreduce_mstLevelInit (reddata ed) ed)))
                    :: ml_levels (sds_vertical (reddata ed))
                  /\ sds_horizontal (extreduce_mstLevelInit (reddata ed) ed)
                     = sds_horizontal (reddata ed)
                  /\ msts_comp (extreduce_mstLevelInit (reddata ed) ed)
                     = msts_comp (reddata ed)
                  /\ msts_levelbase (extreduce_mstLevelInit (reddata ed) ed)
                     = msts_levelbase (reddata ed)).
  { unfold extreduce_mstLevelInit. by destruct (extIsAtInitialComp ed). }
  destruct Hinit as (Hv1 & Hh1 & Hc1 & Hl1).
  simpl in Hh2, Hc2, Hl2, Hv2, Hn2.
  rewrite Hv1 in Hv2, Hn2. simpl in Hv2, Hn2.
  destruct (ml_levels (sds_vertical (reddata ed2))) as [| top2 rest2] eqn:Elev2;
    [done |].
  simpl in Hv2. subst rest2.
  assert (Hv3 : exists top3 sl3,
             sds_vertical (reddata ed3)
             = {| ml_levels := top3 :: ml_levels (sds_vertical (reddata ed));
                  ml_emptyslot := sl3 |}
             /\ sds_horizontal (reddata ed3) = sds_horizontal (reddata ed)
             /\ msts_comp (reddata ed3) = msts_comp (reddata ed)
             /\ msts_levelbase (reddata ed3) = msts_levelbase (reddata ed)).
  { unfold ed3, extreduce_mstLevelVerticalClose,
      extreduce_mldistsLevelCloseTop. simpl. rewrite Elev2. simpl.
    eexists _, _. split; [reflexivity |]. repeat split; congruence. }
  destruct Hv3 as (top3 & sl3 & Hv3 & Hh3 & Hc3 & Hl3).
  clearbody ed3.
  split.
  - eexists. unfold extreduce_mstLevelVerticalRemove, extreduce_mstLevelRemove,
      extreduce_mldistsLevelRemoveTop, extreduce_mldistsNlevels.
    rewrite Hv3, Hh3. simpl.
    match goal with
    | |- context [Z.eqb ?a ?b] => destruct (Z.eqb_spec a b) as [Heq | _]
    end; [lia |].
    simpl. rewrite Hv3. simpl.
    split; [reflexivity |]. split; [reflexivity |].
    unfold reddata_stacks. simpl. by rewrite Hh3, Hl3, Hc3.
  - intros nextedges extedges extnode ed4 ed5 H4 H5.
    unfold extreduce_mstLevelHorizontalAdd in H4.
    eapply extreduce_mstLevelHorizontalAdd_loop_levels in H4
      as (slots & Hh4 & _ & _ & _ & Hv4 & Hc4 & Hl4); [| reflexivity].
    apply extreduce_mstLevelClose_levelbase in H5
      as ((c & Hl5) & Hc5 & Hh5 & Hv5).
    simpl in Hh4, Hv4, Hc4, Hl4.
    rewrite <- Hh5, Hh3 in Hh4. rewrite Hv4, Hv3 in Hv5.
    rewrite Hl4, Hl3 in Hl5. rewrite Hc4, Hc3 in Hc5.
    destruct (reddata ed5) as [mc [cs te] [lv se] sv].
    simpl in Hh4, Hv5, Hl5, Hc5. subst mc cs lv sv.
    unfold extreduce_mstLevelRemove, extreduce_mldistsLevelRemoveTop,
      extreduce_mldistsNlevels, graph_csrdepo_removeTop.
    cbn [sds_horizontal sds_vertical ml_levels].
    match goal with
    | |- context [Z.eqb ?a ?b] => destruct (Z.eqb_spec a b) as [_ | Hne]
    end; [| rewrite !length_cons in Hne; lia].
    simpl. eexists. split; reflexivity.
Qed.

End LevelCycle.

Lemma extreduce_mstLevelHorizontalAdd_level_witness :
  exists ed' l,
    @extreduce_mstLevelHorizontalAdd triangle_externals triangle_graph 2 [0; 4]
      triangle_root = Some ed'
    /\ ml_levels (sds_horizontal (reddata ed')) = [l]
    /\ slot_base <$> level_slots l = [1; 2]
    /\ sds_vertical (reddata ed') = sds_vertical (reddata triangle_root).
Proof.
  assert (Hrun : exists ed',
             @extreduce_mstLevelHorizontalAdd triangle_externals triangle_graph
               2 [0; 4] triangle_root = Some ed').
  { eexists. vm_compute. reflexivity. }
  destruct Hrun as (ed' & Hrun).
  destruct (@extreduce_mstLevelHorizontalAdd_level triangle_externals
              triangle_graph 2 [0; 4] triangle_root ed' Hrun)
    as (slots & Hl & Hb & _ & _ & Hv & _).
  eexists ed', _. split; [exact Hrun |]. split; [exact Hl |].
  split; [exact Hb | exact Hv].
Defined.

Lemma mst_level_cycle_roundtrip_witness :
  exists ed2 ed4 ed5 r,
    @extreduce_mstLevelVerticalAddLeaf triangle_externals triangle_graph 2
      (set_reddata
         (@extreduce_mstLevelInit triangle_externals
            (reddata triangle_tree_before) triangle_tree_before)
         triangle_tree_before) = Some (ed2, false)
    /\ @extreduce_mstLevelHorizontalAdd triangle_externals triangle_graph 1 [2]
         (set_reddata (extreduce_mstLevelVerticalClose (reddata ed2)) ed2)
       = Some ed4
    /\ @extreduce_mstLevelClose triangle_externals triangle_graph 1 ed4
       = Some ed5
    /\ extreduce_mstLevelRemove (reddata ed5) = Some r
    /\ reddata_stacks r = reddata_stacks (reddata triangle_tree_before).
Proof.
  assert (Hrun : exists ed2 ed4 ed5,
             @extreduce_mstLevelVerticalAddLeaf triangle_externals
               triangle_graph 2
               (set_reddata
                  (@extreduce_mstLevelInit triangle_externals
                     (reddata triangle_tree_before) triangle_tree_before)
                  triangle_tree_before) = Some (ed2, false)
             /\ @extreduce_mstLevelHorizontalAdd triangle_externals
                  triangle_graph 1 [2]
                  (set_reddata (extreduce_mstLevelVerticalClose (reddata ed2))
                     ed2) = Some ed4
             /\ @extreduce_mstLevelClose triangle_externals triangle_graph 1
                  ed4 = Some ed5).
  { eexists _, _, _. split; [vm_compute; reflexivity |].
    split; vm_compute; reflexivity. }
  destruct Hrun as (ed2 & ed4 & ed5 & H2 & H4 & H5).
  destruct (@mst_level_cycle_roundtrip triangle_externals triangle_graph
              triangle_tree_before ed2) as (_ & Hfull).
  - reflexivity.
  - eapply rtc_l; [| apply rtc_refl]. by eapply add_leaf_step_leaf.
  - destruct (Hfull 1 [2] 1 ed4 ed5 H4 H5) as (r & Hr & Hst).
    by exists ed2, ed4, ed5, r.
Defined.

(** ** The verdict of adding a leaf *)

Section AddLeafVerdict.
Context `{Externals}.

Lemma mstLevelLeafInit_innerPrize g nb n ed ed1 :
  mstLevelLeafInit g nb n ed = Some ed1 ->
  tree_innerPrize (pcdata ed1) = tree_innerPrize (pcdata ed).
Proof.
  unfold mstLevelLeafInit, extreduce_mldistsEmptySlotSetBase.
  destruct (ml_emptyslot (sds_vertical (reddata ed))) as [sl |]; simpl;
    [| done].
  destruct (bottleneckMarkRootPath _ _ _) as [ed2 |] eqn:E; simpl; [| done].
  apply bottleneckMarkRootPath_set in E as (bdn & ->).
  destruct (pcSdToNode (pcdata ed)) eqn:Epc; intros [= <-]; [| done].
  unfold pcSdToNodeMark. simpl. rewrite Epc.
  destruct (zget (0, 0) _ _) as [a b].
  by destruct (pcSdToNodeMark_outer _ _ _ _ _ _ _) as [[p' c'] n'].
Qed.

(** C6 (as amended).  In [vertical_add_leaf], once the candidate neighbour
    has survived the per-leaf bottleneck tests, the component MST on top of
    the depot is trial-extended by the adjacency costs of the slot being
    filled ([reduce_dcmstGetExtWeight]), and the trial is positive exactly
    when the extended weight is strictly below the tree cost, from which
    the prize of the inner nodes is taken off when the graph has a prize
    array.  A positive trial rules the extension out.  A negative trial
    hands the decision to the tests against non-leaves (in the
    prize-collecting variant the marked candidates, then the inner nodes):
    [vertical_add_leaf] is then the outcome of these tests, so that the
    extension is ruled out if and only if the trial is positive or one of
    these tests answers "dominated". *)
Theorem mstLevelVerticalAddLeaf_trial_extension (g : GRAPH) (edge2neighbor : Z)
    (ed ed1 ed2 : EXTDATA) (adjcosts : list Q) (topmst : CSR) (anc : list Z) :
  let neighbor := zget (-1) (head g) edge2neighbor in
  let neighbor_base := zget (-1) (tail g) edge2neighbor in
  mstLevelLeafInit g neighbor_base neighbor ed = Some ed1 ->
  mstLevelLeafSetVerticalSDs g edge2neighbor ed1 = Some (ed2, false) ->
  extreduce_mldistsEmptySlotTargetDistsDirty (sds_vertical (reddata ed2))
  = Some adjcosts ->
  graph_csrdepo_getTopCSR (msts_comp (reddata ed)) = Some topmst ->
  root_path (tree_parentNode ed) neighbor_base anc ->
  let extweight := reduce_dcmstGetExtWeight topmst adjcosts in
  let cost_compared :=
    match prize g with
    | Some _ => (tree_cost ed - tree_innerPrize (pcdata ed))%Q
    | None => tree_cost ed
    end in
  let trial := LT extweight cost_compared in
  mstLevelLeafTryExtMst g neighbor ed2 = Some trial
  /\ (trial = true ->
      exists ed',
        extreduce_mstLevelVerticalAddLeaf g edge2neighbor ed = Some (ed', true))
  /\ (trial = false ->
      extreduce_mstLevelVerticalAddLeaf g edge2neighbor ed
      = ('(ed5, ruled5) ←
            mstLevelVerticalAddLeaf_nonLeafTests g edge2neighbor ed2;
         ed6 ← mstLevelLeafExit g neighbor_base neighbor ruled5 ed5;
         Some (ed6, ruled5)))
  /\ (forall ed' ruledOut,
        extreduce_mstLevelVerticalAddLeaf g edge2neighbor ed
        = Some (ed', ruledOut) ->
        ruledOut = true
        <-> (trial = true
             \/ exists ed5,
                  mstLevelVerticalAddLeaf_nonLeafTests g edge2neighbor ed2
                  = Some (ed5, true))).
Proof.
  intros neighbor neighbor_base Hinit Hsds Hadj Htop Hp extweight
    cost_compared trial.
  pose proof (mstLevelLeafInit_innerPrize _ _ _ _ _ Hinit) as Hprize1.
  pose proof Hinit as Hinit'.
  apply mstLevelLeafInit_fields in Hinit' as (T1 & _ & Hc1 & _ & _ & _).
  pose proof Hsds as Hsds'. unfold mstLevelLeafSetVerticalSDs in Hsds'.
  apply mstLevelLeafSetVerticalSDs_loop_slot_only, slot_only_fields in Hsds'
    as (T2 & _ & Hpc2 & _ & Hc2 & _).
  assert (Htree : tree_parentNode ed2 = tree_parentNode ed
                  /\ tree_cost ed2 = tree_cost ed).
  { rewrite T1 in T2. unfold tree_part in T2. injection T2. intros. done. }
  destruct Htree as [Hpn Hcost].
  assert (Htry : mstLevelLeafTryExtMst g neighbor ed2 = Some trial).
  { unfold mstLevelLeafTryExtMst, mstTreeCost. rewrite Hadj. simpl.
    rewrite Hc2, Hc1, Htop. simpl. rewrite Hcost, Hpc2, Hprize1.
    fold extweight cost_compared trial. by destruct trial. }
  split; [exact Htry |].
  assert (Hrun : extreduce_mstLevelVerticalAddLeaf g edge2neighbor ed
                 = if trial then
                     ed6 ← mstLevelLeafExit g neighbor_base neighbor true ed2;
                     Some (ed6, true)
                   else
                     '(ed5, ruled5) ←
                        mstLevelVerticalAddLeaf_nonLeafTests g edge2neighbor ed2;
                     ed6 ← mstLevelLeafExit g neighbor_base neighbor ruled5 ed5;
                     Some (ed6, ruled5)).
  { unfold extreduce_mstLevelVerticalAddLeaf,
      mstLevelVerticalAddLeaf_nonLeafTests.
    fold neighbor neighbor_base. rewrite Hinit. simpl. rewrite Hsds. simpl.
    rewrite Htry. simpl. destruct trial.
    - by rewrite andb_false_r.
    - rewrite andb_true_r.
      destruct (if graph_pc_isPc g then _ else _) as [[ed4 ruled4] |];
        simpl; [| done].
      by destruct ruled4. }
  split; [| split].
  - intros Ht. rewrite Hrun, Ht.
    destruct (mstLevelLeafExit_ruledOut_total g neighbor_base neighbor ed2
                adjcosts anc Hadj) as (ed' & ->); [by rewrite Hpn |].
    simpl. by eexists.
  - intros Ht. by rewrite Hrun, Ht.
  - intros ed' ruledOut. rewrite Hrun. destruct trial.
    + destruct (mstLevelLeafExit _ _ _ _ _); simpl; [| done].
      intros [= _ <-]. split; [by left | done].
    + destruct (mstLevelVerticalAddLeaf_nonLeafTests _ _ _)
        as [[ed5 ruled5] |]; simpl; [| done].
      destruct (mstLevelLeafExit _ _ _ _ _); simpl; [| done].
      intros [= _ <-]. split.
      * intros ->. right. by eexists.
      * intros [? | (ed5' & [= _ ->])]; done.
Qed.

End AddLeafVerdict.

(** ** The verdict at the path of four vertices *)

(** The path with unit costs and the further edge 1 - 3 of cost 0.5; the
    oracle knows the special distances of the edges, so 0.5 from 3 to the
    inner node 1.  The engine has built the tree 0 - 1 - 2.  The candidate 3
    at the leaf 2 survives the tests against the leaves 0 and 2, and the
    trial extension is negative (the extended weight is not below the tree
    cost 2); yet [vertical_add_leaf] rules the extension out, by the test
    against the inner node 1, whose distance 0.5 is below the cost 1 of the
    extension edge: the "only if" of the claim C6 fails there. *)
Lemma mstLevelVerticalAddLeaf_ruled_out_after_trial :
  let X := example_externals (line_sd 1 1 3 0.5) no_sd in
  let g := chord_graph in
  exists ed ed1 ed2 ed' topmst adjcosts,
    @chord_run X = Some ed
    /\ mstLevelLeafInit g 2 3 ed = Some ed1
    /\ @mstLevelLeafSetVerticalSDs X g 4 ed1 = Some (ed2, false)
    /\ graph_csrdepo_getTopCSR (msts_comp (reddata ed2)) = Some topmst
    /\ extreduce_mldistsEmptySlotTargetDistsDirty (sds_vertical (reddata ed2))
       = Some adjcosts
    /\ @LT X (@reduce_dcmstGetExtWeight X topmst adjcosts) (tree_cost ed2)
       = false
    /\ @mstLevelLeafTryExtMst X g 3 ed2 = Some false
    /\ @extreduce_mstLevelVerticalAddLeaf X g 4 ed = Some (ed', true).
Proof.
  intros X g. eexists _, _, _, _, _, _.
  split; [vm_compute; reflexivity |].
  split; [vm_compute; reflexivity |].
  split; [vm_compute; reflexivity |].
  split; [vm_compute; reflexivity |].
  split; [vm_compute; reflexivity |].
  split; [vm_compute; reflexivity |].
  split; vm_compute; reflexivity.
Qed.

(** On the prize-collecting path whose last edge costs 0.3, the component
    MST of the tree 0 - 1 - 2 weighs 1.6 and the candidate 3 is at distance
    0.3 from the leaf 2: the extended weight 1.9 is below the tree cost 2,
    but not below 2 - 0.4, the tree cost without the prize of the inner
    terminal 1, and the extension is not ruled out. *)
Lemma mstLevelVerticalAddLeaf_trial_extension_witness :
  let X := example_externals (line_sd 0.3 0 2 1.6) no_sd in
  let g := line_graph true 0.3 in
  exists ed ed2 ed' topmst adjcosts,
    @line_run X true g = Some ed
    /\ graph_csrdepo_getTopCSR (msts_comp (reddata ed)) = Some topmst
    /\ extreduce_mldistsEmptySlotTargetDistsDirty (sds_vertical (reddata ed2))
       = Some adjcosts
    /\ (@reduce_dcmstGetExtWeight X topmst adjcosts == 1.9)%Q
    /\ tree_cost ed = 2%Q /\ tree_innerPrize (pcdata ed) = 0.4%Q
    /\ @LT X 1.9 2 = true
    /\ @mstLevelLeafTryExtMst X g 3 ed2 = Some false
    /\ @extreduce_mstLevelVerticalAddLeaf X g 4 ed = Some (ed', false).
Proof.
  intros X g.
  assert (Hrun : exists ed ed1 ed2 topmst adjcosts,
             @line_run X true g = Some ed
             /\ mstLevelLeafInit g 2 3 ed = Some ed1
             /\ @mstLevelLeafSetVerticalSDs X g 4 ed1 = Some (ed2, false)
             /\ extreduce_mldistsEmptySlotTargetDistsDirty
                  (sds_vertical (reddata ed2)) = Some adjcosts
             /\ graph_csrdepo_getTopCSR (msts_comp (reddata ed)) = Some topmst
             /\ root_path (tree_parentNode ed) 2 [1; 0]
             /\ (@reduce_dcmstGetExtWeight X topmst adjcosts == 1.9)%Q
             /\ tree_cost ed = 2%Q /\ tree_innerPrize (pcdata ed) = 0.4%Q
             /\ @LT X (@reduce_dcmstGetExtWeight X topmst adjcosts)
                  (tree_cost ed - tree_innerPrize (pcdata ed)) = false
             /\ exists ed',
                  (('(ed5, ruled5) ←
                       @mstLevelVerticalAddLeaf_nonLeafTests X g 4 ed2;
                    ed6 ← @mstLevelLeafExit X g 2 3 ruled5 ed5;
                    Some (ed6, ruled5)) = Some (ed', false))).
  { eexists _, _, _, _, _.
    split; [vm_compute; reflexivity |].
    split; [vm_compute; reflexivity |].
    split; [vm_compute; reflexivity |].
    split; [vm_compute; reflexivity |].
    split; [vm_compute; reflexivity |].
    split.
    { apply root_path_step; [reflexivity | done |].
      apply root_path_step; [reflexivity | done |].
      apply root_path_root; [by vm_compute | reflexivity]. }
    split; [by vm_compute |].
    split; [vm_compute; reflexivity |].
    split; [vm_compute; reflexivity |].
    split; [vm_compute; reflexivity |].
    eexists. vm_compute. reflexivity. }
  destruct Hrun as (ed & ed1 & ed2 & topmst & adjcosts & Hed & Hinit & Hsds
                    & Hadj & Htop & Hp & Hw & Hcost & Hprize & Hlt & ed' & Hrest).
  destruct (@mstLevelVerticalAddLeaf_trial_extension X g 4 ed ed1 ed2 adjcosts
              topmst [1; 0] Hinit Hsds Hadj Htop Hp)
    as (Htry & _ & Hneg & _).
  change (prize g) with (Some [0%Q; 0.4%Q; 0%Q; 0%Q]) in Htry, Hneg.
  cbv iota beta in Htry, Hneg. rewrite Hlt in Htry.
  specialize (Hneg Hlt).
  assert (Hfinal : @extreduce_mstLevelVerticalAddLeaf X g 4 ed
                   = Some (ed', false)).
  { etransitivity; [exact Hneg | exact Hrest]. }
  exists ed, ed2, ed', topmst, adjcosts.
  repeat split; done.
Defined.

(** ** The distances in the stores *)

Lemma slot_only_pcdata ed ed' : slot_only ed ed' -> pcdata ed' = pcdata ed.
Proof. by intros (f & h & s & sl & _ & ->). Qed.

Section PcMarks.
Context `{Externals}.

Lemma pc_marks_ok_pcdata ed ed' :
  pcdata ed' = pcdata ed -> pc_marks_ok ed -> pc_marks_ok ed'.
Proof. unfold pc_marks_ok. by intros ->. Qed.

Lemma zget_sd_value_ok p i :
  Forall sd_value_ok p -> sd_value_ok (zget (-1)%Q p i).
Proof.
  intros Hp. unfold zget. destruct (i <? 0); [by left |].
  destruct (nth_in_or_default (Z.to_nat i) p (-1)%Q) as [Hin | ->]; [| by left].
  rewrite List.Forall_forall in Hp. by apply Hp.
Qed.

Lemma zset_sd_value_ok p i x :
  Forall sd_value_ok p -> sd_value_ok x -> Forall sd_value_ok (zset p i x).
Proof.
  intros Hp Hx. unfold zset. destruct (i <? 0); [done |]. by apply Forall_insert.
Qed.

Lemma pcSdMarkSingle_range entry value pc :
  Forall sd_value_ok pc.1.1 -> sd_value_ok value ->
  Forall sd_value_ok (pcSdMarkSingle entry value pc).1.1.
Proof.
  destruct pc as [[p c] n]. simpl. intros Hp Hv.
  destruct (Qltb _ _); simpl; [by apply zset_sd_value_ok |].
  destruct (Qltb _ _); simpl; [by apply zset_sd_value_ok | done].
Qed.

Lemma dcsr_cost_range g i :
  sd_contract g ->
  (0 <= zget 0%Q (dcsr_cost (dcsr_storage g)) i
   /\ zget 0%Q (dcsr_cost (dcsr_storage g)) i
      + zget 0%Q (dcsr_cost (dcsr_storage g)) i < FARAWAY)%Q.
Proof.
  intros (HF & _ & Hc & _). unfold zget. destruct (i <? 0); [lra |].
  destruct (nth_in_or_default (Z.to_nat i) (dcsr_cost (dcsr_storage g)) 0%Q)
    as [Hin | ->]; [| lra].
  rewrite List.Forall_forall in Hc. by apply Hc.
Qed.

Lemma pcSdToNodeMark_inner_range g ed startvertex head_ edgecost :
  sd_contract g ->
  (0 <= edgecost /\ edgecost + edgecost < FARAWAY)%Q ->
  forall is2 count2 pc,
    Forall sd_value_ok pc.1.1 ->
    Forall sd_value_ok
      (pcSdToNodeMark_inner g ed startvertex head_ edgecost is2 count2 pc).1.1.1.
Proof.
  intros Hg Hec. induction is2 as [| i2 is2 IH]; intros count2 pc Hpc; simpl;
    [done |].
  set (pc' := if _ && _ then _ else pc).
  assert (Hpc' : Forall sd_value_ok pc'.1.1).
  { subst pc'. destruct (_ && _); [| done].
    apply pcSdMarkSingle_range; [done |]. right.
    destruct (dcsr_cost_range g i2 Hg) as [H0 H1].
    pose proof Hg as (_ & _ & _ & Hprize). specialize (Hprize head_).
    destruct Hec as [Hec0 Hec1].
    set (edgecost2 := zget 0%Q (dcsr_cost (dcsr_storage g)) i2) in *.
    assert (Hm : (0 <= QMAX edgecost edgecost2
                  /\ QMAX edgecost edgecost2 < FARAWAY)%Q).
    { unfold QMAX. destruct (Qle_bool edgecost2 edgecost); lra. }
    set (maxedgecost := QMAX edgecost edgecost2) in *.
    unfold QMAX. destruct (Qle_bool _ _) eqn:E; [lra |].
    apply not_true_iff_false in E. rewrite Qle_bool_iff in E. lra. }
  clearbody pc'. destruct (_ <? _); [done |]. by apply IH.
Qed.

Lemma pcSdToNodeMark_outer_range g ed startvertex :
  sd_contract g ->
  forall is1 count1 count2 pc,
    Forall sd_value_ok pc.1.1 ->
    Forall sd_value_ok
      (pcSdToNodeMark_outer g ed startvertex is1 count1 count2 pc).1.1.
Proof.
  intros Hg. induction is1 as [| i is1 IH]; intros count1 count2 pc Hpc; simpl;
    [done |].
  destruct (dcsr_cost_range g i Hg) as [H0 H1].
  destruct (_ =? 0).
  - destruct (zget (0, 0) _ _) as [start2 end2].
    pose proof (pcSdToNodeMark_inner_range g ed startvertex
                  (zget (-1) (dcsr_head (dcsr_storage g)) i)
                  (zget 0%Q (dcsr_cost (dcsr_storage g)) i) Hg (conj H0 H1)
                  (seqZ start2 (end2 - start2)) count2 pc Hpc) as Hin.
    destruct (pcSdToNodeMark_inner _ _ _ _ _ _ _ _) as [pc' count2'].
    simpl in Hin. destruct (_ <? _); [done |]. by apply IH.
  - assert (Hpc' : Forall sd_value_ok
              (pcSdMarkSingle (zget (-1) (dcsr_head (dcsr_storage g)) i)
                 (zget 0%Q (dcsr_cost (dcsr_storage g)) i) pc).1.1).
    { apply pcSdMarkSingle_range; [done |]. right. lra. }
    destruct (_ <? _); [done |]. by apply IH.
Qed.

Lemma pcSdToNodeMark_pc_marks_ok g v ed :
  sd_contract g -> pc_marks_ok ed -> pc_marks_ok (pcSdToNodeMark g v ed).
Proof.
  intros Hg. unfold pc_marks_ok, pcSdToNodeMark.
  destruct (pcSdToNode (pcdata ed)) as [p |] eqn:Ep; [| by rewrite Ep].
  intros Hp. destruct (zget (0, 0) _ _) as [start_ end_].
  pose proof (pcSdToNodeMark_outer_range g ed v Hg (seqZ start_ (end_ - start_))
                0 0 (p, pcSdCands (pcdata ed), 0) Hp) as Hout.
  by destruct (pcSdToNodeMark_outer _ _ _ _ _ _ _) as [[p' c'] n'].
Qed.

Lemma pcSdToNodeUnmark_pc_marks_ok g v ed :
  pc_marks_ok ed -> pc_marks_ok (pcSdToNodeUnmark g v ed).
Proof.
  unfold pc_marks_ok, pcSdToNodeUnmark.
  destruct (pcSdToNode (pcdata ed)) as [p |] eqn:Ep; [| by rewrite Ep].
  simpl. generalize (seqZ 0 (nPcSdCands (pcdata ed))) as idxs.
  intros idxs. clear Ep. revert p.
  induction idxs as [| i idxs IH]; intros p Hp; simpl; [done |].
  apply IH. apply zset_sd_value_ok; [done | by left].
Qed.

Lemma extGetSdDouble_range g v1 v2 ed :
  sd_contract g -> pc_marks_ok ed -> sd_value_ok (extGetSdDouble g v1 v2 ed).
Proof.
  intros (_ & Hsd & _) Hp. unfold extGetSdDouble, pc_marks_ok in *.
  destruct (pcSdToNode (pcdata ed)) as [p |]; [| apply Hsd].
  unfold extGetSdPcUpdate. destruct (_ && _); [| apply Hsd].
  by apply zget_sd_value_ok.
Qed.

Lemma sd_stored_range d : sd_value_ok d -> stored_ok (sd_stored d).
Proof.
  unfold sd_stored, stored_ok. intros Hd.
  destruct (Qle_bool _ _) eqn:E; [right | by left].
  apply Qle_bool_iff in E. destruct Hd as [Hm | Hr]; [| done].
  rewrite Hm in E. lra.
Qed.

Lemma sd_stored_ok g v1 v2 ed :
  sd_contract g -> pc_marks_ok ed ->
  stored_ok (sd_stored (extGetSdDouble g v1 v2 ed)).
Proof. intros Hg Hp. by apply sd_stored_range, extGetSdDouble_range. Qed.

Lemma bottleneckMarkRootPath_pcdata g v ed ed' :
  bottleneckMarkRootPath g v ed = Some ed' -> pcdata ed' = pcdata ed.
Proof.
  unfold bottleneckMarkRootPath. destruct (_ =? _); [by intros [= <-] |].
  destruct (bottleneckMarkRootPath_loop _ _ _ _ _ _ _ _ _); simpl; [| done].
  by intros [= <-].
Qed.

Lemma bottleneckUnmarkRootPath_pcdata g v ed ed' :
  bottleneckUnmarkRootPath g v ed = Some ed' -> pcdata ed' = pcdata ed.
Proof.
  unfold bottleneckUnmarkRootPath.
  destruct (bottleneckUnmarkRootPath_loop _ _ _ _); simpl; [| done].
  by intros [= <-].
Qed.

Lemma mstLevelLeafInit_pc_marks_ok g base nb ed ed1 :
  sd_contract g -> pc_marks_ok ed ->
  mstLevelLeafInit g base nb ed = Some ed1 -> pc_marks_ok ed1.
Proof.
  intros Hg Hp. unfold mstLevelLeafInit.
  destruct (extreduce_mldistsEmptySlotSetBase _ _); simpl; [| done].
  destruct (bottleneckMarkRootPath _ _ _) as [ed2 |] eqn:E; simpl; [| done].
  apply bottleneckMarkRootPath_pcdata in E. simpl in E.
  assert (Hp2 : pc_marks_ok ed2) by (by eapply pc_marks_ok_pcdata).
  destruct (pcSdToNode (pcdata ed)); intros [= <-]; [| done].
  by apply pcSdToNodeMark_pc_marks_ok.
Qed.

Lemma mstLevelLeafExit_pc_marks_ok g base nb (ruledOut : bool) ed ed' :
  pc_marks_ok ed ->
  mstLevelLeafExit g base nb ruledOut ed = Some ed' -> pc_marks_ok ed'.
Proof.
  intros Hp. unfold mstLevelLeafExit.
  destruct (if ruledOut then _ else _) as [ed1 |] eqn:E1; simpl; [| done].
  assert (Hp1 : pc_marks_ok ed1).
  { destruct ruledOut.
    - destruct (extreduce_mldistsEmptySlotReset _); simpl in E1; [| done].
      by injection E1 as <-.
    - destruct (mstLevelLeafAdjustVerticalSDs _ _) as [ea |] eqn:Ea;
        simpl in E1; [| done].
      assert (Ha : pcdata ea = pcdata ed).
      { unfold mstLevelLeafAdjustVerticalSDs in Ea.
        destruct (extIsAtInitialComp ed); [by injection Ea as <- |].
        destruct (extreduce_mldistsEmptySlotTargetDistsDirty _); simpl in Ea;
          [| done].
        destruct (extreduce_mldistsEmptySlotTargetIds _); simpl in Ea; [| done].
        destruct (mldists_emptySlotStore _ _ _); simpl in Ea; [| done].
        by injection Ea as <-. }
      destruct (extreduce_mldistsEmptySlotSetFilled _); simpl in E1; [| done].
      injection E1 as <-. by eapply pc_marks_ok_pcdata. }
  destruct (bottleneckUnmarkRootPath _ _ _) as [ed2 |] eqn:E2; simpl; [| done].
  apply bottleneckUnmarkRootPath_pcdata in E2.
  assert (Hp2 : pc_marks_ok ed2) by (by eapply pc_marks_ok_pcdata).
  destruct (graph_pc_isPc g); intros [= <-]; [| done].
  by apply pcSdToNodeUnmark_pc_marks_ok.
Qed.

End PcMarks.

Section Stores.
Context `{Externals}.

Lemma filling_ok_frame ed ed' n :
  sds_vertical (reddata ed') = sds_vertical (reddata ed) ->
  filling_ok (sds_vertical (reddata ed)) n ->
  filling_ok (sds_vertical (reddata ed')) n.
Proof. by intros ->. Qed.

Lemma vertical_slot_write_ok ed ed' n x :
  filling_ok (sds_vertical (reddata ed)) n -> stored_ok x ->
  vertical_slot_write (Z.of_nat n) x ed = Some ed' ->
  filling_ok (sds_vertical (reddata ed')) (S n)
  /\ sds_horizontal (reddata ed') = sds_horizontal (reddata ed)
  /\ tree_nleaves ed' = tree_nleaves ed
  /\ pcdata ed' = pcdata ed.
Proof.
  intros (Hok & s & Hs & Hlen & Hall) Hx. unfold vertical_slot_write,
    extreduce_mldistsEmptySlotTargetDists, extreduce_mldistsEmptySlotTargetIds,
    mldists_emptySlotStore.
  rewrite Hs. simpl. intros [= <-]. simpl. split; [| done].
  split; [exact Hok |]. eexists. split; [reflexivity |]. simpl.
  rewrite <- Hlen, slot_write_append. split.
  - rewrite length_app. simpl. lia.
  - apply Forall_app. split; [done | by constructor].
Qed.

Lemma mstLevelLeafSetVerticalSDs_loop_ok g e nb base :
  sd_contract g ->
  forall n k ed ed' b,
    pc_marks_ok ed ->
    filling_ok (sds_vertical (reddata ed)) k ->
    mstLevelLeafSetVerticalSDs_loop g e nb base
      (seqZ (Z.of_nat k) (Z.of_nat n)) ed = Some (ed', b) ->
    (exists k', filling_ok (sds_vertical (reddata ed')) k'
                /\ (b = false -> k' = (k + n)%nat))
    /\ sds_horizontal (reddata ed') = sds_horizontal (reddata ed)
    /\ tree_nleaves ed' = tree_nleaves ed
    /\ pcdata ed' = pcdata ed.
Proof.
  intros Hg. induction n as [| n IH]; intros k ed ed' b Hp Hfill.
  - simpl. intros [= <- <-]. split; [| done]. exists k. split; [done | lia].
  - rewrite seqZ_S. simpl.
    destruct (vertical_slot_write _ _ _) as [ed1 |] eqn:E1; simpl; [| done].
    apply vertical_slot_write_ok in E1 as (Hfill1 & Hh1 & Hn1 & Hp1);
      [| done | by apply sd_stored_ok].
    destruct (bottleneckWithExtedgeIsDominated _ _ _ _ _ _) as [[ed2 d] |] eqn:E2;
      simpl; [| done].
    pose proof E2 as E2'.
    apply bottleneckWithExtedgeIsDominated_frame in E2 as (Hv2 & Hh2 & Hn2).
    apply bottleneckWithExtedgeIsDominated_sdeq_only in E2' as [E2' _].
    apply sdeq_only_fields in E2' as (_ & Hp2 & _).
    apply (filling_ok_frame ed1 ed2) in Hfill1; [| done].
    destruct d.
    + intros [= <- <-]. split; [| repeat split; congruence].
      exists (S k). split; [done | done].
    + replace (Z.of_nat k + 1) with (Z.of_nat (S k)) by lia.
      intros Hl.
      assert (Hpm2 : pc_marks_ok ed2).
      { apply (pc_marks_ok_pcdata ed); [congruence | done]. }
      destruct (IH _ _ _ _ Hpm2 Hfill1 Hl) as ((k' & Hf & Hk) & Hh & Hn & Hpc).
      split; [| repeat split; congruence].
      exists k'. split; [done |]. intros Hb. rewrite (Hk Hb). lia.
Qed.

Lemma adjust_shift_ok (idxs : list Z) :
  forall d,
    Forall stored_ok d ->
    Forall (fun i => i < Z.of_nat (length d)) idxs ->
    Forall stored_ok
      (foldl (fun d i => slot_write d (i - 1) (zget STP_MLDISTS_DIST_UNSET d i))
             d idxs).
Proof.
  induction idxs as [| i idxs IH]; intros d Hd Hi; simpl; [done |].
  apply Forall_cons in Hi as [Hi Hrest].
  destruct (Z.ltb_spec (i - 1) 0) as [Hneg | Hpos].
  - assert (slot_write d (i - 1) (zget STP_MLDISTS_DIST_UNSET d i) = d) as ->.
    { unfold slot_write. by destruct (Z.ltb_spec (i - 1) 0); [| lia]. }
    by apply IH.
  - destruct (slot_write_inrange_Forall stored_ok d (i - 1)
                (zget STP_MLDISTS_DIST_UNSET d i)) as [Hok Hlen];
      [lia | done | |].
    + rewrite Forall_lookup in Hd. apply (Hd (Z.to_nat i)).
      apply zget_inrange_lookup. lia.
    + apply IH; [done |]. by rewrite Hlen.
Qed.

Lemma mldists_setFilled_ok m m' n :
  filling_ok m n ->
  extreduce_mldistsEmptySlotSetFilled m = Some m' ->
  mldists_ok m' /\ emptyslot_fresh m'.
Proof.
  intros (Hok & s & Hs & _ & Hall). unfold extreduce_mldistsEmptySlotSetFilled.
  rewrite Hs. simpl. destruct (ml_levels m) as [| l rest] eqn:El; [done |].
  intros [= <-]. unfold mldists_ok in *. rewrite El in Hok.
  apply Forall_cons in Hok as [Hl Hrest]. split.
  - simpl. constructor; [| done]. simpl. apply Forall_app. split; [done |].
    constructor; [| done]. simpl. by apply Forall_take.
  - intros s'. simpl. unfold mldists_nextEmptySlot. simpl.
    destruct (level_closed l); [done |]. destruct (_ <? _); [| done].
    by intros [= <-].
Qed.

Lemma mldists_reset_ok m m' n :
  filling_ok m n ->
  extreduce_mldistsEmptySlotReset m = Some m' ->
  mldists_ok m' /\ emptyslot_fresh m'.
Proof.
  intros (Hok & s & Hs & _). unfold extreduce_mldistsEmptySlotReset.
  rewrite Hs. simpl. intros [= <-]. split; [done |].
  intros s'. simpl. by intros [= <-].
Qed.

Lemma mstLevelLeafExit_ok g base nb (ruledOut : bool) ed ed' k :
  filling_ok (sds_vertical (reddata ed)) k ->
  (ruledOut = false -> k = Z.to_nat (tree_nleaves ed)) ->
  mstLevelLeafExit g base nb ruledOut ed = Some ed' ->
  mldists_ok (sds_vertical (reddata ed'))
  /\ emptyslot_fresh (sds_vertical (reddata ed'))
  /\ sds_horizontal (reddata ed') = sds_horizontal (reddata ed).
Proof.
  intros Hfill Hk. unfold mstLevelLeafExit.
  assert (Hrest : forall ed1,
    mldists_ok (sds_vertical (reddata ed1)) ->
    emptyslot_fresh (sds_vertical (reddata ed1)) ->
    sds_horizontal (reddata ed1) = sds_horizontal (reddata ed) ->
    (ed2 ← bottleneckUnmarkRootPath g base ed1;
     (if graph_pc_isPc g then Some (pcSdToNodeUnmark g nb ed2) else Some ed2))
    = Some ed' ->
    mldists_ok (sds_vertical (reddata ed'))
    /\ emptyslot_fresh (sds_vertical (reddata ed'))
    /\ sds_horizontal (reddata ed') = sds_horizontal (reddata ed)).
  { intros ed1 Hok1 Hfr1 Hh1.
    destruct (bottleneckUnmarkRootPath g base ed1) as [ed2 |] eqn:E; simpl;
      [| done].
    apply bottleneckUnmarkRootPath_frame in E as (Hv & Hh & _).
    destruct (graph_pc_isPc g); intros [= <-].
    - destruct (pcSdToNodeUnmark_frame g nb ed2) as (Hv' & Hh' & _).
      rewrite Hv', Hh', Hv, Hh. done.
    - rewrite Hv, Hh. done. }
  destruct ruledOut.
  - destruct (extreduce_mldistsEmptySlotReset _) as [m |] eqn:E; simpl; [| done].
    destruct (mldists_reset_ok _ _ _ Hfill E) as [Hok Hfr].
    by apply Hrest.
  - specialize (Hk eq_refl).
    unfold mstLevelLeafAdjustVerticalSDs.
    destruct (extIsAtInitialComp ed).
    + simpl.
      destruct (extreduce_mldistsEmptySlotSetFilled _) as [m |] eqn:E; simpl;
        [| done].
      destruct (mldists_setFilled_ok _ _ _ Hfill E) as [Hok Hfr].
      by apply Hrest.
    + destruct Hfill as (Hok & s & Hs & Hlen & Hall).
      unfold extreduce_mldistsEmptySlotTargetDistsDirty,
        extreduce_mldistsEmptySlotTargetIds, mldists_emptySlotStore.
      rewrite Hs. simpl.
      destruct (extreduce_mldistsEmptySlotSetFilled _) as [m |] eqn:E; simpl;
        [| done].
      eapply mldists_setFilled_ok in E as [Hok' Hfr']; [by apply Hrest |].
      split; [exact Hok |]. eexists. split; [reflexivity |]. simpl.
      split; [reflexivity |]. apply adjust_shift_ok; [done |].
      apply Forall_forall. intros i Hi%elem_of_seqZ. lia.
Qed.

Lemma mstLevelLeafInit_ok g base nb ed ed1 :
  mldists_ok (sds_vertical (reddata ed)) ->
  emptyslot_fresh (sds_vertical (reddata ed)) ->
  mstLevelLeafInit g base nb ed = Some ed1 ->
  filling_ok (sds_vertical (reddata ed1)) 0
  /\ sds_horizontal (reddata ed1) = sds_horizontal (reddata ed)
  /\ tree_nleaves ed1 = tree_nleaves ed.
Proof.
  intros Hok Hfr. unfold mstLevelLeafInit, extreduce_mldistsEmptySlotSetBase.
  destruct (ml_emptyslot (sds_vertical (reddata ed))) as [s |] eqn:Es; simpl;
    [| done].
  destruct (bottleneckMarkRootPath _ _ _) as [ed2 |] eqn:E; simpl; [| done].
  apply bottleneckMarkRootPath_frame in E as (Hv & Hh & Hn). simpl in *.
  assert (Hfill : filling_ok (sds_vertical (reddata ed2)) 0).
  { rewrite Hv. split; [exact Hok |]. eexists. split; [reflexivity |]. simpl.
    rewrite (Hfr s Es). done. }
  destruct (pcSdToNode (pcdata ed)); intros [= <-]; [| done].
  destruct (pcSdToNodeMark_frame g nb ed2) as (Hv' & Hh' & Hn').
  rewrite Hv', Hh', Hn'. done.
Qed.

Lemma mstLevelLeafSetVerticalSDs_ok g e ed ed' b :
  sd_contract g -> pc_marks_ok ed ->
  filling_ok (sds_vertical (reddata ed)) 0 ->
  mstLevelLeafSetVerticalSDs g e ed = Some (ed', b) ->
  (exists k', filling_ok (sds_vertical (reddata ed')) k'
              /\ (b = false -> k' = Z.to_nat (tree_nleaves ed')))
  /\ sds_horizontal (reddata ed') = sds_horizontal (reddata ed)
  /\ pcdata ed' = pcdata ed.
Proof.
  intros Hg Hp Hfill. unfold mstLevelLeafSetVerticalSDs.
  rewrite seqZ_of_to_nat. change 0 with (Z.of_nat 0). intros Hl.
  destruct (mstLevelLeafSetVerticalSDs_loop_ok _ _ _ _ Hg _ _ _ _ _ Hp Hfill Hl)
    as ((k' & Hf & Hk) & Hh & Hn & Hpc).
  split; [| done]. exists k'. split; [done |]. intros Hb.
  rewrite (Hk Hb), Hn. done.
Qed.

Lemma extreduce_mstLevelVerticalAddLeaf_ok g e ed ed' b :
  sd_contract g -> stores_ok ed ->
  extreduce_mstLevelVerticalAddLeaf g e ed = Some (ed', b) ->
  stores_ok ed'.
Proof.
  intros Hg (Hv & Hh & Hfr & Hp). unfold extreduce_mstLevelVerticalAddLeaf.
  destruct (mstLevelLeafInit _ _ _ _) as [ed1 |] eqn:E1; simpl; [| done].
  pose proof (mstLevelLeafInit_pc_marks_ok g _ _ _ _ Hg Hp E1) as Hp1.
  apply (mstLevelLeafInit_ok g) in E1 as (Hf1 & Hh1 & _); [| done | done].
  destruct (mstLevelLeafSetVerticalSDs _ _ _) as [[ed2 r2] |] eqn:E2; simpl;
    [| done].
  apply (mstLevelLeafSetVerticalSDs_ok g) in E2 as ((k & Hf2 & Hk2) & Hh2 & Hp2);
    [| done | done | done].
  destruct (if r2 then Some true else mstLevelLeafTryExtMst g _ ed2)
    as [r3 |] eqn:E3; simpl; [| done].
  assert (Hr3 : r3 = false -> r2 = false).
  { destruct r2; [| done]. by injection E3 as <-. }
  destruct (if graph_pc_isPc g && negb r3 then _ else _) as [[ed4 r4] |] eqn:E4;
    simpl; [| done].
  assert (Hr4 : frame ed2 ed4 /\ pcdata ed4 = pcdata ed2
                /\ (r4 = false -> r3 = false)).
  { destruct (graph_pc_isPc g && negb r3) eqn:Ec.
    - apply andb_true_iff in Ec as [_ Hn%negb_true_iff].
      split; [by eapply bottleneckCheckNonLeaves_pc_loop_frame |].
      split; [| done].
      apply bottleneckCheckNonLeaves_pc_loop_sdeq_only in E4.
      by apply sdeq_only_fields in E4 as (_ & ? & _).
    - by injection E4 as <- <-. }
  destruct Hr4 as ((Hv4 & Hh4 & Hn4) & Hp4 & Hr4).
  destruct (if negb r4 then _ else _) as [[ed5 r5] |] eqn:E5; simpl; [| done].
  assert (Hr5 : frame ed4 ed5 /\ pcdata ed5 = pcdata ed4
                /\ (r5 = false -> r4 = false)).
  { destruct r4; simpl in E5.
    - by injection E5 as <- <-.
    - split; [by eapply bottleneckCheckNonLeaves_loop_frame |].
      split; [| done].
      apply bottleneckCheckNonLeaves_loop_sdeq_only in E5.
      by apply sdeq_only_fields in E5 as (_ & ? & _). }
  destruct Hr5 as ((Hv5 & Hh5 & Hn5) & Hp5 & Hr5).
  destruct (mstLevelLeafExit _ _ _ _ _) as [ed6 |] eqn:E6; simpl; [| done].
  intros [= <- <-].
  assert (Hpm5 : pc_marks_ok ed5).
  { apply (pc_marks_ok_pcdata ed1); [congruence | done]. }
  pose proof (mstLevelLeafExit_pc_marks_ok g _ _ _ _ _ Hpm5 E6) as Hp6.
  apply (mstLevelLeafExit_ok g _ _ _ _ _ k) in E6 as (Hv6 & Hfr6 & Hh6).
  - split; [done |]. split; [| done]. rewrite Hh6, Hh5, Hh4, Hh2, Hh1. done.
  - by rewrite Hv5, Hv4.
  - intros Hb. rewrite Hn5, Hn4. auto.
Qed.

Lemma extreduce_mstLevelVerticalAddLeafInitial_ok g e ed ed' b :
  sd_contract g -> stores_ok ed ->
  extreduce_mstLevelVerticalAddLeafInitial g e ed = Some (ed', b) ->
  stores_ok ed'.
Proof.
  intros Hg (Hv & Hh & Hfr & Hp). unfold extreduce_mstLevelVerticalAddLeafInitial.
  destruct (mstLevelLeafInit _ _ _ _) as [ed1 |] eqn:E1; simpl; [| done].
  pose proof (mstLevelLeafInit_pc_marks_ok g _ _ _ _ Hg Hp E1) as Hp1.
  apply (mstLevelLeafInit_ok g) in E1 as (Hf1 & Hh1 & _); [| done | done].
  destruct (mstLevelLeafSetVerticalSDs _ _ _) as [[ed2 r2] |] eqn:E2; simpl;
    [| done].
  apply (mstLevelLeafSetVerticalSDs_ok g) in E2 as ((k & Hf2 & Hk2) & Hh2 & Hp2);
    [| done | done | done].
  destruct (mstLevelLeafExit _ _ _ _ _) as [ed3 |] eqn:E3; simpl; [| done].
  intros [= <- <-].
  assert (Hpm2 : pc_marks_ok ed2).
  { apply (pc_marks_ok_pcdata ed1); [congruence | done]. }
  pose proof (mstLevelLeafExit_pc_marks_ok g _ _ _ _ _ Hpm2 E3) as Hp3.
  apply (mstLevelLeafExit_ok g _ _ _ _ _ k) in E3 as (Hv3 & Hfr3 & Hh3);
    [| done | done].
  split; [done |]. split; [| done]. rewrite Hh3, Hh2, Hh1. done.
Qed.

(** *** The horizontal store *)

Lemma mldists_targetDist_ok m level base target d :
  mldists_ok m ->
  extreduce_mldistsTargetDist m level base target = Some d -> stored_ok d.
Proof.
  intros Hok. unfold extreduce_mldistsTargetDist, mldists_level.
  destruct (_ <? 0); [done |].
  destruct (rev (ml_levels m) !! _) as [l |] eqn:El; simpl; [| done].
  destruct (mldists_findSlot _ _) as [s |] eqn:Es; simpl; [| done].
  assert (Hs : Forall stored_ok (slot_dists s)).
  { unfold mldists_ok in Hok. rewrite Forall_forall in Hok.
    assert (Hl : l ∈ ml_levels m).
    { apply list_elem_of_lookup_2, list_elem_of_In in El.
      apply list_elem_of_In. by apply in_rev. }
    specialize (Hok l Hl). rewrite Forall_forall in Hok. apply Hok.
    apply find_some in Es as [Hin _]. by apply list_elem_of_In. }
  clear -Hs. revert Hs. generalize (slot_dists s) as dists.
  induction (slot_ids s) as [| i ids IH]; intros [| x dists]; simpl; try done.
  intros [Hx Hrest]%Forall_cons. destruct (_ =? _); [by intros [= <-] |].
  by apply IH.
Qed.

Lemma horizontal_slot_write_ok ed ed' n id x :
  filling_ok (sds_horizontal (reddata ed)) n -> stored_ok x ->
  horizontal_slot_write (Z.of_nat n) id x ed = Some ed' ->
  filling_ok (sds_horizontal (reddata ed')) (S n)
  /\ sds_vertical (reddata ed') = sds_vertical (reddata ed)
  /\ pcdata ed' = pcdata ed.
Proof.
  intros (Hok & s & Hs & Hlen & Hall) Hx. unfold horizontal_slot_write,
    extreduce_mldistsEmptySlotTargetDists, extreduce_mldistsEmptySlotTargetIds,
    mldists_emptySlotStore.
  rewrite Hs. simpl. intros [= <-]. simpl. split; [| done].
  split; [exact Hok |]. eexists. split; [reflexivity |]. simpl.
  rewrite <- Hlen, slot_write_append. split.
  - rewrite length_app. simpl. lia.
  - apply Forall_app. split; [done | by constructor].
Qed.

Lemma extreduce_mstLevelHorizontalAdd_left_ok g extedges ext_head :
  forall n k ed ed',
    filling_ok (sds_horizontal (reddata ed)) k ->
    extreduce_mstLevelHorizontalAdd_left g extedges ext_head
      (seqZ (Z.of_nat k) (Z.of_nat n)) ed = Some ed' ->
    filling_ok (sds_horizontal (reddata ed')) (k + n)
    /\ sds_vertical (reddata ed') = sds_vertical (reddata ed)
    /\ pcdata ed' = pcdata ed.
Proof.
  induction n as [| n IH]; intros k ed ed' Hfill.
  - simpl. intros [= <-]. by rewrite Nat.add_0_r.
  - rewrite seqZ_S. simpl.
    destruct (extreduce_mldistsTopTargetDist _ _ _) as [d |] eqn:Ed; simpl;
      [| done].
    apply mldists_targetDist_ok in Ed; [| by destruct Hfill].
    destruct (horizontal_slot_write _ _ _ _) as [ed1 |] eqn:E1; simpl; [| done].
    apply horizontal_slot_write_ok in E1 as (Hf1 & Hv1 & Hp1); [| done | done].
    replace (Z.of_nat k + 1) with (Z.of_nat (S k)) by lia.
    intros Hl. destruct (IH _ _ _ Hf1 Hl) as (Hf & Hv & Hp).
    split; [| split; congruence].
    by replace (k + S n)%nat with (S k + n)%nat by lia.
Qed.

Lemma extreduce_mstLevelHorizontalAdd_right_ok g extedges ext_head :
  sd_contract g ->
  forall n k ed ed',
    pc_marks_ok ed ->
    filling_ok (sds_horizontal (reddata ed)) k ->
    extreduce_mstLevelHorizontalAdd_right g extedges ext_head
      (seqZ (Z.of_nat k + 1) (Z.of_nat n)) ed = Some ed' ->
    sds_vertical (reddata ed') = sds_vertical (reddata ed)
    /\ pcdata ed' = pcdata ed
    /\ exists k', filling_ok (sds_horizontal (reddata ed')) k'.
Proof.
  intros Hg. induction n as [| n IH]; intros k ed ed' Hp Hfill.
  - simpl. intros [= <-]. split; [done |]. split; [done | by exists k].
  - rewrite seqZ_S. simpl.
    replace (Z.of_nat k + 1 - 1) with (Z.of_nat k) by lia.
    destruct (horizontal_slot_write _ _ _ _) as [ed1 |] eqn:E1; simpl; [| done].
    apply horizontal_slot_write_ok in E1 as (Hf1 & Hv1 & Hp1);
      [| done | by apply sd_stored_ok].
    replace (Z.of_nat k + 1 + 1) with (Z.of_nat (S k) + 1) by lia.
    intros Hl.
    assert (Hpm1 : pc_marks_ok ed1) by (by eapply pc_marks_ok_pcdata).
    destruct (IH _ _ _ Hpm1 Hf1 Hl) as (Hv & Hpc & Hf).
    split; [congruence |]. split; [congruence | done].
Qed.

Lemma extreduce_mstLevelHorizontalAdd_loop_ok g nextedges extedges isPc :
  sd_contract g ->
  forall n a ed ed',
    pc_marks_ok ed ->
    mldists_ok (sds_horizontal (reddata ed)) ->
    emptyslot_fresh (sds_horizontal (reddata ed)) ->
    extreduce_mstLevelHorizontalAdd_loop g nextedges extedges isPc
      (seqZ (Z.of_nat a) (Z.of_nat n)) ed = Some ed' ->
    mldists_ok (sds_horizontal (reddata ed'))
    /\ sds_vertical (reddata ed') = sds_vertical (reddata ed)
    /\ pc_marks_ok ed'.
Proof.
  intros Hg. induction n as [| n IH]; intros a ed ed' Hp Hok Hfr.
  - simpl. by intros [= <-].
  - rewrite seqZ_S. simpl. unfold extreduce_mldistsEmptySlotSetBase.
    destruct (ml_emptyslot (sds_horizontal (reddata ed))) as [s |] eqn:Es;
      simpl; [| done].
    set (ed1 := set_reddata _ ed).
    set (ed2 := if isPc then pcSdToNodeMark g _ ed1 else ed1).
    assert (Hf2 : filling_ok (sds_horizontal (reddata ed2)) 0
                  /\ sds_vertical (reddata ed2) = sds_vertical (reddata ed)
                  /\ pc_marks_ok ed2).
    { assert (Hf1 : filling_ok (sds_horizontal (reddata ed1)) 0).
      { split; [exact Hok |]. eexists. split; [reflexivity |]. simpl.
        rewrite (Hfr s Es). done. }
      assert (Hp1 : pc_marks_ok ed1) by done.
      subst ed2. destruct isPc; [| done].
      destruct (pcSdToNodeMark_frame g
                  (zget (-1) (head g) (zget (-1) extedges (Z.of_nat a))) ed1)
        as (Hv' & Hh' & _).
      rewrite Hv', Hh'. split; [done |]. split; [done |].
      by apply pcSdToNodeMark_pc_marks_ok. }
    destruct Hf2 as (Hf2 & Hv2 & Hp2). clearbody ed2.
    rewrite (seqZ_of_to_nat 0), Nat2Z.id. change 0 with (Z.of_nat 0).
    destruct (extreduce_mstLevelHorizontalAdd_left _ _ _ _ _) as [ed3 |] eqn:E3;
      simpl; [| done].
    apply (extreduce_mstLevelHorizontalAdd_left_ok g) in E3 as (Hf3 & Hv3 & Hp3);
      [| done].
    assert (Hpm3 : pc_marks_ok ed3) by (by eapply pc_marks_ok_pcdata).
    destruct (extreduce_mstLevelHorizontalAdd_right _ _ _ _ _) as [ed4 |] eqn:E4;
      simpl; [| done].
    rewrite seqZ_of_to_nat in E4.
    apply (extreduce_mstLevelHorizontalAdd_right_ok g _ _ Hg _ a) in E4
      as (Hv4 & Hp4 & k4 & Hf4); [| done | done].
    assert (Hpm4 : pc_marks_ok ed4) by (by eapply pc_marks_ok_pcdata).
    set (ed5 := if isPc then pcSdToNodeUnmark g _ ed4 else ed4).
    assert (Hf5 : filling_ok (sds_horizontal (reddata ed5)) k4
                  /\ sds_vertical (reddata ed5) = sds_vertical (reddata ed4)
                  /\ pc_marks_ok ed5).
    { subst ed5. destruct isPc; [| done].
      destruct (pcSdToNodeUnmark_frame g
                  (zget (-1) (head g) (zget (-1) extedges (Z.of_nat a))) ed4)
        as (Hv' & Hh' & _).
      rewrite Hv', Hh'. split; [done |]. split; [done |].
      by apply pcSdToNodeUnmark_pc_marks_ok. }
    destruct Hf5 as (Hf5 & Hv5 & Hp5). clearbody ed5.
    destruct (extreduce_mldistsEmptySlotSetFilled _) as [m' |] eqn:E6; simpl;
      [| done].
    apply (mldists_setFilled_ok _ _ _ Hf5) in E6 as [Hok6 Hfr6].
    replace (Z.of_nat a + 1) with (Z.of_nat (S a)) by lia.
    intros Hl. apply IH in Hl as (Hok' & Hv' & Hp'); [| done | done | done].
    split; [done |]. split; [| done]. simpl in Hv'. congruence.
Qed.

Lemma extreduce_mstLevelHorizontalAdd_ok g nextedges extedges ed ed' :
  sd_contract g -> stores_ok ed ->
  extreduce_mstLevelHorizontalAdd g nextedges extedges ed = Some ed' ->
  stores_ok ed'.
Proof.
  intros Hg (Hv & Hh & Hfr & Hp). unfold extreduce_mstLevelHorizontalAdd.
  rewrite seqZ_of_to_nat. change 0 with (Z.of_nat 0). intros Hl.
  apply (extreduce_mstLevelHorizontalAdd_loop_ok g _ _ _ Hg) in Hl
    as (Hok & Hv' & Hp').
  - simpl in Hv'. split; [by rewrite Hv' |]. split; [done |].
    split; [by rewrite Hv' | done].
  - done.
  - simpl. constructor; [constructor | done].
  - intros s. simpl. by intros [= <-].
Qed.

End Stores.

(** ** The stores at the quiescent points *)

Section Quiescent.
Context `{Externals}.

Lemma mstAddRootLevelSDs_one_ok root m m' :
  mldists_ok m -> mstAddRootLevelSDs_one root m = Some m' ->
  mldists_ok m' /\ emptyslot_fresh m'.
Proof.
  intros Hok. unfold mstAddRootLevelSDs_one. simpl. intros [= <-]. split.
  - simpl. constructor; [| done]. simpl. repeat constructor.
  - by intros s.
Qed.

Lemma extreduce_mstLevelClose_stores g extnode ed ed' :
  extreduce_mstLevelClose g extnode ed = Some ed' ->
  sds_vertical (reddata ed') = sds_vertical (reddata ed)
  /\ sds_horizontal (reddata ed') = sds_horizontal (reddata ed)
  /\ pcdata ed' = pcdata ed.
Proof.
  unfold extreduce_mstLevelClose, mstLevelBuildBaseMstRoot, add1NodeMst,
    mstLevelBuildBaseMst.
  destruct (extIsAtInitialComp ed); simpl.
  - by intros [= <-].
  - destruct (graph_csrdepo_getTopCSR _); simpl; [| done].
    destruct (baseMstBuildNew _ _ _ _); simpl; [| done]. by intros [= <-].
Qed.

Lemma extreduce_mstRuleOutPeriph_pcdata g ed ed' b :
  extreduce_mstRuleOutPeriph g ed = Some (ed', b) -> pcdata ed' = pcdata ed.
Proof.
  unfold extreduce_mstRuleOutPeriph, mstCompBuildMst.
  destruct (graph_csrdepo_getTopCSR _) as [base |]; simpl; [| done].
  destruct (mstCompBuildMst_loop _ _ _ _) as [[[ed1 x1] r] |] eqn:E; simpl;
    [| done].
  apply mstCompBuildMst_loop_marks_only, marks_only_fields in E
    as (_ & Hp & _).
  destruct r; simpl.
  - destruct (graph_csrdepo_removeTop _); simpl; [| done]. by intros [= <- _].
  - destruct (mstCompRuleOut _ _); simpl; [| done]. by intros [= <- _].
Qed.

Lemma engine_step_stores_ok g ed ed' :
  sd_contract g -> stores_ok ed -> engine_step g ed ed' -> stores_ok ed'.
Proof.
  intros Hg Hok Hstep. pose proof Hok as (Hv & Hh & Hfr & Hp).
  destruct Hstep as [root ed ed' Hs | ed | e ed ed' b Hs | e ed ed' b Hs | ed
                    | ed r Hs | n es ed ed' Hs | e ed ed' Hs | ed r Hs
                    | ed ed' Hs | ed ed' b Hs | ed ed' Hs Hpm].
  - unfold extreduce_mstAddRootLevel in Hs.
    destruct (mstAddRootLevelMsts ed) as [ed1 |] eqn:E1; simpl in Hs; [| done].
    assert (Hsame : sds_vertical (reddata ed1) = sds_vertical (reddata ed)
                    /\ sds_horizontal (reddata ed1) = sds_horizontal (reddata ed)
                    /\ pcdata ed1 = pcdata ed).
    { unfold mstAddRootLevelMsts, add1NodeMst in E1. simpl in E1.
      by injection E1 as <-. }
    destruct Hsame as (Hv1 & Hh1 & Hp1). unfold mstAddRootLevelSDs in Hs.
    rewrite Hv1, Hh1 in Hs.
    destruct (mstAddRootLevelSDs_one root (sds_vertical (reddata ed)))
      as [v |] eqn:Ev; [| done].
    destruct (mstAddRootLevelSDs_one root (sds_horizontal (reddata ed)))
      as [h |] eqn:Eh; [| done].
    simpl in Hs. injection Hs as <-.
    destruct (mstAddRootLevelSDs_one_ok _ _ _ Hv Ev) as [Hv' Hfr'].
    destruct (mstAddRootLevelSDs_one_ok _ _ _ Hh Eh) as [Hh' _].
    unfold stores_ok. simpl. repeat split; try done.
    by apply (pc_marks_ok_pcdata ed).
  - unfold extreduce_mstLevelInit, stores_ok.
    destruct (extIsAtInitialComp ed); simpl;
      (split; [constructor; [constructor | done] |];
       split; [done |]; split; [| done]; intros s; simpl; by intros [= <-]).
  - by eapply extreduce_mstLevelVerticalAddLeaf_ok.
  - by eapply extreduce_mstLevelVerticalAddLeafInitial_ok.
  - unfold extreduce_mstLevelVerticalClose, extreduce_mldistsLevelCloseTop,
      stores_ok. simpl.
    destruct (ml_levels (sds_vertical (reddata ed))) as [| l rest] eqn:El; simpl.
    + done.
    + unfold mldists_ok in *. rewrite El in Hv.
      apply Forall_cons in Hv as [Hl Hrest].
      split; [by constructor |]. split; [done |]. split; [by intros s | done].
  - unfold extreduce_mstLevelVerticalRemove, extreduce_mldistsLevelRemoveTop
      in Hs.
    destruct (ml_levels (sds_vertical (reddata ed))) as [| v vs] eqn:Ev;
      simpl in Hs; [done |].
    injection Hs as <-. unfold stores_ok, mldists_ok in *. simpl.
    rewrite Ev in Hv. apply Forall_cons in Hv as [_ Hvs].
    split; [done |]. split; [done |]. split; [by intros s | done].
  - by eapply extreduce_mstLevelHorizontalAdd_ok.
  - apply extreduce_mstLevelClose_stores in Hs as (Hv' & Hh' & Hp').
    unfold stores_ok. rewrite Hv', Hh'. repeat split; try done.
    by apply (pc_marks_ok_pcdata ed).
  - unfold extreduce_mstLevelRemove, extreduce_mldistsLevelRemoveTop,
      graph_csrdepo_removeTop in Hs.
    assert (Htl : forall m, mldists_ok m ->
              forall l rest, ml_levels m = l :: rest ->
              Forall (fun l => Forall (fun s => Forall stored_ok (slot_dists s))
                                 (level_slots l)) rest).
    { intros m Hm l rest El. unfold mldists_ok in Hm. rewrite El in Hm.
      by apply Forall_cons in Hm as [_ ?]. }
    destruct (_ =? _).
    + destruct (ml_levels (sds_horizontal (reddata ed))) as [| h hs] eqn:Eh;
        simpl in Hs; [done |].
      destruct (depo_csrs (msts_levelbase (reddata ed))); simpl in Hs; [done |].
      destruct (ml_levels (sds_vertical (reddata ed))) as [| v vs] eqn:Ev;
        simpl in Hs; [done |].
      injection Hs as <-. unfold stores_ok, mldists_ok. simpl.
      split; [exact (Htl _ Hv _ _ Ev) |].
      split; [exact (Htl _ Hh _ _ Eh) |]. split; [by intros s | done].
    + simpl in Hs.
      destruct (ml_levels (sds_vertical (reddata ed))) as [| v vs] eqn:Ev;
        simpl in Hs; [done |].
      injection Hs as <-. unfold stores_ok, mldists_ok. simpl.
      split; [exact (Htl _ Hv _ _ Ev) |]. split; [done |].
      split; [by intros s | done].
  - unfold extreduce_mstCompRemove in Hs. destruct (_ <? _).
    + destruct (graph_csrdepo_removeTop _); simpl in Hs; [| done].
      by injection Hs as <-.
    + by injection Hs as <-.
  - pose proof (extreduce_mstRuleOutPeriph_pcdata _ _ _ _ Hs) as Hp'.
    apply extreduce_mstRuleOutPeriph_frame in Hs as (Hv' & Hh' & _).
    unfold stores_ok. rewrite Hv', Hh'. repeat split; try done.
    by apply (pc_marks_ok_pcdata ed).
  - unfold stores_ok. by rewrite Hs.
Qed.

Lemma engine_steps_stores_ok g ed0 ed :
  sd_contract g ->
  rtc (engine_step g) ed0 ed -> stores_ok ed0 -> stores_ok ed.
Proof.
  intros Hg. induction 1 as [| x y z Hxy _ IH]; [done |].
  intros Hx. apply IH. by eapply engine_step_stores_ok.
Qed.

(** C8 (as amended).  The unknown special distance is stored as FARAWAY,
    not as -1.  Let FARAWAY be positive, let the oracle answer -1 or a
    distance in [0, FARAWAY), let an edge cost be non-negative with two of
    them below FARAWAY, and let no prize be negative.  Then every public
    operation of the engine, [extreduce_mstLevelVerticalRemove] among them,
    keeps the invariant of the stores and of the prize-collecting mark
    array; so in every state reached from empty stores and a mark array
    whose entries are -1 or distances, each distance stored in the vertical
    and in the horizontal store is either FARAWAY or lies in [0, FARAWAY).
    The special distance that the level-building code computes is -1 or lies
    in [0, FARAWAY); it stores FARAWAY in the first case and the distance
    itself in the second. *)
Theorem sd_stores_invariant (g : GRAPH) :
  sd_contract g ->
  (forall ed ed', stores_ok ed -> engine_step g ed ed' -> stores_ok ed')
  /\ (forall ed0 ed,
        sds_vertical (reddata ed0) = empty_mldists ->
        sds_horizontal (reddata ed0) = empty_mldists ->
        pc_marks_ok ed0 ->
        rtc (engine_step g) ed0 ed ->
        forall m l s d,
          m = sds_vertical (reddata ed) \/ m = sds_horizontal (reddata ed) ->
          In l (ml_levels m) -> In s (level_slots l) -> In d (slot_dists s) ->
          d = FARAWAY \/ (0 <= d /\ d < FARAWAY)%Q)
  /\ (forall vertex1 vertex2 ed,
        pc_marks_ok ed ->
        let sd := extGetSdDouble g vertex1 vertex2 ed in
        ((sd == -1)%Q /\ sd_stored sd = FARAWAY)
        \/ ((0 <= sd /\ sd < FARAWAY)%Q /\ sd_stored sd = sd))
  /\ sd_stored (-1) = FARAWAY.
Proof.
  intros Hg.
  split; [intros ed ed'; exact (engine_step_stores_ok g ed ed' Hg) |].
  split; [| split; [| reflexivity]].
  - intros ed0 ed Ev Eh Hp0 Hrtc.
    assert (Hok : stores_ok ed).
    { apply (engine_steps_stores_ok g ed0 ed Hg Hrtc).
      unfold stores_ok. rewrite Ev, Eh. repeat split; try constructor; done. }
    destruct Hok as (Hv & Hh & _).
    intros m l s d Hm Hl Hs Hd.
    assert (Hmok : mldists_ok m) by (by destruct Hm as [-> | ->]).
    unfold mldists_ok in Hmok. rewrite List.Forall_forall in Hmok.
    specialize (Hmok l Hl). rewrite List.Forall_forall in Hmok.
    specialize (Hmok s Hs). rewrite List.Forall_forall in Hmok.
    by apply Hmok.
  - intros v1 v2 ed Hp sd.
    pose proof (extGetSdDouble_range g v1 v2 ed Hg Hp) as Hr. fold sd in Hr.
    unfold sd_stored. destruct Hr as [Hm | Hr].
    + left. split; [done |].
      destruct (Qle_bool _ _) eqn:E; [| done].
      apply Qle_bool_iff in E. rewrite Hm in E. lra.
    + right. split; [done |].
      destruct (Qle_bool _ _) eqn:E; [done |].
      apply not_true_iff_false in E. rewrite Qle_bool_iff in E. lra.
Qed.

End Quiescent.

(** From the root alone with empty stores, in an instance where every
    special distance is unknown: after the root level, [level_init] and the
    addition of the leaf 1 of an initial edge, the vertical store holds
    FARAWAY, which is neither -1 nor within [0, FARAWAY): the claim C8 as
    stated fails there. *)
Lemma sd_store_holds_FARAWAY :
  exists ed1 ed2,
    @extreduce_mstAddRootLevel unknown_externals 0 triangle_root = Some ed1
    /\ @extreduce_mstLevelVerticalAddLeafInitial unknown_externals
         triangle_graph 0
         (set_reddata (@extreduce_mstLevelInit unknown_externals (reddata ed1) ed1)
            ed1)
       = Some (ed2, false)
    /\ ml_levels (sds_vertical (reddata ed2))
       = [ {| level_maxslots := STP_EXT_MAXGRAD; level_ntargets := 1;
              level_slots :=
                [ {| slot_base := 1; slot_ids := [];
                     slot_dists := [@FARAWAY unknown_externals] |} ];
              level_closed := false |};
           one_level ]
    /\ ~ @stored_as_stated unknown_externals (@FARAWAY unknown_externals).
Proof.
  eexists _, _. split; [vm_compute; reflexivity |].
  split; [vm_compute; reflexivity |]. split; [vm_compute; reflexivity |].
  intros [Hm | [_ Hlt]]; [discriminate Hm | by apply Qlt_irrefl in Hlt].
Qed.

(** The prize-collecting path of four vertices, in the instance where the
    oracle knows no special distance: after the root level, [level_init]
    and the addition of the leaf 1 of the initial edge, the vertical store
    holds the distance 1, which the mark array gave for the root. *)
Lemma sd_stores_invariant_witness :
  exists ed,
    rtc (@engine_step unknown_externals (line_graph true 0.3)) (line_root true) ed
    /\ ml_levels (sds_vertical (reddata ed))
       = [ {| level_maxslots := STP_EXT_MAXGRAD; level_ntargets := 1;
              level_slots :=
                [ {| slot_base := 1; slot_ids := []; slot_dists := [1%Q] |} ];
              level_closed := false |};
           one_level ]
    /\ (1%Q = @FARAWAY unknown_externals
        \/ (0 <= 1 /\ 1 < @FARAWAY unknown_externals)%Q).
Proof.
  assert (Hr : exists ed,
             rtc (@engine_step unknown_externals (line_graph true 0.3))
               (line_root true) ed
             /\ ml_levels (sds_vertical (reddata ed))
                = [ {| level_maxslots := STP_EXT_MAXGRAD; level_ntargets := 1;
                       level_slots :=
                         [ {| slot_base := 1; slot_ids := [];
                              slot_dists := [1%Q] |} ];
                       level_closed := false |};
                    one_level ]).
  { eexists. split.
    - eapply rtc_l.
      { eapply (@step_addRootLevel unknown_externals (line_graph true 0.3) 0).
        vm_compute. reflexivity. }
      eapply rtc_l; [apply step_levelInit |].
      eapply rtc_l; [| apply rtc_refl].
      eapply (@step_verticalAddLeafInitial unknown_externals
                (line_graph true 0.3) 0).
      vm_compute. reflexivity.
    - vm_compute. reflexivity. }
  destruct Hr as (ed & Hrtc & Hlev). exists ed.
  split; [exact Hrtc |]. split; [exact Hlev |].
  assert (Hg : @sd_contract unknown_externals (line_graph true 0.3)).
  { split; [reflexivity |]. split; [intros v1 v2; by left |]. split.
    - repeat (constructor; [split; by vm_compute |]). constructor.
    - intros v. unfold graph_prize, zget. simpl.
      destruct (v <? 0); [done |].
      by destruct (Z.to_nat v) as [| [| [| [| [| n]]]]]. }
  destruct (@sd_stores_invariant unknown_externals (line_graph true 0.3) Hg)
    as (_ & Hreach & _).
  eapply (Hreach (line_root true) ed eq_refl eq_refl); [| exact Hrtc | | | |].
  - repeat constructor.
  - by left.
  - rewrite Hlev. left. reflexivity.
  - left. reflexivity.
  - left. reflexivity.
Defined.

(** ** Stage 1: the ancestor leaves of a leaf with siblings *)















Section SiblingLeaves.
Context `{Externals}.




End SiblingLeaves.

Section AncestorTestsSiblings.
Context `{Externals}.


End AncestorTestsSiblings.

